(** * nvbench: statistics helpers and the text histogram renderer

    A shallow embedding of [nvbench/detail/statistics.cuh]
    ([compute_noise], [compute_percentiles], [compute_histogram],
    [fit_histogram]) and of [nvbench/internal/histogram_printer.cuh]
    ([histogram_printer]), followed by the properties of these functions.

    Numbers are modelled as the C++ code has them:
    - [nvbench::float64_t] and [nvbench::float32_t] are IEEE 754 binary64 and
      binary32 values, modelled with the standard library's [spec_float] and
      its correctly rounded operations (round to nearest, ties to even);
    - [std::size_t] is a 64-bit unsigned integer, modelled as [Z] with the
      wrap-around written out ([wrap64]);
    - [nvbench::int64_t] counts are [Z]; they are differences of positions in
      one vector and always fit;
    - conversions from floating point to an integer type truncate and are
      undefined in C++ when the truncated value does not fit the target type:
      they return [None] there, as do failed [assert]s and out-of-range
      vector accesses. *)

From Stdlib Require Import ZArith List Bool Lia SpecFloat Sorted.
From Stdlib Require Strings.Byte.
Import ListNotations.
Open Scope Z_scope.

(** ** Floating-point formats *)

Record format := { prec : Z; emax : Z }.

Definition binary32 : format := {| prec := 24; emax := 128 |}.
Definition binary64 : format := {| prec := 53; emax := 1024 |}.

Module Flt.

Definition valid (f : format) (x : spec_float) : bool :=
  valid_binary (prec f) (emax f) x.

Definition is_nan (x : spec_float) : bool :=
  match x with S754_nan => true | _ => false end.

Definition is_finite (x : spec_float) : bool :=
  match x with S754_zero _ | S754_finite _ _ _ => true | _ => false end.

Definition add (f : format) := SFadd (prec f) (emax f).
Definition sub (f : format) := SFsub (prec f) (emax f).
Definition mul (f : format) := SFmul (prec f) (emax f).
Definition div (f : format) := SFdiv (prec f) (emax f).
Definition sqrt (f : format) := SFsqrt (prec f) (emax f).
Definition ltb : spec_float -> spec_float -> bool := SFltb.
Definition leb : spec_float -> spec_float -> bool := SFleb.
Definition eqb : spec_float -> spec_float -> bool := SFeqb.

(** [static_cast<floatN_t>(z)] for an integer [z]. *)
Definition of_Z (f : format) (z : Z) : spec_float :=
  binary_normalize (prec f) (emax f) z 0 false.

Definition zero : spec_float := S754_zero false.
Definition infinity : spec_float := S754_infinity false.

(** Truncation toward zero of a finite value; [None] on NaN and
    infinities. *)
Definition trunc (x : spec_float) : option Z :=
  match x with
  | S754_zero _ => Some 0
  | S754_finite s m e => Some (cond_Zopp s (Z.shiftl (Zpos m) e))
  | _ => None
  end.

(** [static_cast<T>(x)] for an integer type [T] holding [lo .. hi]. *)
Definition to_int (lo hi : Z) (x : spec_float) : option Z :=
  match trunc x with
  | Some z => if (lo <=? z) && (z <=? hi) then Some z else None
  | None => None
  end.

(** [std::fmod(x, 1)]: the fractional part of [x], with the sign of [x];
    the result is exact. *)
Definition fmod1 (f : format) (x : spec_float) : spec_float :=
  match x with
  | S754_nan | S754_infinity _ => S754_nan
  | S754_zero s => S754_zero s
  | S754_finite s m e =>
      if 0 <=? e then S754_zero s
      else binary_normalize (prec f) (emax f)
             (cond_Zopp s (Zpos m mod 2 ^ (- e))) e s
  end.

End Flt.

(** ** Integer types *)

Definition wrap64 (z : Z) : Z := z mod 2 ^ 64.

Definition size_max : Z := 2 ^ 64 - 1.
Definition int64_min : Z := - 2 ^ 63.
Definition int64_max : Z := 2 ^ 63 - 1.

(** [std::clamp(v, lo, hi)]. *)
Definition clamp (v lo hi : Z) : Z :=
  if v <? lo then lo else if hi <? v then hi else v.

(** [std::reduce(first, last, int64_t{}, max)]. *)
Definition reduce_max (l : list Z) : Z := fold_left Z.max l 0.

(** ** nvbench/detail/statistics.cuh *)

Module detail.

Definition f64 := binary64.
Definition f32 := binary32.

(** Modelled from the spec: [nvbench::detail::transform_reduce] of
    [nvbench/detail/transform_reduce.cuh], which is not part of the
    sources at hand.  The spec describes its use as the sum of the
    transformed elements; it is taken as the sequential left-to-right
    reduction starting from [init]. *)
Definition transform_reduce {A B : Type} (l : list A) (init : B)
    (reduce : B -> B -> B) (transform : A -> B) : B :=
  fold_left (fun acc x => reduce acc (transform x)) l init.

Definition compute_noise (data : list spec_float) (sum : spec_float)
  : spec_float :=
  let num := Flt.of_Z f64 (Z.of_nat (length data)) in
  if Flt.ltb num (Flt.of_Z f64 5) then Flt.infinity
  else
    let mean := Flt.div f64 sum num in
    let variance :=
      Flt.div f64
        (transform_reduce data Flt.zero (Flt.add f64)
           (fun val =>
              let val := Flt.sub f64 val mean in
              let val := Flt.mul f64 val val in
              val))
        (Flt.sub f64 num (Flt.of_Z f64 1)) in
    let abs_stdev := Flt.sqrt f64 variance in
    Flt.div f64 abs_stdev mean.

(** [data.size()] *)
Definition size {A : Type} (data : list A) : Z := Z.of_nat (length data).

(** The index selected for one request [p] on a vector of [n] elements. *)
Definition percentile_index (n : Z) (p : Z) : Z :=
  let p := clamp p 0 100 in
  if p =? 100 then wrap64 (n - 1) else wrap64 (p * n) / 100.

(** [data[idx]]; reading past the end is undefined. *)
Definition at_index {A : Type} (data : list A) (idx : Z) : option A :=
  if (0 <=? idx) && (idx <? size data) then nth_error data (Z.to_nat idx)
  else None.

Fixpoint compute_percentiles_loop (data : list spec_float)
    (percentiles : list Z) (results : list spec_float)
  : option (list spec_float) :=
  match percentiles with
  | [] => Some results
  | p :: rest =>
      match at_index data (percentile_index (size data) p) with
      | Some v => compute_percentiles_loop data rest (results ++ [v])
      | None => None
      end
  end.

Definition compute_percentiles (data : list spec_float)
    (percentiles : list Z) : option (list spec_float) :=
  compute_percentiles_loop data percentiles [].

(** [std::lower_bound(first, last, val)] on positions of [data]: the
    bisection of the C++ standard library.  [len] halves at every step, so
    [len] steps of fuel are more than enough. *)
Fixpoint lower_bound_loop (fuel : nat) (data : list spec_float)
    (first len : nat) (val : spec_float) : nat :=
  match fuel with
  | O => first
  | S fuel' =>
      match len with
      | O => first
      | _ =>
          let half := Nat.div2 len in
          let middle := (first + half)%nat in
          if Flt.ltb (nth middle data S754_nan) val
          then lower_bound_loop fuel' data (S middle) (len - half - 1) val
          else lower_bound_loop fuel' data first half val
      end
  end.

Definition lower_bound (data : list spec_float) (first last : nat)
    (val : spec_float) : nat :=
  lower_bound_loop (last - first) data first (last - first) val.

(** The boundary [min + stride * i]. *)
Definition level (min stride : spec_float) (i : Z) : spec_float :=
  Flt.add f64 min (Flt.mul f64 stride (Flt.of_Z f64 i)).

(** The [for] loop of [compute_histogram]: [k] iterations are left, [i] is
    the loop counter, [iter] the cursor. *)
Fixpoint histogram_loop (k : nat) (data : list spec_float)
    (min stride : spec_float) (i : Z) (iter : nat) (histo : list Z)
  : nat * list Z :=
  match k with
  | O => (iter, histo)
  | S k' =>
      let prev := iter in
      let iter := lower_bound data iter (length data) (level min stride i) in
      histogram_loop k' data min stride (i + 1) iter
        (histo ++ [Z.of_nat iter - Z.of_nat prev])
  end.

Definition compute_histogram (data : list spec_float)
    (min stride : spec_float) (bins : Z) : list Z :=
  let '(iter, histo) :=
    histogram_loop (Z.to_nat (wrap64 (bins + 1))) data min stride 0 O [] in
  histo ++ [Z.of_nat (length data) - Z.of_nat iter].

(** [histo[i]] *)
Definition histo_at (histo : list Z) (i : Z) : option Z :=
  at_index histo i.

(** [while (min_level < bins + 1 && histo[min_level] < thresh)
    ++min_level;] *)
Fixpoint min_level_loop (fuel : nat) (histo : list Z) (bins thresh : Z)
    (min_level : Z) : option Z :=
  match fuel with
  | O => None
  | S fuel' =>
      if min_level <? wrap64 (bins + 1) then
        match histo_at histo min_level with
        | Some c =>
            if c <? thresh
            then min_level_loop fuel' histo bins thresh
                   (wrap64 (min_level + 1))
            else Some min_level
        | None => None
        end
      else Some min_level
  end.

(** [while (max_level > min_level && histo[max_level] < thresh)
    --max_level;] *)
Fixpoint max_level_loop (fuel : nat) (histo : list Z) (min_level thresh : Z)
    (max_level : Z) : option Z :=
  match fuel with
  | O => None
  | S fuel' =>
      if min_level <? max_level then
        match histo_at histo max_level with
        | Some c =>
            if c <? thresh
            then max_level_loop fuel' histo min_level thresh
                   (wrap64 (max_level - 1))
            else Some max_level
        | None => None
        end
      else Some max_level
  end.

(** The two trimming loops; the fuel covers every value the indices can
    take. *)
Definition trim_levels (histo : list Z) (bins thresh : Z)
  : option (Z * Z) :=
  let fuel := S (Z.to_nat (wrap64 (bins + 1))) in
  match min_level_loop fuel histo bins thresh 1 with
  | Some min_level =>
      match max_level_loop fuel histo min_level thresh
              (wrap64 (bins + 1)) with
      | Some max_level => Some (min_level, max_level)
      | None => None
      end
  | None => None
  end.

(** The result of [fit_histogram]: the histogram and the values left in
    the reference parameters [min] and [stride]. *)
Record fit_result := {
  fit_histo : list Z;
  fit_min : spec_float;
  fit_stride : spec_float
}.

Definition fit_threshold (most : Z) (count_thresh_frac : spec_float)
  : option Z :=
  Flt.to_int int64_min int64_max
    (Flt.mul f32 (Flt.of_Z f32 most) count_thresh_frac).

Definition fit_histogram (data : list spec_float)
    (min stride : spec_float) (bins : Z) (count_thresh_frac : spec_float)
  : option fit_result :=
  let histo := compute_histogram data min stride bins in
  let most := reduce_max histo in
  match fit_threshold most count_thresh_frac with
  | None => None
  | Some thresh =>
      match trim_levels histo bins thresh with
      | None => None
      | Some (min_level, max_level) =>
          let max :=
            Flt.add f64 min
              (Flt.mul f64 stride (Flt.of_Z f64 (wrap64 (max_level + 1)))) in
          let min :=
            Flt.add f64 min (Flt.mul f64 stride (Flt.of_Z f64 min_level)) in
          let stride :=
            Flt.div f64 (Flt.sub f64 max min) (Flt.of_Z f64 bins) in
          Some {| fit_histo := compute_histogram data min stride bins;
                  fit_min := min;
                  fit_stride := stride |}
      end
  end.

End detail.

(** ** nvbench/internal/histogram_printer.cuh *)

Module internal.

Import detail.

Record histogram_printer := {
  m_min : spec_float;
  m_stride : spec_float;
  m_bins : list Z;
  m_num_rows : Z;
  m_num_bins : Z;
  m_scale_factor : spec_float;
  m_chart : list Z
}.

(** The constructor. *)
Definition make (min stride : spec_float) (bins : list Z)
  : histogram_printer :=
  let num_rows := 10 in
  let num_bins := wrap64 (size bins - 2) in
  {| m_min := min;
     m_stride := stride;
     m_bins := bins;
     m_num_rows := num_rows;
     m_num_bins := num_bins;
     m_scale_factor :=
       Flt.div f32 (Flt.of_Z f32 1) (Flt.of_Z f32 (reduce_max bins));
     m_chart := repeat 0 (Z.to_nat (wrap64 (num_bins * num_rows))) |}.

Definition set_chart (p : histogram_printer) (chart : list Z)
  : histogram_printer :=
  {| m_min := m_min p;
     m_stride := m_stride p;
     m_bins := m_bins p;
     m_num_rows := m_num_rows p;
     m_num_bins := m_num_bins p;
     m_scale_factor := m_scale_factor p;
     m_chart := chart |}.

(** [v[i] = x] for [i] in range. *)
Fixpoint update {A : Type} (l : list A) (i : nat) (x : A) : list A :=
  match l, i with
  | [], _ => []
  | _ :: t, O => x :: t
  | h :: t, S i' => h :: update t i' x
  end.

Definition write_element (p : histogram_printer) (bin row eighths : Z)
  : option histogram_printer :=
  let row := wrap64 (wrap64 (m_num_rows p - row) - 1) in
  let offset := wrap64 (wrap64 (row * m_num_bins p) + bin) in
  if offset <? size (m_chart p)
  then Some (set_chart p (update (m_chart p) (Z.to_nat offset) eighths))
  else None.

(** [for (row = 0; row < num_full; ++row) write_element(bin, row, 8);]
    with [k] iterations left. *)
Fixpoint fill_rows (k : nat) (p : histogram_printer) (bin row : Z)
  : option histogram_printer :=
  match k with
  | O => Some p
  | S k' =>
      match write_element p bin row 8 with
      | Some p' => fill_rows k' p' bin (wrap64 (row + 1))
      | None => None
      end
  end.

Definition scaled_value (p : histogram_printer) (value : Z) : spec_float :=
  Flt.mul f32 (Flt.of_Z f32 value) (m_scale_factor p).

Definition num_full_of (p : histogram_printer) (scaled : spec_float)
  : option Z :=
  Flt.to_int 0 size_max (Flt.mul f32 scaled (Flt.of_Z f32 (m_num_rows p))).

Definition eighths_of (scaled : spec_float) : option Z :=
  Flt.to_int 0 255 (Flt.mul f32 (Flt.fmod1 f32 scaled) (Flt.of_Z f32 8)).

Definition render_bin (p : histogram_printer) (bin : Z)
  : option histogram_printer :=
  match at_index (m_bins p) (wrap64 (bin + 1)) with
  | None => None
  | Some value =>
      let scaled := scaled_value p value in
      match num_full_of p scaled, eighths_of scaled with
      | Some num_full, Some eighths =>
          if num_full <=? m_num_rows p then
            match fill_rows (Z.to_nat num_full) p bin 0 with
            | Some p' =>
                if num_full <? m_num_rows p'
                then write_element p' bin num_full eighths
                else Some p'
            | None => None
            end
          else None
      | _, _ => None
      end
  end.

(** [get_row(row)]: the cells between the two iterators. *)
Definition get_row (p : histogram_printer) (row : Z) : option (list Z) :=
  let first := wrap64 (row * m_num_bins p) in
  let last := wrap64 (wrap64 (row + 1) * m_num_bins p) in
  if (first <=? last) && (last <=? size (m_chart p))
  then Some (firstn (Z.to_nat (last - first))
               (skipn (Z.to_nat first) (m_chart p)))
  else None.

Definition bar : list Byte.byte := [Byte.x7c].
Definition bar_newline : list Byte.byte := [Byte.x7c; Byte.x0a].

(** The UTF-8 bytes written for one cell. *)
Definition render_eighth (eighth : Z) : list Byte.byte :=
  match eighth with
  | 1 => [Byte.xe2; Byte.x96; Byte.x81]
  | 2 => [Byte.xe2; Byte.x96; Byte.x82]
  | 3 => [Byte.xe2; Byte.x96; Byte.x83]
  | 4 => [Byte.xe2; Byte.x96; Byte.x84]
  | 5 => [Byte.xe2; Byte.x96; Byte.x85]
  | 6 => [Byte.xe2; Byte.x96; Byte.x86]
  | 7 => [Byte.xe2; Byte.x96; Byte.x87]
  | 8 => [Byte.xe2; Byte.x96; Byte.x88]
  | _ => [Byte.x20]
  end.

Definition render_cells (cells : list Z) : list Byte.byte :=
  concat (map render_eighth cells).

(** The row loop of [render_string], [k] rows left. *)
Fixpoint render_rows (k : nat) (p : histogram_printer) (row : Z)
    (buffer : list Byte.byte) : option (list Byte.byte) :=
  match k with
  | O => Some buffer
  | S k' =>
      match get_row p row with
      | Some cells =>
          render_rows k' p (wrap64 (row + 1))
            (buffer ++ bar ++ render_cells cells ++ bar_newline)
      | None => None
      end
  end.

Definition render_string (p : histogram_printer)
  : option (list Byte.byte) :=
  render_rows (Z.to_nat (m_num_rows p)) p 0 [].

(** The bin loop of [render], [k] bins left. *)
Fixpoint render_bins (k : nat) (p : histogram_printer) (bin : Z)
  : option histogram_printer :=
  match k with
  | O => Some p
  | S k' =>
      match render_bin p bin with
      | Some p' => render_bins k' p' (wrap64 (bin + 1))
      | None => None
      end
  end.

Definition render (p : histogram_printer) : option (list Byte.byte) :=
  match render_bins (Z.to_nat (m_num_bins p)) p 0 with
  | Some p' => render_string p'
  | None => None
  end.

(** Reading a rendered string back: its lines and the number of
    code points ("printable units") of a line. *)
Fixpoint split_lines (s : list Byte.byte) (line : list Byte.byte)
  : list (list Byte.byte) :=
  match s with
  | [] => match line with [] => [] | _ => [line] end
  | b :: rest =>
      if Byte.eqb b Byte.x0a then line :: split_lines rest []
      else split_lines rest (line ++ [b])
  end.

Definition is_continuation (b : Byte.byte) : bool :=
  let n := Byte.to_N b in ((128 <=? n) && (n <? 192))%N.

Definition utf8_units (s : list Byte.byte) : nat :=
  length (filter (fun b => negb (is_continuation b)) s).

End internal.

(** ** Mathematical reading of the floating-point operations

    Values of one format are compared through [ordv], their value scaled by
    [2 ^ (- lo)] to an integer; [RND] is the rounding the operations
    perform on such scaled values. *)

Module FS.

(** Rounding to nearest, ties to even, of [Y / 2 ^ n]. *)
Definition rne_div (Y n : Z) : Z :=
  let q := Y / 2 ^ n in
  match 2 * (Y mod 2 ^ n) ?= 2 ^ n with
  | Lt => q
  | Eq => if Z.even q then q else q + 1
  | Gt => q + 1
  end.

Record shr_inv (X k : Z) (R : shr_record) : Prop := {
  shr_inv_k : 0 <= k;
  shr_inv_m : shr_m R = X / 2 ^ k;
  shr_inv_r : shr_r R = true <-> 2 ^ k <= 2 * (X mod 2 ^ k);
  shr_inv_s : shr_s R = true <-> (2 * (X mod 2 ^ k)) mod 2 ^ k <> 0
}.

Definition loc_code (l : location) : Z :=
  match l with
  | loc_Exact => 0
  | loc_Inexact Lt => 1
  | loc_Inexact Eq => 2
  | loc_Inexact Gt => 3
  end.

Definition RND (prec emax lo Y : Z) : Z :=
  let n := fexp prec emax (Zdigits2 Y + lo) - lo in
  rne_div Y n * 2 ^ n.

Definition ordv (emax lo : Z) (x : spec_float) : Z :=
  match x with
  | S754_zero _ => 0
  | S754_nan => 0
  | S754_infinity s => cond_Zopp s (2 ^ (emax - lo))
  | S754_finite s m e => cond_Zopp s (Zpos m * 2 ^ (e - lo))
  end.

Definition sign_of (x : spec_float) : bool :=
  match x with
  | S754_zero s | S754_infinity s | S754_finite s _ _ => s
  | S754_nan => false
  end.

Definition not_nan (x : spec_float) : bool :=
  match x with S754_nan => false | _ => true end.

(** Rounding of a signed scaled value, clamped at the infinities. *)
Definition RNDc (prec emax lo Y : Z) : Z :=
  Z.min (RND prec emax lo Y) (2 ^ (emax - lo)).

Definition RNDs (prec emax lo V : Z) : Z :=
  if V <? 0 then - RNDc prec emax lo (- V) else RNDc prec emax lo V.

Definition good (prec emax : Z) (x : spec_float) : Prop :=
  valid_binary prec emax x = true /\ not_nan x = true.

Definition finite (x : spec_float) : bool :=
  match x with S754_zero _ | S754_finite _ _ _ => true | _ => false end.

(** Shape of a rounded mantissa [q] at exponent [E]. *)
Definition canon_or_carry (prec emax q E : Z) : Prop :=
  q = 0 \/
  (0 < q /\ fexp prec emax (Zdigits2 q + E) = E) \/
  (q = 2 ^ prec /\ emin prec emax <= E).

(** The scale at which the values of format [f] are compared: every
    product of two finite values is an integer multiple of
    [2 ^ scale f]. *)
Definition scale (f : format) : Z := 2 * emin (prec f) (emax f).

(** The value of [x], in units of [2 ^ scale f]. *)
Definition val (f : format) (x : spec_float) : Z := ordv (emax f) (scale f) x.

(** The value of [1.0]. *)
Definition unit (f : format) : Z := 2 ^ (- scale f).

(** A well-formed value of format [f] that is not NaN. *)
Definition wf (f : format) (x : spec_float) : Prop := good (prec f) (emax f) x.

(** Rounding to format [f]. *)
Definition RN (f : format) (V : Z) : Z := RNDs (prec f) (emax f) (scale f) V.

End FS.

(** ** Vocabulary of the specification *)

Module Spec.

Import FS detail internal.

(** Sum of the entries of a histogram. *)
Definition sum_counts (l : list Z) : Z := fold_right Z.add 0 l.

(** Number of samples that satisfy [p]. *)
Definition count (p : spec_float -> bool) (data : list spec_float) : Z :=
Z.of_nat (length (filter p data)).

(** The index the specification gives for percentile [p] of [n] sorted
    samples (nearest rank). *)
Definition nearest_rank_index (n p : Z) : Z :=
let p := Z.max 0 (Z.min p 100) in
if p =? 100 then n - 1 else p * n / 100.

(** Comparisons of a sample [x] with a boundary. *)
Definition below (L x : spec_float) : bool := Flt.ltb x L.
Definition at_or_above (L x : spec_float) : bool := Flt.leb L x.
Definition within (lo hi x : spec_float) : bool :=
Flt.leb lo x && Flt.ltb x hi.

(** Sorted ascending. *)
Definition sorted (data : list spec_float) : Prop :=
StronglySorted (fun a b => Flt.leb a b = true) data.

(** A sorted sample sequence: binary64 values, none of them NaN. *)
Definition samples (data : list spec_float) : Prop :=
Forall (wf binary64) data /\ sorted data.

(** A window start and a positive stride, both finite. *)
Definition window (min stride : spec_float) : Prop :=
wf binary64 min /\ finite min = true /\
wf binary64 stride /\ finite stride = true /\
Flt.ltb Flt.zero stride = true.

(** The binary64 value [m * 2 ^ e]. *)
Definition dyadic (m e : Z) : spec_float := binary_normalize 53 1024 m e false.

(** A histogram handed to the renderer: counts, not all zero, with the
  two sentinel slots. *)
Definition histogram (bins : list Z) : Prop :=
2 <= size bins <= 2 ^ 60 /\
Forall (fun c => 0 <= c <= int64_max) bins /\
Exists (fun c => c <> 0) bins.


(** The cell of chart row [row] (counted from the bottom) in column [bin]. *)
Definition cell (p : histogram_printer) (row bin : Z) : Z :=
nth (Z.to_nat ((m_num_rows p - 1 - row) * m_num_bins p + bin)) (m_chart p) 0.

(** The level the specification gives the cell of row [row] in a column with
  [num_full] full rows and a partial row at [eighths]. *)
Definition cell_level (num_full eighths row : Z) : Z :=
if row <? num_full then 8 else if row =? num_full then eighths else 0.

Definition bin_num_full (p : histogram_printer) (bin : Z) : option Z :=
match at_index (m_bins p) (bin + 1) with
| Some value => num_full_of p (scaled_value p value)
| None => None
end.

Definition bin_eighths (p : histogram_printer) (bin : Z) : option Z :=
match at_index (m_bins p) (bin + 1) with
| Some value => eighths_of (scaled_value p value)
| None => None
end.


(** The invariant of the chart buffer, and the fields the rendering loop
  leaves alone. *)
Definition chart_ok (p : histogram_printer) : Prop :=
m_num_rows p = 10 /\ 0 <= m_num_bins p <= 2 ^ 60 /\
size (m_chart p) = 10 * m_num_bins p.

Definition same_params (p p' : histogram_printer) : Prop :=
m_bins p' = m_bins p /\ m_num_rows p' = m_num_rows p /\
m_num_bins p' = m_num_bins p /\ m_scale_factor p' = m_scale_factor p.

(** Two printers that differ in the window they store, [m_min] and
  [m_stride], at most. *)
Definition same_state (p q : histogram_printer) : Prop :=
same_params p q /\ m_chart q = m_chart p.


(** Chart row [row] (counted from the bottom), left to right. *)
Definition chart_row (p : histogram_printer) (row : Z) : list Z :=
map (fun b => cell p row (Z.of_nat b)) (seq 0 (Z.to_nat (m_num_bins p))).

(** One rendered line, without its newline. *)
Definition render_line (cells : list Z) : list Byte.byte :=
bar ++ render_cells cells ++ bar.


(** The drawing as the specification describes it, from the counts alone.
  The scaled value of a count is the count times the scale factor
  [1 / most], both in binary32. *)
Definition scaled_count (most value : Z) : spec_float :=
Flt.mul binary32 (Flt.of_Z binary32 value)
  (Flt.div binary32 (Flt.of_Z binary32 1) (Flt.of_Z binary32 most)).

(** [floor (x * num_rows)], the product rounded to binary32. *)
Definition full_rows (num_rows : Z) (x : spec_float) : Z :=
val binary32 (Flt.mul binary32 x (Flt.of_Z binary32 num_rows)) / unit binary32.

(** [floor (fractional_part x * 8)]. *)
Definition partial_eighths (x : spec_float) : Z :=
(8 * (val binary32 x mod unit binary32)) / unit binary32.

(** The level of row [row] in the column of a bin that holds [value]. *)
Definition expected_level (num_rows most value row : Z) : Z :=
cell_level (full_rows num_rows (scaled_count most value))
  (partial_eighths (scaled_count most value)) row.

(** Row [row] of the drawing, left to right: one level for each of the
  entries [1 .. size - 2] of the vector, the sentinel slots left out. *)
Definition expected_row (bins : list Z) (most row : Z) : list Z :=
map (fun b => expected_level 10 most (nth (S b) bins 0) row)
  (seq 0 (length bins - 2)).

(** The UTF-8 encoding of a code point from U+0800 to U+FFFF. *)
Definition byte_of (z : Z) : Byte.byte :=
match Byte.of_N (Z.to_N z) with Some b => b | None => Byte.x00 end.

Definition utf8_bmp (c : Z) : list Byte.byte :=
[byte_of (224 + c / 4096); byte_of (128 + (c / 64) mod 64);
 byte_of (128 + c mod 64)].

(** The glyph of a level: the blocks U+2581 to U+2588 for the levels 1 to
  8, a space for level 0 (and for anything else). *)
Definition glyph (level : Z) : list Byte.byte :=
if (1 <=? level) && (level <=? 8) then utf8_bmp (9600 + level)
else [Byte.x20].

(** One line of the drawing, without its newline: a bar, one glyph for
  each level, a bar. *)
Definition expected_line (levels : list Z) : list Byte.byte :=
[Byte.x7c] ++ concat (map glyph levels) ++ [Byte.x7c].

(** The whole drawing: ten lines, the top row (row 9) first. *)
Definition expected_drawing (bins : list Z) (most : Z) : list Byte.byte :=
concat
  (map (fun i => expected_line (expected_row bins most (9 - Z.of_nat i))
                 ++ [Byte.x0a])
     (seq 0 10)).


(** A threshold fraction in [[0, 1]]. *)
Definition fraction (frac : spec_float) : Prop :=
wf binary32 frac /\ Flt.leb Flt.zero frac = true /\
Flt.leb frac (Flt.of_Z binary32 1) = true.

(** The relative unbiased standard deviation as the specification writes
    it: [sqrt (sum (x - mean)^2 / (n - 1)) / mean] with [mean = sum / n]. *)
Definition relative_stdev (data : list spec_float) (sum : spec_float)
  : spec_float :=
let num := Flt.of_Z f64 (size data) in
let mean := Flt.div f64 sum num in
let squares :=
  fold_left
    (fun acc x =>
       Flt.add f64 acc (Flt.mul f64 (Flt.sub f64 x mean) (Flt.sub f64 x mean)))
    data Flt.zero in
Flt.div f64
  (Flt.sqrt f64 (Flt.div f64 squares (Flt.sub f64 num (Flt.of_Z f64 1))))
  mean.

(** The samples [[0.5, 1.5, 2.5, 3.5]] and [[1, 2, 3, 4, 5]] of the
    specification's examples. *)
Definition example_samples : list spec_float :=
[dyadic 1 (-1); dyadic 3 (-1); dyadic 5 (-1); dyadic 7 (-1)].

Definition example_ranks : list spec_float :=
map (Flt.of_Z binary64) [1; 2; 3; 4; 5].

End Spec.

(** * Properties *)

Import FS.

(** ** Binary digits and rounded division *)

Lemma digits2_size p : digits2_pos p = Pos.size p.
Proof. induction p; simpl; congruence. Qed.

Lemma Zdigits2_bounds p : 2 ^ (Zdigits2 (Zpos p) - 1) <= Zpos p < 2 ^ Zdigits2 (Zpos p).
Proof.
  change (Zdigits2 (Zpos p)) with (Zpos (digits2_pos p)).
  rewrite digits2_size. split.
  - pose proof (Pos.size_le p) as H.
    apply Pos2Z.pos_le_pos in H. rewrite Pos2Z.inj_pow in H.
    replace (Zpos (Pos.size p)) with (Z.succ (Zpos (Pos.size p) - 1)) in H by lia.
    rewrite Z.pow_succ_r in H by lia. lia.
  - pose proof (Pos.size_gt p) as H.
    apply Pos2Z.pos_lt_pos in H. rewrite Pos2Z.inj_pow in H. exact H.
Qed.

Lemma Zdigits2_nonneg z : 0 <= Zdigits2 z.
Proof. destruct z; simpl; lia. Qed.

Lemma Zdigits2_pos_pos z : 0 < z -> 0 < Zdigits2 z.
Proof. destruct z; simpl; lia. Qed.

(** digits is characterised by its bounds *)
Lemma Zdigits2_unique z d : 0 < d -> 2 ^ (d - 1) <= z < 2 ^ d -> Zdigits2 z = d.
Proof.
  intros Hd [H1 H2].
  assert (0 < z) by (pose proof (Z.pow_pos_nonneg 2 (d-1)); lia).
  destruct z as [|p|p]; try lia.
  pose proof (Zdigits2_bounds p) as [B1 B2].
  pose proof (Zdigits2_pos_pos (Zpos p) ltac:(lia)) as Hp.
  set (d' := Zdigits2 (Zpos p)) in *.
  destruct (Z.lt_trichotomy d' d) as [Hlt|[Heq|Hgt]]; auto.
  - assert (2 ^ d' <= 2 ^ (d - 1)) by (apply Z.pow_le_mono_r; lia). lia.
  - assert (2 ^ d <= 2 ^ (d' - 1)) by (apply Z.pow_le_mono_r; lia). lia.
Qed.

Lemma Zdigits2_le a b : 0 <= a <= b -> Zdigits2 a <= Zdigits2 b.
Proof.
  intros [Ha Hab].
  destruct a as [|p|p]; try lia.
  { apply Zdigits2_nonneg. }
  destruct b as [|q|q]; try lia.
  pose proof (Zdigits2_bounds p) as [B1 B2].
  pose proof (Zdigits2_bounds q) as [C1 C2].
  destruct (Z_le_gt_dec (Zdigits2 (Zpos p)) (Zdigits2 (Zpos q))); auto.
  assert (2 ^ Zdigits2 (Zpos q) <= 2 ^ (Zdigits2 (Zpos p) - 1)) by (apply Z.pow_le_mono_r; lia).
  lia.
Qed.

Lemma Zdigits2_mul_pow z k : 0 < z -> 0 <= k -> Zdigits2 (z * 2 ^ k) = Zdigits2 z + k.
Proof.
  intros Hz Hk. destruct z as [|p|p]; try lia.
  pose proof (Zdigits2_bounds p) as [B1 B2].
  pose proof (Zdigits2_pos_pos (Zpos p) ltac:(lia)) as Hp.
  apply Zdigits2_unique; [lia|].
  replace (Zdigits2 (Z.pos p) + k - 1) with ((Zdigits2 (Z.pos p) - 1) + k) by lia.
  rewrite !Z.pow_add_r by lia.
  assert (0 < 2 ^ k) by (apply Z.pow_pos_nonneg; lia).
  split; nia.
Qed.

Lemma Zdigits2_div_pow z k : 0 <= z -> 0 <= k -> k < Zdigits2 z -> Zdigits2 (z / 2 ^ k) = Zdigits2 z - k.
Proof.
  intros Hz Hk Hlt. destruct z as [|p|p]; try (simpl in *; lia).
  pose proof (Zdigits2_bounds p) as [B1 B2].
  set (d := Zdigits2 (Zpos p)) in *.
  assert (0 < 2 ^ k) by (apply Z.pow_pos_nonneg; lia).
  apply Zdigits2_unique; [lia|].
  split.
  - apply Z.div_le_lower_bound; [lia|]. rewrite <- Z.pow_add_r by lia.
    replace (k + (d - k - 1)) with (d - 1) by lia. lia.
  - apply Z.div_lt_upper_bound; [lia|]. rewrite <- Z.pow_add_r by lia.
    replace (k + (d - k)) with d by lia. lia.
Qed.

Lemma div_small_digits z k : 0 <= z -> 0 <= k -> Zdigits2 z <= k -> z / 2 ^ k = 0.
Proof.
  intros Hz Hk Hd. destruct z as [|p|p]; try lia.
  { apply Z.div_0_l. pose proof (Z.pow_pos_nonneg 2 k); lia. }
  pose proof (Zdigits2_bounds p) as [B1 B2].
  apply Z.div_small. split; [lia|].
  assert (2 ^ Zdigits2 (Zpos p) <= 2 ^ k) by (apply Z.pow_le_mono_r; lia). lia.
Qed.

(** ** rne_div *)

Lemma rne_div_bounds Y n : 0 <= n -> Y / 2 ^ n <= rne_div Y n <= Y / 2 ^ n + 1.
Proof.
  intros Hn. unfold rne_div.
  destruct (_ ?= _); [destruct (Z.even _)|..]; lia.
Qed.

Lemma rne_div_exact Y n : 0 <= n -> rne_div (Y * 2 ^ n) n = Y.
Proof.
  intros Hn. unfold rne_div.
  assert (0 < 2 ^ n) by (apply Z.pow_pos_nonneg; lia).
  rewrite Z.mod_mul, Z.div_mul by lia.
  rewrite Z.mul_0_r. destruct (Z.compare_spec 0 (2 ^ n)); auto; lia.
Qed.

Lemma rne_div_0 Y : rne_div Y 0 = Y.
Proof. rewrite <- (rne_div_exact Y 0) at 2 by lia. f_equal. simpl. lia. Qed.

Lemma rne_div_mono Y1 Y2 n : 0 <= n -> Y1 <= Y2 -> rne_div Y1 n <= rne_div Y2 n.
Proof.
  intros Hn Hle.
  assert (Hp: 0 < 2 ^ n) by (apply Z.pow_pos_nonneg; lia).
  pose proof (Z.div_le_mono Y1 Y2 (2 ^ n) Hp Hle) as Hq.
  destruct (Z.eq_dec (Y1 / 2 ^ n) (Y2 / 2 ^ n)) as [Heq|Hne].
  - unfold rne_div. rewrite <- Heq.
    assert (Hr: Y1 mod 2 ^ n <= Y2 mod 2 ^ n).
    { rewrite (Z.mod_eq Y1), (Z.mod_eq Y2) by lia. rewrite Heq. lia. }
    destruct (Z.compare_spec (2 * (Y1 mod 2 ^ n)) (2 ^ n));
    destruct (Z.compare_spec (2 * (Y2 mod 2 ^ n)) (2 ^ n));
    try destruct (Z.even _); lia.
  - pose proof (rne_div_bounds Y1 n Hn). pose proof (rne_div_bounds Y2 n Hn). lia.
Qed.

Lemma rne_div_scale Y n k : 0 <= n -> 0 <= k -> rne_div (Y * 2 ^ k) (n + k) = rne_div Y n.
Proof.
  intros Hn Hk. unfold rne_div.
  assert (Hp: 0 < 2 ^ n) by (apply Z.pow_pos_nonneg; lia).
  assert (Hpk: 0 < 2 ^ k) by (apply Z.pow_pos_nonneg; lia).
  rewrite Z.pow_add_r by lia.
  rewrite Z.div_mul_cancel_r by lia.
  rewrite Z.mul_mod_distr_r by lia.
  replace (2 * (Y mod 2 ^ n * 2 ^ k)) with ((2 * (Y mod 2 ^ n)) * 2 ^ k) by ring.
  rewrite <- Zmult_compare_compat_r by lia. reflexivity.
Qed.

Lemma rne_div_nonneg Y n : 0 <= n -> 0 <= Y -> 0 <= rne_div Y n.
Proof.
  intros. pose proof (rne_div_bounds Y n H).
  assert (0 <= Y / 2 ^ n) by (apply Z.div_pos; [lia|apply Z.pow_pos_nonneg; lia]). lia.
Qed.

Lemma iter_pos_nat {A : Type} (f : A -> A) p x :
  iter_pos f p x = Nat.iter (Pos.to_nat p) f x.
Proof.
  revert x. induction p as [p IH|p IH|]; intros x; simpl iter_pos.
  - rewrite !IH. rewrite Pos2Nat.inj_xI.
    replace (S (2 * Pos.to_nat p))%nat with (Pos.to_nat p + S (Pos.to_nat p))%nat by lia.
    rewrite Nat.iter_add. f_equal. rewrite Nat.iter_succ_r. reflexivity.
  - rewrite !IH. rewrite Pos2Nat.inj_xO.
    replace (2 * Pos.to_nat p)%nat with (Pos.to_nat p + Pos.to_nat p)%nat by lia.
    rewrite Nat.iter_add. reflexivity.
  - reflexivity.
Qed.

Lemma shr_1_spec R : 0 <= shr_m R ->
  shr_1 R = {| shr_m := shr_m R / 2; shr_r := Z.odd (shr_m R); shr_s := shr_r R || shr_s R |}.
Proof.
  destruct R as [m r s]. cbn [shr_m shr_r shr_s]. intros Hm.
  destruct m as [|p|p]; try lia.
  - reflexivity.
  - destruct p as [p|p|]; unfold shr_1; f_equal.
    + rewrite Pos2Z.inj_xI. apply Z.div_unique with (r := 1); lia.
    + rewrite Pos2Z.inj_xO. apply Z.div_unique with (r := 0); lia.
Qed.

Lemma shr_inv_step X k R : 0 <= X -> shr_inv X k R -> shr_inv X (k + 1) (shr_1 R).
Proof.
  intros HX [Hk Hm Hr Hs].
  assert (HP : 0 < 2 ^ k) by (apply Z.pow_pos_nonneg; lia).
  assert (Hm0 : 0 <= shr_m R) by (rewrite Hm; apply Z.div_pos; lia).
  rewrite shr_1_spec by assumption.
  assert (Hmod : X mod 2 ^ (k + 1) = X mod 2 ^ k + 2 ^ k * ((X / 2 ^ k) mod 2)).
  { rewrite Z.pow_add_r by lia. change (2 ^ 1) with 2.
    apply Z.rem_mul_r; lia. }
  assert (Ha := Z.mod_pos_bound X (2 ^ k) HP).
  assert (Hb := Z.mod_pos_bound (X / 2 ^ k) 2 ltac:(lia)).
  assert (Hodd : Z.odd (shr_m R) = true <-> (X / 2 ^ k) mod 2 = 1).
  { rewrite Hm. rewrite Zmod_odd. destruct (Z.odd _); split; intros; auto; discriminate. }
  set (a := X mod 2 ^ k) in *. set (b := (X / 2 ^ k) mod 2) in *.
  assert (Hpow : 2 ^ (k + 1) = 2 * 2 ^ k) by (rewrite Z.pow_add_r by lia; change (2 ^ 1) with 2; lia).
  constructor; cbn [shr_m shr_r shr_s].
  - lia.
  - rewrite Hm, Z.pow_add_r by lia. change (2 ^ 1) with 2.
    rewrite Z.div_div by lia. reflexivity.
  - rewrite Hodd, Hmod, Hpow. nia.
  - rewrite orb_true_iff, Hr, Hs, Hmod, Hpow.
    replace (2 * (a + 2 ^ k * b)) with (2 * a + b * (2 * 2 ^ k)) by ring.
    rewrite Z.mod_add by lia.
    rewrite (Z.mod_small (2 * a) (2 * 2 ^ k)) by lia.
    destruct (Z_lt_le_dec (2 * a) (2 ^ k)).
    + rewrite (Z.mod_small (2 * a) (2 ^ k)) by lia. lia.
    + split; intros; [|left]; lia.
Qed.

Lemma shr_inv_iter X k R n : 0 <= X -> shr_inv X k R ->
  shr_inv X (k + Z.of_nat n) (Nat.iter n shr_1 R).
Proof.
  intros HX HR. induction n.
  - simpl. replace (k + 0) with k by lia. assumption.
  - rewrite Nat2Z.inj_succ. simpl Nat.iter.
    replace (k + Z.succ (Z.of_nat n)) with (k + Z.of_nat n + 1) by lia.
    apply shr_inv_step; assumption.
Qed.

Lemma shr_inv_shr X k R e n : 0 <= X -> shr_inv X k R ->
  shr_inv X (k + Z.max 0 n) (fst (shr R e n)) /\ snd (shr R e n) = e + Z.max 0 n.
Proof.
  intros HX HR. unfold shr. destruct n as [|p|p]; cbn [fst snd].
  - rewrite Z.max_l, !Z.add_0_r by lia. auto.
  - rewrite Z.max_r by lia. rewrite iter_pos_nat. split; auto.
    rewrite <- (positive_nat_Z p) at 1. apply shr_inv_iter; assumption.
  - rewrite Z.max_l, !Z.add_0_r by lia. auto.
Qed.

Lemma shr_inv_of_loc m l : 0 <= m ->
  shr_inv (4 * m + loc_code l) 2 (shr_record_of_loc m l).
Proof.
  intros Hm.
  assert (Hc : 0 <= loc_code l < 4) by (destruct l as [|[]]; simpl; lia).
  assert (Hd : (4 * m + loc_code l) / 4 = m).
  { symmetry. apply Z.div_unique with (r := loc_code l); lia. }
  assert (Hr : (4 * m + loc_code l) mod 4 = loc_code l).
  { symmetry. apply Z.mod_unique with (q := m); lia. }
  constructor; change (2 ^ 2) with 4; rewrite ?Hr, ?Hd.
  - lia.
  - destruct l as [|[]]; reflexivity.
  - destruct l as [|[]]; cbn; split; intros; try lia; try discriminate; auto.
  - destruct l as [|[]]; cbn; split; intros; try lia; try discriminate; auto.
Qed.

Lemma shr_inv_exact m : shr_inv m 0 (shr_record_of_loc m loc_Exact).
Proof.
  constructor; cbn [shr_record_of_loc shr_m shr_r shr_s]; change (2 ^ 0) with 1;
    rewrite ?Z.div_1_r, ?Z.mod_1_r; try lia.
  all: split; intros; [discriminate|cbn in *; lia].
Qed.

Lemma round_shr_inv X k R : 0 <= X -> shr_inv X k R ->
  round_nearest_even (shr_m R) (loc_of_shr_record R) = rne_div X k.
Proof.
  intros HX [Hk Hm Hr Hs].
  assert (HP : 0 < 2 ^ k) by (apply Z.pow_pos_nonneg; lia).
  assert (Ha := Z.mod_pos_bound X (2 ^ k) HP).
  unfold rne_div. rewrite <- Hm.
  destruct R as [m r s]. cbn [shr_m shr_r shr_s] in *.
  set (a := X mod 2 ^ k) in *.
  destruct (Z.compare_spec (2 * a) (2 ^ k)) as [E|E|E].
  - assert (r = true) by (apply Hr; lia). subst r.
    assert (s = false).
    { destruct s; auto. exfalso. apply (proj1 Hs); auto. rewrite E. apply Z.mod_same. lia. }
    subst s. reflexivity.
  - assert (r = false) by (destruct r; auto; assert (2 ^ k <= 2 * a) by (apply Hr; auto); lia).
    subst r. destruct s; reflexivity.
  - assert (r = true) by (apply Hr; lia). subst r.
    assert (s = true).
    { apply Hs. replace (2 * a) with ((2 * a - 2 ^ k) + 1 * 2 ^ k) by ring.
      rewrite Z.mod_add by lia. rewrite Z.mod_small by lia. lia. }
    subst s. reflexivity.
Qed.

Lemma fexp_unfold prec emax e :
  SpecFloat.fexp prec emax e = Z.max (e - prec) (3 - emax - prec).
Proof. reflexivity. Qed.

Lemma emin_unfold prec emax : SpecFloat.emin prec emax = 3 - emax - prec.
Proof. reflexivity. Qed.

Ltac fx := rewrite ?fexp_unfold, ?emin_unfold in *; lia.

(** ** Correct rounding of the operations *)

Section Round.

Variables prec emax : Z.
Hypothesis Hprec : 0 < prec.
Hypothesis Hemax : prec < emax.

Local Abbreviation emin := (SpecFloat.emin prec emax).
Local Abbreviation fexp := (SpecFloat.fexp prec emax).

Variable lo : Z.
Hypothesis Hlo : lo <= emin.

#[local] Set Default Proof Using "Hprec Hemax Hlo".

Local Abbreviation RND := (FS.RND prec emax lo).
Local Abbreviation RNDc := (FS.RNDc prec emax lo).
Local Abbreviation RNDs := (FS.RNDs prec emax lo).
Local Abbreviation ordv := (FS.ordv emax lo).
Local Abbreviation good := (FS.good prec emax).
Local Abbreviation canon_or_carry := (FS.canon_or_carry prec emax).

Lemma fexp_ge_emin e : emin <= fexp e.
Proof. fx. Qed.

Lemma fexp_mono a b : a <= b -> fexp a <= fexp b.
Proof. fx. Qed.

Lemma emin_le_emax : emin <= emax - prec.
Proof. fx. Qed.

Lemma pow2_pos k : 0 <= k -> 0 < 2 ^ k.
Proof. intros. apply Z.pow_pos_nonneg; lia. Qed.

Lemma digits_pow2 k : 0 <= k -> Zdigits2 (2 ^ k) = k + 1.
Proof.
  intros Hk. apply Zdigits2_unique; [lia|].
  replace (k + 1 - 1) with k by lia. split; [lia|].
  apply Z.pow_lt_mono_r; lia.
Qed.

Lemma round_shape m e n :
  0 < m -> n = fexp (Zdigits2 m + e) - e -> 0 <= n ->
  forall q, m / 2 ^ n <= q <= m / 2 ^ n + 1 ->
  canon_or_carry q (e + n).
Proof.
  intros Hm Hn Hn0 q Hq.
  pose proof (Zdigits2_pos_pos m Hm) as Hd.
  assert (HE : e + n = fexp (Zdigits2 m + e)) by lia.
  destruct m as [|p|p]; try lia.
  pose proof (Zdigits2_bounds p) as [B1 B2].
  remember (Zdigits2 (Zpos p)) as d eqn:Hdd.
  destruct (Z_le_gt_dec emin (d + e - prec)) as [Hnorm|Hsub].
  - (* normal range *)
    assert (HEn : fexp (d + e) = d + e - prec) by (fx).
    assert (Hnd : n = d - prec) by lia.
    assert (Hdf : Zdigits2 (Zpos p / 2 ^ n) = prec).
    { rewrite Zdigits2_div_pow by lia. lia. }
    assert (Hf0 : 0 < Zpos p / 2 ^ n).
    { assert (0 <= Zpos p / 2 ^ n) by (apply Z.div_pos; [lia|apply pow2_pos; lia]).
      destruct (Zpos p / 2 ^ n) eqn:Ef; try lia. cbn in Hdf. lia. }
    destruct (Zpos p / 2 ^ n) as [|f|f] eqn:Ef; try lia.
    pose proof (Zdigits2_bounds f) as [F1 F2]. rewrite Hdf in F1, F2.
    destruct (Z.eq_dec q (2 ^ prec)) as [Hc|Hc].
    + right; right. split; auto. rewrite HE. apply fexp_ge_emin.
    + right; left. split; [lia|].
      assert (Hdq : Zdigits2 q = prec).
      { apply Zdigits2_unique; lia. }
      rewrite Hdq, HE, HEn. fx.
  - (* subnormal range *)
    assert (HEn : fexp (d + e) = emin) by (fx).
    assert (Hnd : n = emin - e) by lia.
    assert (Hfb : Zpos p / 2 ^ n < 2 ^ (prec - 1)).
    { apply Z.div_lt_upper_bound; [apply pow2_pos; lia|].
      rewrite <- Z.pow_add_r by lia.
      assert (2 ^ d <= 2 ^ (n + (prec - 1))) by (apply Z.pow_le_mono_r; lia). lia. }
    assert (Hf0 : 0 <= Zpos p / 2 ^ n) by (apply Z.div_pos; [lia|apply pow2_pos; lia]).
    destruct (Z.eq_dec q 0) as [Hq0|Hq0]; [left; auto|].
    right; left. split; [lia|].
    assert (Hdq : Zdigits2 q <= prec).
    { destruct (Z.eq_dec q (2 ^ (prec - 1))) as [Hc|Hc].
      - rewrite Hc, digits_pow2 by lia. lia.
      - assert (Zdigits2 q <= Zdigits2 (2 ^ (prec - 1) - 1)) by (apply Zdigits2_le; lia).
        assert (Zdigits2 (2 ^ (prec - 1) - 1) <= Zdigits2 (2 ^ (prec - 1))) by (apply Zdigits2_le; lia).
        rewrite digits_pow2 in * by lia. lia. }
    rewrite HE, HEn. fx.
Qed.

Lemma canonical_value_lt m e :
  canonical_mantissa prec emax m e = true ->
  Zdigits2 (Zpos m) <= prec /\ emin <= e /\
  (emin < e -> Zdigits2 (Zpos m) = prec).
Proof.
  unfold canonical_mantissa. intros H. apply Z.eqb_eq in H.
  change (Zpos (digits2_pos m)) with (Zdigits2 (Zpos m)) in H.
  fx.
Qed.

(** The second normalisation step and the overflow test. *)
Lemma round_finish s q E :
  0 <= q -> emin <= E -> canon_or_carry q E ->
  let r :=
    let '(mrs, e2) := shr_fexp prec emax q E loc_Exact in
    match shr_m mrs with
    | Z0 => S754_zero s
    | Zpos m => if e2 <=? emax - prec then S754_finite s m e2 else S754_infinity s
    | Zneg _ => S754_nan
    end in
  valid_binary prec emax r = true /\ not_nan r = true /\ sign_of r = s /\
  ordv r = cond_Zopp s (Z.min (q * 2 ^ (E - lo)) (2 ^ (emax - lo))).
Proof.
  intros Hq HE' Hc. unfold shr_fexp.
  pose proof emin_le_emax as Hee.
  assert (HE : lo <= E) by lia.
  assert (Hpos : 0 < 2 ^ (emax - lo)).
  { apply pow2_pos. lia. }
  destruct Hc as [Hz|[[Hq0 Hcan]|[Hcar HEm]]].
  - (* zero *)
    subst q. cbn [Zdigits2 Z.add].
    assert (Hn : SpecFloat.fexp prec emax E - E <= 0).
    { fx. }
    unfold shr. destruct (SpecFloat.fexp prec emax E - E) eqn:En; try lia;
      cbn [shr_record_of_loc shr_m]; cbn; repeat split; auto;
      rewrite Z.min_l by lia; destruct s; reflexivity.
  - (* canonical *)
    rewrite Hcan, Z.sub_diag. cbn [shr shr_record_of_loc shr_m].
    destruct q as [|m|m]; try lia.
    assert (Hcm : canonical_mantissa prec emax m E = true).
    { unfold canonical_mantissa. apply Z.eqb_eq. exact Hcan. }
    destruct (canonical_value_lt m E Hcm) as (D1 & D2 & D3).
    pose proof (Zdigits2_bounds m) as [B1 B2].
    pose proof (Zdigits2_pos_pos (Zpos m) ltac:(lia)) as Hd0.
    remember (Zdigits2 (Zpos m)) as d eqn:Hdd.
    destruct (Z.leb_spec E (emax - prec)) as [Hle|Hgt].
    + cbn [valid_binary not_nan sign_of ordv]. unfold bounded.
      rewrite Hcm. rewrite (proj2 (Z.leb_le _ _) Hle). repeat split; auto.
      f_equal. rewrite Z.min_l; auto.
      assert (2 ^ d * 2 ^ (E - lo) <= 2 ^ (emax - lo)).
      { rewrite <- Z.pow_add_r by lia. apply Z.pow_le_mono_r; lia. }
      assert (0 < 2 ^ (E - lo)) by (apply pow2_pos; lia). nia.
    + cbn [valid_binary not_nan sign_of ordv]. repeat split; auto.
      f_equal. rewrite Z.min_r; auto.
      assert (2 ^ (emax - lo) <= 2 ^ (d - 1) * 2 ^ (E - lo)).
      { rewrite <- Z.pow_add_r by lia. apply Z.pow_le_mono_r; lia. }
      assert (0 < 2 ^ (E - lo)) by (apply pow2_pos; lia). nia.
  - (* carry *)
    subst q. rewrite digits_pow2 by lia.
    assert (Hn : SpecFloat.fexp prec emax (prec + 1 + E) - E = 1).
    { fx. }
    rewrite Hn. cbn [shr iter_pos].
    rewrite shr_1_spec by (cbn; lia). cbn [shr_record_of_loc shr_m shr_r shr_s].
    assert (Hhalf : 2 ^ prec / 2 = 2 ^ (prec - 1)).
    { replace prec with (Z.succ (prec - 1)) at 1 by lia. rewrite Z.pow_succ_r by lia.
      rewrite Z.mul_comm, Z.div_mul by lia. reflexivity. }
    rewrite Hhalf.
    pose proof (pow2_pos (prec - 1) ltac:(lia)) as Hpp.
    destruct (2 ^ (prec - 1)) as [|m|m] eqn:Em; try lia.
    assert (Hdm : Zdigits2 (Zpos m) = prec).
    { rewrite <- Em, digits_pow2 by lia. lia. }
    assert (Hcm : canonical_mantissa prec emax m (E + 1) = true).
    { unfold canonical_mantissa. apply Z.eqb_eq.
      change (Zpos (digits2_pos m)) with (Zdigits2 (Zpos m)). rewrite Hdm.
      fx. }
    assert (Hval : 2 ^ prec * 2 ^ (E - lo) = Zpos m * 2 ^ (E + 1 - lo)).
    { rewrite <- Em, <- !Z.pow_add_r by lia. f_equal. lia. }
    destruct (Z.leb_spec (E + 1) (emax - prec)) as [Hle|Hgt].
    + cbn [valid_binary not_nan sign_of ordv]. unfold bounded.
      rewrite Hcm. rewrite (proj2 (Z.leb_le _ _) Hle). repeat split; auto.
      f_equal. rewrite Z.min_l; [symmetry; exact Hval|].
      rewrite <- Z.pow_add_r by lia. apply Z.pow_le_mono_r; lia.
    + cbn [valid_binary not_nan sign_of ordv]. repeat split; auto.
      f_equal. rewrite Z.min_r; auto.
      rewrite <- Z.pow_add_r by lia. apply Z.pow_le_mono_r; lia.
Qed.


Lemma binary_round_aux_spec s m e l X k :
  0 < m -> 0 <= X -> shr_inv X k (shr_record_of_loc m l) ->
  lo <= e - k ->
  e <= fexp (Zdigits2 m + e) ->
  let r := binary_round_aux prec emax s m e l in
  valid_binary prec emax r = true /\ not_nan r = true /\ sign_of r = s /\
  ordv r = cond_Zopp s (RNDc (X * 2 ^ (e - k - lo))).
Proof.
  intros Hm HX Hinv Hlo' Hpre r. subst r.
  pose proof (shr_inv_k _ _ _ Hinv) as Hk.
  assert (Hmx : m = X / 2 ^ k).
  { rewrite <- (shr_inv_m _ _ _ Hinv). destruct l as [|[]]; reflexivity. }
  set (n := fexp (Zdigits2 m + e) - e).
  assert (Hn : 0 <= n) by (unfold n; lia).
  destruct (shr_inv_shr X k _ e n HX Hinv) as [Hinv' He'].
  rewrite Z.max_r in Hinv', He' by lia.
  set (q := rne_div X (k + n)).
  assert (Heq : binary_round_aux prec emax s m e l =
                let '(mrs, e2) := shr_fexp prec emax q (e + n) loc_Exact in
                match shr_m mrs with
                | Z0 => S754_zero s
                | Zpos m => if e2 <=? emax - prec then S754_finite s m e2
                            else S754_infinity s
                | Zneg _ => S754_nan
                end).
  { unfold binary_round_aux. unfold shr_fexp at 1. fold n.
    rewrite (surjective_pairing (shr (shr_record_of_loc m l) e n)).
    rewrite He'. rewrite (round_shr_inv X (k + n) _ HX Hinv'). reflexivity. }
  rewrite Heq. clear Heq.
  assert (Hq0 : 0 <= q) by (apply rne_div_nonneg; lia).
  assert (Hqb : m / 2 ^ n <= q <= m / 2 ^ n + 1).
  { pose proof (rne_div_bounds X (k + n) ltac:(lia)) as Hb. fold q in Hb.
    rewrite Z.pow_add_r in Hb by lia.
    rewrite <- Z.div_div in Hb by (pose proof (pow2_pos k Hk); pose proof (pow2_pos n Hn); lia).
    rewrite <- Hmx in Hb. exact Hb. }
  assert (Hshape : canon_or_carry q (e + n)).
  { apply (round_shape m e n); auto. }
  assert (HE : emin <= e + n).
  { unfold n. replace (e + (fexp (Zdigits2 m + e) - e)) with (fexp (Zdigits2 m + e)) by lia.
    apply fexp_ge_emin. }
  pose proof (round_finish s q (e + n) Hq0 HE Hshape) as Hfin.
  cbv zeta in Hfin.
  destruct Hfin as (F1 & F2 & F3 & F4).
  repeat split; auto.
  rewrite F4. f_equal. unfold FS.RNDc. f_equal.
  (* the mathematical rounding of the scaled value *)
  unfold FS.RND.
  assert (HXpos : 0 < X).
  { destruct (Z.eq_dec X 0) as [->|]; [|lia]. rewrite Z.div_0_l in Hmx; [lia|].
    pose proof (pow2_pos k Hk). lia. }
  assert (HdX : Zdigits2 X = Zdigits2 m + k).
  { destruct (Z_lt_le_dec k (Zdigits2 X)) as [Hlt|Hge].
    - rewrite Hmx, Zdigits2_div_pow by lia. lia.
    - rewrite (div_small_digits X k) in Hmx by lia. lia. }
  rewrite Zdigits2_mul_pow by lia.
  replace (Zdigits2 X + (e - k - lo) + lo) with (Zdigits2 m + e) by lia.
  replace (fexp (Zdigits2 m + e) - lo) with ((k + n) + (e - k - lo)) by (unfold n; lia).
  rewrite rne_div_scale by lia. unfold q. f_equal. f_equal. lia.
Qed.

Lemma iter_xO mx d : Zpos (Pos.iter xO mx d) = Zpos mx * 2 ^ Zpos d.
Proof.
  induction d using Pos.peano_ind.
  - simpl. lia.
  - rewrite Pos.iter_succ, Pos2Z.inj_xO, IHd, Pos2Z.inj_succ, Z.pow_succ_r by lia. ring.
Qed.

Lemma shl_align_spec mx ex ex' :
  let mz := fst (shl_align mx ex ex') in
  let ez := snd (shl_align mx ex ex') in
  ez = Z.min ex ex' /\ Zpos mz = Zpos mx * 2 ^ (ex - ez).
Proof.
  unfold shl_align. destruct (ex' - ex) as [|d|d] eqn:E; cbn [fst snd].
  - split; [lia|]. rewrite Z.sub_diag. simpl. lia.
  - split; [lia|]. rewrite Z.sub_diag. simpl. lia.
  - split; [lia|]. rewrite iter_xO. f_equal. f_equal. lia.
Qed.

Lemma binary_round_spec s mx ex :
  lo <= ex ->
  let r := binary_round prec emax s mx ex in
  valid_binary prec emax r = true /\ not_nan r = true /\ sign_of r = s /\
  ordv r = cond_Zopp s (RNDc (Zpos mx * 2 ^ (ex - lo))).
Proof.
  intros Hex r. subst r. unfold binary_round.
  change (Zpos (digits2_pos mx)) with (Zdigits2 (Zpos mx)).
  set (E := fexp (Zdigits2 (Zpos mx) + ex)).
  destruct (shl_align_spec mx ex E) as [Hez Hmz].
  rewrite (surjective_pairing (shl_align mx ex E)).
  set (mz := fst (shl_align mx ex E)) in *.
  set (ez := snd (shl_align mx ex E)) in *.
  clearbody mz ez.
  pose proof (fexp_ge_emin (Zdigits2 (Zpos mx) + ex)) as HEm. fold E in HEm.
  assert (Hdz : Zdigits2 (Zpos mz) + ez = Zdigits2 (Zpos mx) + ex).
  { rewrite Hmz, Zdigits2_mul_pow by lia. lia. }
  pose proof (binary_round_aux_spec s (Zpos mz) ez loc_Exact (Zpos mz) 0
                ltac:(lia) ltac:(lia) (shr_inv_exact _) ltac:(lia)) as H.
  rewrite Hdz in H. fold E in H. specialize (H ltac:(lia)). cbv zeta in H.
  destruct H as (H1 & H2 & H3 & H4). repeat split; auto.
  rewrite H4. f_equal. f_equal.
  rewrite Hmz, <- Z.mul_assoc, <- Z.pow_add_r by lia. f_equal. f_equal. lia.
Qed.

Lemma RND_0 : RND 0 = 0.
Proof.
  unfold FS.RND. cbn [Zdigits2 Z.add].
  unfold rne_div. rewrite Z.div_0_l, Z.mod_0_l.
  - rewrite Z.mul_0_r.
    pose proof (fexp_ge_emin lo).
    assert (0 < 2 ^ (fexp lo - lo)) by (apply pow2_pos; lia).
    destruct (Z.compare_spec 0 (2 ^ (fexp lo - lo))); lia.
  - pose proof (fexp_ge_emin lo).
    assert (0 < 2 ^ (fexp lo - lo)) by (apply pow2_pos; lia). lia.
  - pose proof (fexp_ge_emin lo).
    assert (0 < 2 ^ (fexp lo - lo)) by (apply pow2_pos; lia). lia.
Qed.

Lemma RNDs_0 : RNDs 0 = 0.
Proof.
  unfold FS.RNDs, FS.RNDc. simpl. rewrite RND_0.
  pose proof emin_le_emax.
  assert (0 < 2 ^ (emax - lo)) by (apply pow2_pos; lia). lia.
Qed.

Lemma binary_normalize_spec m e sz :
  lo <= e ->
  let r := binary_normalize prec emax m e sz in
  valid_binary prec emax r = true /\ not_nan r = true /\
  ordv r = RNDs (m * 2 ^ (e - lo)).
Proof.
  intros He r. subst r. assert (0 < 2 ^ (e - lo)) by (apply pow2_pos; lia).
  destruct m as [|p|p]; cbn [binary_normalize].
  - rewrite Z.mul_0_l, RNDs_0. repeat split; auto.
  - destruct (binary_round_spec false p e He) as (H1 & H2 & H3 & H4).
    repeat split; auto. rewrite H4. unfold FS.RNDs.
    destruct (Z.ltb_spec (Zpos p * 2 ^ (e - lo)) 0); [lia|reflexivity].
  - destruct (binary_round_spec true p e He) as (H1 & H2 & H3 & H4).
    repeat split; auto. rewrite H4. unfold FS.RNDs.
    destruct (Z.ltb_spec (Zneg p * 2 ^ (e - lo)) 0); [|lia].
    cbn [cond_Zopp]. f_equal. f_equal. lia.
Qed.

(** ** Monotonicity of rounding *)

Lemma RND_shift_nonneg Y : 0 <= fexp (Zdigits2 Y + lo) - lo.
Proof. pose proof (fexp_ge_emin (Zdigits2 Y + lo)). lia. Qed.

Lemma RND_mono Y1 Y2 : 0 <= Y1 <= Y2 -> RND Y1 <= RND Y2.
Proof.
  intros [H1 H12]. unfold FS.RND.
  pose proof (RND_shift_nonneg Y1) as Hn1. pose proof (RND_shift_nonneg Y2) as Hn2.
  pose proof (Zdigits2_le Y1 Y2 ltac:(lia)) as Hd.
  pose proof (fexp_mono (Zdigits2 Y1 + lo) (Zdigits2 Y2 + lo) ltac:(lia)) as Hf.
  remember (Zdigits2 Y1) as d1 eqn:Hd1. remember (Zdigits2 Y2) as d2 eqn:Hd2.
  remember (fexp (d1 + lo) - lo) as n1 eqn:En1.
  remember (fexp (d2 + lo) - lo) as n2 eqn:En2.
  destruct (Z.eq_dec n1 n2) as [Heq|Hne].
  - rewrite <- Heq. apply Z.mul_le_mono_nonneg_r; [pose proof (pow2_pos n1 Hn1); lia|].
    apply rne_div_mono; lia.
  - assert (Hlt : n1 < n2) by lia.
    assert (Hn2' : n2 = d2 - prec) by fx.
    assert (Hd12 : d1 < d2) by fx.
    assert (Hd1nn : 0 <= d1) by (subst d1; apply Zdigits2_nonneg).
    assert (HY1 : Y1 < 2 ^ d1).
    { destruct Y1 as [|p|p]; [apply pow2_pos; lia| |lia].
      subst d1. apply Zdigits2_bounds. }
    assert (HY2 : 2 ^ (d2 - 1) <= Y2).
    { destruct Y2 as [|p|p]; [cbn in Hd2; lia| |lia].
      subst d2. apply Zdigits2_bounds. }
    assert (HB : 2 ^ d1 <= 2 ^ (d2 - 1)) by (apply Z.pow_le_mono_r; lia).
    apply Z.le_trans with (2 ^ (d2 - 1)).
    + replace (2 ^ (d2 - 1)) with (2 ^ (d2 - 1 - n1) * 2 ^ n1)
        by (rewrite <- Z.pow_add_r by lia; f_equal; lia).
      apply Z.mul_le_mono_nonneg_r; [pose proof (pow2_pos n1 Hn1); lia|].
      rewrite <- (rne_div_exact (2 ^ (d2 - 1 - n1)) n1) by lia.
      apply rne_div_mono; [lia|].
      rewrite <- Z.pow_add_r by lia. replace (d2 - 1 - n1 + n1) with (d2 - 1) by lia. lia.
    + replace (2 ^ (d2 - 1)) with (2 ^ (d2 - 1 - n2) * 2 ^ n2)
        by (rewrite <- Z.pow_add_r by lia; f_equal; lia).
      apply Z.mul_le_mono_nonneg_r; [pose proof (pow2_pos n2 Hn2); lia|].
      rewrite <- (rne_div_exact (2 ^ (d2 - 1 - n2)) n2) at 1 by lia.
      apply rne_div_mono; [lia|].
      rewrite <- Z.pow_add_r by lia. replace (d2 - 1 - n2 + n2) with (d2 - 1) by lia. lia.
Qed.

Lemma RND_nonneg Y : 0 <= Y -> 0 <= RND Y.
Proof. intros. rewrite <- RND_0. apply RND_mono. lia. Qed.

Lemma RNDc_mono Y1 Y2 : 0 <= Y1 <= Y2 -> RNDc Y1 <= RNDc Y2.
Proof. intros H. unfold FS.RNDc. pose proof (RND_mono Y1 Y2 H). lia. Qed.

Lemma RNDc_nonneg Y : 0 <= Y -> 0 <= RNDc Y.
Proof.
  intros H. unfold FS.RNDc. pose proof (RND_nonneg Y H).
  pose proof emin_le_emax.
  assert (0 < 2 ^ (emax - lo)) by (apply pow2_pos; lia). lia.
Qed.

Lemma RNDs_mono V1 V2 : V1 <= V2 -> RNDs V1 <= RNDs V2.
Proof.
  intros H. unfold FS.RNDs.
  destruct (Z.ltb_spec V1 0), (Z.ltb_spec V2 0); try lia.
  - pose proof (RNDc_mono (- V2) (- V1) ltac:(lia)). lia.
  - pose proof (RNDc_nonneg (- V1) ltac:(lia)). pose proof (RNDc_nonneg V2 ltac:(lia)). lia.
  - apply RNDc_mono. lia.
Qed.

Lemma RNDs_nonneg V : 0 <= V -> 0 <= RNDs V.
Proof. intros. rewrite <- RNDs_0. apply RNDs_mono. lia. Qed.

Lemma bounded_inv m e :
  bounded prec emax m e = true ->
  canonical_mantissa prec emax m e = true /\ e <= emax - prec.
Proof.
  unfold bounded. intros H. apply andb_true_iff in H. destruct H as [H1 H2].
  split; auto. apply Z.leb_le. exact H2.
Qed.

(** Bounds on the scaled value of a valid finite float. *)
Lemma finite_value_bounds m e :
  bounded prec emax m e = true ->
  lo <= e /\ 0 < Zpos m * 2 ^ (e - lo) < 2 ^ (emax - lo).
Proof.
  intros H. destruct (bounded_inv m e H) as [Hc He].
  destruct (canonical_value_lt m e Hc) as (D1 & D2 & D3).
  pose proof (Zdigits2_bounds m) as [B1 B2].
  pose proof (Zdigits2_pos_pos (Zpos m) ltac:(lia)) as Hd0.
  remember (Zdigits2 (Zpos m)) as d eqn:Hdd.
  assert (He' : lo <= e) by lia.
  assert (0 < 2 ^ (e - lo)) by (apply pow2_pos; lia).
  assert (2 ^ d * 2 ^ (e - lo) <= 2 ^ (emax - lo)).
  { rewrite <- Z.pow_add_r by lia. apply Z.pow_le_mono_r; lia. }
  split; [lia|]. split; nia.
Qed.

Lemma pow_emax_pos : 0 < 2 ^ (emax - lo).
Proof. pose proof emin_le_emax. apply pow2_pos. lia. Qed.

Lemma ordv_bound x : good x -> - 2 ^ (emax - lo) <= ordv x <= 2 ^ (emax - lo).
Proof.
  intros [Hv Hn]. pose proof pow_emax_pos.
  destruct x as [s|s|?|s m e]; cbn [FS.ordv]; try (destruct s; cbn [cond_Zopp]; lia).
  - lia.
  - cbn in Hv. pose proof (finite_value_bounds m e Hv). destruct s; cbn [cond_Zopp]; lia.
Qed.

Lemma ordv_finite_bound x : good x -> finite x = true ->
  - 2 ^ (emax - lo) < ordv x < 2 ^ (emax - lo).
Proof.
  intros [Hv Hn] Hf. pose proof pow_emax_pos.
  destruct x as [s|s|?|s m e]; cbn [FS.ordv]; try discriminate; try lia.
  cbn in Hv. pose proof (finite_value_bounds m e Hv). destruct s; cbn [cond_Zopp]; lia.
Qed.

Lemma ordv_sign_nonneg x : sign_of x = false -> 0 <= ordv x.
Proof.
  pose proof pow_emax_pos.
  destruct x as [s|s|?|s m e]; cbn [sign_of FS.ordv]; intros; subst; cbn [cond_Zopp]; try lia.
  all: assert (0 <= 2 ^ (e - lo)) by (apply Z.pow_nonneg; lia); nia.
Qed.

(** Among valid floats the exponent decides the order first. *)
Lemma canonical_lt m1 e1 m2 e2 :
  bounded prec emax m1 e1 = true -> bounded prec emax m2 e2 = true ->
  e1 < e2 -> Zpos m1 * 2 ^ (e1 - lo) < Zpos m2 * 2 ^ (e2 - lo).
Proof.
  intros H1 H2 Hlt.
  destruct (bounded_inv _ _ H1) as [Hc1 _]. destruct (bounded_inv _ _ H2) as [Hc2 _].
  destruct (canonical_value_lt m1 e1 Hc1) as (D1 & D2 & D3).
  destruct (canonical_value_lt m2 e2 Hc2) as (E1 & E2 & E3).
  pose proof (Zdigits2_bounds m1) as [B1 B2].
  pose proof (Zdigits2_bounds m2) as [C1 C2].
  pose proof (Zdigits2_pos_pos (Zpos m1) ltac:(lia)) as Hd1.
  remember (Zdigits2 (Zpos m1)) as d1. remember (Zdigits2 (Zpos m2)) as d2.
  assert (Hd2 : d2 = prec) by lia.
  assert (0 < 2 ^ (e1 - lo)) by (apply pow2_pos; lia).
  assert (0 < 2 ^ (e2 - lo)) by (apply pow2_pos; lia).
  assert (2 ^ d1 * 2 ^ (e1 - lo) <= 2 ^ (d2 - 1) * 2 ^ (e2 - lo)).
  { rewrite <- !Z.pow_add_r by lia. apply Z.pow_le_mono_r; lia. }
  nia.
Qed.

Lemma SFcompare_spec x y : good x -> good y ->
  SFcompare x y = Some (ordv x ?= ordv y).
Proof.
  intros [Hvx Hnx] [Hvy Hny].
  pose proof pow_emax_pos as Hpe.
  destruct x as [sx|sx|?|sx mx ex]; try discriminate;
  destruct y as [sy|sy|?|sy my ey]; try discriminate;
  cbn [SFcompare FS.ordv].
  - reflexivity.
  - destruct sy; cbn [cond_Zopp]; f_equal; symmetry;
      [apply Z.compare_gt_iff|apply Z.compare_lt_iff]; lia.
  - cbn in Hvy. pose proof (finite_value_bounds my ey Hvy).
    destruct sy; cbn [cond_Zopp]; f_equal; symmetry;
      [apply Z.compare_gt_iff|apply Z.compare_lt_iff]; lia.
  - destruct sx; cbn [cond_Zopp]; f_equal; symmetry;
      [apply Z.compare_lt_iff|apply Z.compare_gt_iff]; lia.
  - destruct sx, sy; cbn [cond_Zopp]; f_equal; symmetry;
      try apply Z.compare_refl; [apply Z.compare_lt_iff|apply Z.compare_gt_iff]; lia.
  - cbn in Hvy. pose proof (finite_value_bounds my ey Hvy).
    destruct sx; cbn [cond_Zopp]; f_equal; symmetry;
      [apply Z.compare_lt_iff|apply Z.compare_gt_iff];
      destruct sy; cbn [cond_Zopp]; lia.
  - cbn in Hvx. pose proof (finite_value_bounds mx ex Hvx).
    destruct sx; cbn [cond_Zopp]; f_equal; symmetry;
      [apply Z.compare_lt_iff|apply Z.compare_gt_iff]; lia.
  - cbn in Hvx. pose proof (finite_value_bounds mx ex Hvx).
    destruct sy; cbn [cond_Zopp]; f_equal; symmetry;
      [apply Z.compare_gt_iff|apply Z.compare_lt_iff];
      destruct sx; cbn [cond_Zopp]; lia.
  - cbn in Hvx, Hvy.
    pose proof (finite_value_bounds mx ex Hvx) as Bx.
    pose proof (finite_value_bounds my ey Hvy) as By.
    assert (Heq : ex = ey ->
              Pos.compare_cont Eq mx my
              = (Zpos mx * 2 ^ (ex - lo) ?= Zpos my * 2 ^ (ey - lo))).
    { intros ->. change (Pos.compare_cont Eq mx my) with (Zpos mx ?= Zpos my).
      apply Zmult_compare_compat_r. lia. }
    destruct sx, sy; cbn [cond_Zopp]; f_equal.
    + destruct (Z.compare_spec ex ey) as [E|E|E].
      * rewrite (Heq E). rewrite Z.compare_opp.
        symmetry. apply Z.compare_antisym.
      * pose proof (canonical_lt _ _ _ _ Hvx Hvy E).
        symmetry. apply Z.compare_gt_iff. lia.
      * pose proof (canonical_lt _ _ _ _ Hvy Hvx E).
        symmetry. apply Z.compare_lt_iff. lia.
    + symmetry. apply Z.compare_lt_iff. lia.
    + symmetry. apply Z.compare_gt_iff. lia.
    + destruct (Z.compare_spec ex ey) as [E|E|E].
      * apply Heq; auto.
      * pose proof (canonical_lt _ _ _ _ Hvx Hvy E).
        symmetry. apply Z.compare_lt_iff. lia.
      * pose proof (canonical_lt _ _ _ _ Hvy Hvx E).
        symmetry. apply Z.compare_gt_iff. lia.
Qed.

Lemma SFleb_spec x y : good x -> good y -> SFleb x y = (ordv x <=? ordv y).
Proof.
  intros Hx Hy. unfold SFleb. rewrite (SFcompare_spec x y Hx Hy).
  unfold Z.leb. destruct (ordv x ?= ordv y); reflexivity.
Qed.

Lemma SFltb_spec x y : good x -> good y -> SFltb x y = (ordv x <? ordv y).
Proof.
  intros Hx Hy. unfold SFltb. rewrite (SFcompare_spec x y Hx Hy).
  unfold Z.ltb. destruct (ordv x ?= ordv y); reflexivity.
Qed.

(** Representable values are fixed points of the rounding. *)
Lemma RND_canonical m e :
  bounded prec emax m e = true ->
  RNDc (Zpos m * 2 ^ (e - lo)) = Zpos m * 2 ^ (e - lo).
Proof.
  intros H. destruct (bounded_inv m e H) as [Hc He].
  destruct (finite_value_bounds m e H) as [Hle Hb].
  unfold FS.RNDc, FS.RND.
  rewrite Zdigits2_mul_pow by lia.
  replace (Zdigits2 (Zpos m) + (e - lo) + lo) with (Zdigits2 (Zpos m) + e) by lia.
  unfold canonical_mantissa in Hc. apply Z.eqb_eq in Hc.
  change (Zpos (digits2_pos m)) with (Zdigits2 (Zpos m)) in Hc.
  rewrite Hc. rewrite rne_div_exact by lia. lia.
Qed.

Lemma RNDc_pow_emax : RNDc (2 ^ (emax - lo)) = 2 ^ (emax - lo).
Proof.
  pose proof pow_emax_pos. pose proof emin_le_emax.
  unfold FS.RNDc, FS.RND.
  rewrite digits_pow2 by lia.
  replace (fexp (emax - lo + 1 + lo) - lo) with (emax + 1 - prec - lo) by fx.
  replace (2 ^ (emax - lo)) with (2 ^ (prec - 1) * 2 ^ (emax + 1 - prec - lo)) at 1
    by (rewrite <- Z.pow_add_r by lia; f_equal; lia).
  rewrite rne_div_exact by lia.
  rewrite <- Z.pow_add_r by lia.
  replace (prec - 1 + (emax + 1 - prec - lo)) with (emax - lo) by lia. lia.
Qed.

Lemma RNDs_opp V : RNDs (- V) = - RNDs V.
Proof.
  unfold FS.RNDs. destruct (Z.ltb_spec (- V) 0), (Z.ltb_spec V 0); try lia.
  - rewrite Z.opp_involutive. reflexivity.
  - assert (V = 0) by lia. subst V. cbn [Z.opp].
    pose proof RND_0 as HR0.
    unfold FS.RNDc. rewrite HR0. pose proof pow_emax_pos. lia.
Qed.

Lemma RNDs_ordv x : good x -> RNDs (ordv x) = ordv x.
Proof.
  intros [Hv Hn]. pose proof pow_emax_pos as Hpe.
  assert (Hpos : forall V, 0 < V -> RNDs V = RNDc V).
  { intros V HV. unfold FS.RNDs. destruct (Z.ltb_spec V 0); [lia|reflexivity]. }
  assert (Hneg : forall V, 0 < V -> RNDs (- V) = - RNDc V).
  { intros V HV. rewrite RNDs_opp, Hpos by lia. reflexivity. }
  destruct x as [s|s|?|s m e]; try discriminate; cbn [FS.ordv].
  - apply RNDs_0.
  - destruct s; cbn [cond_Zopp]; rewrite ?Hneg, ?Hpos by lia; rewrite RNDc_pow_emax; reflexivity.
  - cbn in Hv. pose proof (finite_value_bounds m e Hv) as [_ Hb].
    destruct s; cbn [cond_Zopp]; rewrite ?Hneg, ?Hpos by lia;
      rewrite (RND_canonical m e Hv); reflexivity.
Qed.

(** ** The operations on valid finite values *)

Lemma emin_nonpos : emin <= 0.
Proof. fx. Qed.

Lemma finite_of_bound x : good x ->
  - 2 ^ (emax - lo) < ordv x < 2 ^ (emax - lo) -> finite x = true.
Proof.
  intros [Hv Hn] Hb. destruct x as [s|s|?|s m e]; auto; try discriminate.
  cbn [FS.ordv] in Hb. destruct s; cbn [cond_Zopp] in Hb; lia.
Qed.

Lemma RNDs_pos V : 0 <= V -> RNDs V = RNDc V.
Proof. intros HV. unfold FS.RNDs. destruct (Z.ltb_spec V 0); [lia|reflexivity]. Qed.

Lemma RNDs_cond_Zopp s V : 0 <= V -> RNDs (cond_Zopp s V) = cond_Zopp s (RNDc V).
Proof.
  intros HV. destruct s; cbn [cond_Zopp].
  - rewrite RNDs_opp, RNDs_pos by lia. reflexivity.
  - apply RNDs_pos; lia.
Qed.

Lemma RND_pow2 j : emin - lo <= j -> RND (2 ^ j) = 2 ^ j.
Proof.
  intros Hj. unfold FS.RND. rewrite digits_pow2 by lia.
  set (n := fexp (j + 1 + lo) - lo).
  assert (Hn : 0 <= n <= j) by (unfold n; fx).
  replace (2 ^ j) with (2 ^ (j - n) * 2 ^ n) at 1
    by (rewrite <- Z.pow_add_r by lia; f_equal; lia).
  rewrite rne_div_exact by lia.
  rewrite <- Z.pow_add_r by lia. f_equal. lia.
Qed.

Lemma RNDs_pow2 j : emin - lo <= j <= emax - lo -> RNDs (2 ^ j) = 2 ^ j.
Proof.
  intros Hj. assert (0 < 2 ^ j) by (apply pow2_pos; lia).
  rewrite RNDs_pos by lia. unfold FS.RNDc. rewrite RND_pow2 by lia.
  assert (2 ^ j <= 2 ^ (emax - lo)) by (apply Z.pow_le_mono_r; lia). lia.
Qed.

Lemma of_Z_spec z :
  let r := binary_normalize prec emax z 0 false in
  good r /\ ordv r = RNDs (z * 2 ^ (- lo)).
Proof.
  pose proof emin_nonpos.
  destruct (binary_normalize_spec z 0 false ltac:(lia)) as (H1 & H2 & H3).
  cbv zeta. split; [split; auto|]. rewrite H3. f_equal.
Qed.

Lemma Zdigits2_mul_ge a b :
  Zdigits2 (Zpos a) + Zdigits2 (Zpos b) - 1 <= Zdigits2 (Zpos (a * b)).
Proof.
  pose proof (Zdigits2_bounds a) as [A1 A2]. pose proof (Zdigits2_bounds b) as [B1 B2].
  pose proof (Zdigits2_pos_pos (Zpos a) ltac:(lia)) as Ha.
  pose proof (Zdigits2_pos_pos (Zpos b) ltac:(lia)) as Hb.
  remember (Zdigits2 (Zpos a)) as da. remember (Zdigits2 (Zpos b)) as db.
  assert (Hp : 2 ^ (da + db - 2) <= Zpos (a * b)).
  { rewrite Pos2Z.inj_mul. replace (da + db - 2) with ((da - 1) + (db - 1)) by lia.
    rewrite Z.pow_add_r by lia.
    assert (0 < 2 ^ (da - 1)) by (apply pow2_pos; lia).
    assert (0 < 2 ^ (db - 1)) by (apply pow2_pos; lia). nia. }
  assert (Hd : Zdigits2 (2 ^ (da + db - 2)) <= Zdigits2 (Zpos (a * b))).
  { apply Zdigits2_le. split; [|exact Hp]. apply Z.pow_nonneg. lia. }
  rewrite digits_pow2 in Hd by lia. lia.
Qed.

Lemma exact_div_cond_Zopp s V P : 0 < P -> cond_Zopp s (V * P) / P = cond_Zopp s V.
Proof.
  intros HP. destruct s; cbn [cond_Zopp].
  - rewrite <- Z.mul_opp_l. apply Z.div_mul. lia.
  - apply Z.div_mul. lia.
Qed.

Lemma SFmul_spec x y :
  lo <= 2 * emin ->
  good x -> good y -> finite x = true -> finite y = true ->
  good (SFmul prec emax x y) /\
  ordv (SFmul prec emax x y) = RNDs (ordv x * ordv y / 2 ^ (- lo)).
Proof.
  intros Hlo2 [Hvx Hnx] [Hvy Hny] Hfx Hfy.
  pose proof emin_nonpos as He0.
  assert (HP : 0 < 2 ^ (- lo)) by (apply pow2_pos; lia).
  destruct x as [sx|sx|?|sx mx ex]; try discriminate;
  destruct y as [sy|sy|?|sy my ey]; try discriminate;
  cbn [SFmul FS.ordv]; rewrite ?Z.mul_0_l, ?Z.mul_0_r, ?Z.div_0_l by lia;
  try (rewrite RNDs_0; repeat split; reflexivity).
  cbn in Hvx, Hvy.
  destruct (bounded_inv _ _ Hvx) as [Hcx _]. destruct (bounded_inv _ _ Hvy) as [Hcy _].
  destruct (canonical_value_lt mx ex Hcx) as (D1 & D2 & D3).
  destruct (canonical_value_lt my ey Hcy) as (E1 & E2 & E3).
  pose proof (Zdigits2_mul_ge mx my) as Hdm.
  pose proof (Zdigits2_pos_pos (Zpos mx) ltac:(lia)) as Hdx.
  pose proof (Zdigits2_pos_pos (Zpos my) ltac:(lia)) as Hdy.
  assert (Hpre : ex + ey <= fexp (Zdigits2 (Zpos (mx * my)) + (ex + ey))).
  { remember (Zdigits2 (Zpos mx)) as dx. remember (Zdigits2 (Zpos my)) as dy.
    remember (Zdigits2 (Zpos (mx * my))) as dm.
    rewrite fexp_unfold, emin_unfold in *. lia. }
  destruct (binary_round_aux_spec (xorb sx sy) (Zpos (mx * my)) (ex + ey) loc_Exact
              (Zpos (mx * my)) 0 ltac:(lia) ltac:(lia) (shr_inv_exact _) ltac:(lia) Hpre)
    as (H1 & H2 & H3 & H4).
  split; [split; auto|]. rewrite H4.
  replace (ex + ey - 0 - lo) with (ex + ey - lo) by lia.
  assert (Hprod : cond_Zopp sx (Zpos mx * 2 ^ (ex - lo)) * cond_Zopp sy (Zpos my * 2 ^ (ey - lo))
                  = cond_Zopp (xorb sx sy) (Zpos (mx * my) * 2 ^ (ex + ey - lo) * 2 ^ (- lo))).
  { rewrite Pos2Z.inj_mul.
    assert (Hpw : 2 ^ (ex - lo) * 2 ^ (ey - lo) = 2 ^ (ex + ey - lo) * 2 ^ (- lo)).
    { rewrite <- !Z.pow_add_r by lia. f_equal. lia. }
    destruct sx, sy; cbn [cond_Zopp xorb]; nia. }
  rewrite Hprod, exact_div_cond_Zopp by lia.
  rewrite RNDs_cond_Zopp; [reflexivity|].
  assert (0 <= 2 ^ (ex + ey - lo)) by (apply Z.pow_nonneg; lia). nia.
Qed.

Lemma align_value mx ex ez : ez <= ex -> lo <= ez ->
  Zpos (fst (shl_align mx ex ez)) * 2 ^ (ez - lo) = Zpos mx * 2 ^ (ex - lo).
Proof.
  intros H1 H2. destruct (shl_align_spec mx ex ez) as [Hez Hmz].
  rewrite Hmz, Hez. rewrite Z.min_r by lia.
  rewrite <- Z.mul_assoc, <- Z.pow_add_r by lia. f_equal. f_equal. lia.
Qed.

Lemma SFadd_spec x y :
  good x -> good y -> finite x = true -> finite y = true ->
  good (SFadd prec emax x y) /\
  ordv (SFadd prec emax x y) = RNDs (ordv x + ordv y).
Proof.
  intros Hx Hy Hfx Hfy.
  pose proof (RNDs_ordv x Hx) as Rx. pose proof (RNDs_ordv y Hy) as Ry.
  destruct x as [sx|sx|?|sx mx ex]; try discriminate;
  destruct y as [sy|sy|?|sy my ey]; try discriminate.
  - cbn [FS.ordv]. rewrite Z.add_0_r, RNDs_0.
    destruct sx, sy; cbn; repeat split; reflexivity.
  - cbn [SFadd]. split; [exact Hy|]. symmetry. exact Ry.
  - cbn [SFadd]. split; [exact Hx|]. cbn [FS.ordv] in *. rewrite Z.add_0_r, Rx. reflexivity.
  - cbn [SFadd]. destruct Hx as [Hvx _], Hy as [Hvy _]. cbn in Hvx, Hvy.
    pose proof (finite_value_bounds mx ex Hvx) as [Lx _].
    pose proof (finite_value_bounds my ey Hvy) as [Ly _].
    set (ez := Z.min ex ey).
    destruct (binary_normalize_spec
                (cond_Zopp sx (Zpos (fst (shl_align mx ex ez)))
                 + cond_Zopp sy (Zpos (fst (shl_align my ey ez)))) ez false
                ltac:(unfold ez; lia)) as (H1 & H2 & H3).
    split; [split; auto|]. rewrite H3. f_equal. cbn [FS.ordv].
    pose proof (align_value mx ex ez ltac:(unfold ez; lia) ltac:(unfold ez; lia)) as Ax.
    pose proof (align_value my ey ez ltac:(unfold ez; lia) ltac:(unfold ez; lia)) as Ay.
    rewrite <- Ax, <- Ay. destruct sx, sy; cbn [cond_Zopp]; ring.
Qed.

Lemma SFsub_spec x y :
  good x -> good y -> finite x = true -> finite y = true ->
  good (SFsub prec emax x y) /\
  ordv (SFsub prec emax x y) = RNDs (ordv x - ordv y).
Proof.
  intros Hx Hy Hfx Hfy.
  pose proof (RNDs_ordv x Hx) as Rx. pose proof (RNDs_ordv y Hy) as Ry.
  destruct x as [sx|sx|?|sx mx ex]; try discriminate;
  destruct y as [sy|sy|?|sy my ey]; try discriminate.
  - cbn [FS.ordv]. rewrite Z.sub_0_r, RNDs_0.
    destruct sx, sy; cbn; repeat split; reflexivity.
  - cbn [SFsub]. split.
    + destruct Hy as [Hvy Hny]. split; auto.
    + cbn [FS.ordv] in *. rewrite Z.sub_0_l, RNDs_opp, Ry.
      destruct sy; cbn [negb cond_Zopp]; lia.
  - cbn [SFsub]. split; [exact Hx|]. cbn [FS.ordv] in *. rewrite Z.sub_0_r, Rx. reflexivity.
  - cbn [SFsub]. destruct Hx as [Hvx _], Hy as [Hvy _]. cbn in Hvx, Hvy.
    pose proof (finite_value_bounds mx ex Hvx) as [Lx _].
    pose proof (finite_value_bounds my ey Hvy) as [Ly _].
    set (ez := Z.min ex ey).
    destruct (binary_normalize_spec
                (cond_Zopp sx (Zpos (fst (shl_align mx ex ez)))
                 - cond_Zopp sy (Zpos (fst (shl_align my ey ez)))) ez false
                ltac:(unfold ez; lia)) as (H1 & H2 & H3).
    split; [split; auto|]. rewrite H3. f_equal. cbn [FS.ordv].
    pose proof (align_value mx ex ez ltac:(unfold ez; lia) ltac:(unfold ez; lia)) as Ax.
    pose proof (align_value my ey ez ltac:(unfold ez; lia) ltac:(unfold ez; lia)) as Ay.
    rewrite <- Ax, <- Ay. destruct sx, sy; cbn [cond_Zopp]; ring.
Qed.

(** ** The reciprocal of a normal value *)

Lemma new_location_spec m r :
0 < m -> 0 <= r < m ->
match loc_code (new_location m r) with
| 0 => r = 0
| 1 => 0 < 2 * r < m
| 2 => 2 * r = m
| _ => m < 2 * r
end.
Proof.
intros Hm Hr. unfold new_location.
destruct (Z.even m) eqn:Ev.
- unfold new_location_even. destruct (Z.eqb_spec r 0) as [->|Hr0]; [reflexivity|].
  destruct (Z.compare_spec (2 * r) m); cbn [loc_code]; lia.
- unfold new_location_odd. destruct (Z.eqb_spec r 0) as [->|Hr0]; [reflexivity|].
  assert (Hodd : Z.odd m = true) by (rewrite <- Z.negb_even, Ev; reflexivity).
  apply Z.odd_spec in Hodd. destruct Hodd as [t Ht].
  destruct (Z.compare_spec (2 * r + 1) m); cbn [loc_code]; lia.
Qed.

Lemma rne_div_2 q c : 0 <= c < 4 ->
rne_div (4 * q + c) 2 = q \/ (rne_div (4 * q + c) 2 = q + 1 /\ 2 <= c).
Proof.
intros Hc. unfold rne_div. change (2 ^ 2) with 4.
replace ((4 * q + c) / 4) with q by (apply Z.div_unique with (r := c); lia).
replace ((4 * q + c) mod 4) with c by (apply Z.mod_unique with (q := q); lia).
destruct (Z.compare_spec (2 * c) 4); [destruct (Z.even q)|..]; auto; right; split; lia.
Qed.

Lemma shiftl_match m s : 0 < s ->
match s with Zpos _ => Z.shiftl m s | Z0 => m | Zneg _ => 0 end = Z.shiftl m s.
Proof. intros Hs. destruct s; [lia|reflexivity|lia]. Qed.

(** [1 / y] for a normal positive [y]: the product of the quotient with
    [y] exceeds one by at most half a unit in the last place. *)
Lemma SFdiv_one_spec m1 my ey :
lo <= emin - 2 ->
Zpos m1 = 2 ^ (prec - 1) ->
bounded prec emax my ey = true ->
Zdigits2 (Zpos my) = prec ->
emin <= 1 - 2 * prec - ey ->
let r := SFdiv prec emax (S754_finite false m1 (1 - prec)) (S754_finite false my ey) in
good r /\ sign_of r = false /\
2 * (ordv r * (Zpos my * 2 ^ (ey - lo)))
<= (2 ^ (2 * prec) + 2 ^ prec) * 2 ^ (1 - 2 * prec - 2 * lo).
Proof.
intros Hlo2 Hm1 Hb Hdy Hey.
destruct (finite_value_bounds my ey Hb) as [Hley _].
pose proof (Zdigits2_bounds my) as [B1 B2]. rewrite Hdy in B1, B2.
assert (Hd1 : Zdigits2 (Zpos m1) = prec).
{ rewrite Hm1, digits_pow2 by lia. lia. }
cbn [SFdiv]. unfold SFdiv_core_binary. rewrite Hd1, Hdy.
set (e' := Z.min (fexp (prec + (1 - prec) - (prec + ey))) (1 - prec - ey)).
assert (He' : e' = 1 - 2 * prec - ey) by (unfold e'; fx).
assert (Hs : 1 - prec - ey - e' = prec) by lia.
rewrite Hs, shiftl_match by lia.
assert (Hm' : Z.shiftl (Zpos m1) prec = 2 ^ (2 * prec - 1)).
{ rewrite Z.shiftl_mul_pow2 by lia. rewrite Hm1, <- Z.pow_add_r by lia. f_equal. lia. }
rewrite Hm'.
set (m' := 2 ^ (2 * prec - 1)).
pose proof (Z_div_mod m' (Zpos my) ltac:(lia)) as Hdm.
destruct (Z.div_eucl m' (Zpos my)) as [q r] eqn:Edm. destruct Hdm as [Hqr Hr].
assert (Hm'2 : m' = 2 ^ (prec - 1) * 2 ^ prec).
{ unfold m'. rewrite <- Z.pow_add_r by lia. f_equal. lia. }
assert (Hpp : 0 < 2 ^ (prec - 1)) by (apply pow2_pos; lia).
assert (Hpow : 2 ^ prec = 2 * 2 ^ (prec - 1)).
{ replace prec with (Z.succ (prec - 1)) at 1 by lia. rewrite Z.pow_succ_r by lia. reflexivity. }
assert (Hq1 : 2 ^ (prec - 1) <= q) by nia.
assert (Hq2 : q <= 2 ^ prec) by nia.
set (l := new_location (Zpos my) r).
pose proof (new_location_spec (Zpos my) r ltac:(lia) Hr) as Hloc. fold l in Hloc.
clearbody l.
assert (Hc : 0 <= loc_code l < 4) by (destruct l as [|[]]; cbn; lia).
assert (Hdq : prec <= Zdigits2 q).
{ pose proof (Zdigits2_le (2 ^ (prec - 1)) q ltac:(lia)) as H.
  rewrite digits_pow2 in H by lia. lia. }
assert (Hpre : e' <= fexp (Zdigits2 q + e')) by fx.
destruct (binary_round_aux_spec false q e' l (4 * q + loc_code l) 2
            ltac:(lia) ltac:(lia) (shr_inv_of_loc q l ltac:(lia)) ltac:(lia) Hpre)
  as (R1 & R2 & R3 & R4).
cbn [cond_Zopp] in R4.
change (xorb false false) with false.
split; [split; assumption|]. split; [assumption|]. rewrite R4.
assert (HP0 : 0 < 2 ^ (e' - 2 - lo)) by (apply pow2_pos; lia).
assert (HPy : 0 < 2 ^ (ey - lo)) by (apply pow2_pos; lia).
assert (HPe : 2 ^ (e' - lo) = 4 * 2 ^ (e' - 2 - lo)).
{ replace (e' - lo) with (2 + (e' - 2 - lo)) by lia. rewrite Z.pow_add_r by lia. reflexivity. }
assert (Hexp : 2 ^ (e' - lo) * 2 ^ (ey - lo) = 2 ^ (1 - 2 * prec - 2 * lo)).
{ rewrite <- Z.pow_add_r by lia. f_equal. lia. }
(* the rounded quotient, as a multiple of [2 ^ (e' - lo)] *)
assert (HQ : exists Q, RNDc ((4 * q + loc_code l) * 2 ^ (e' - 2 - lo)) <= Q * 2 ^ (e' - lo)
                       /\ 2 * (Q * Zpos my) <= 2 * m' + Zpos my).
{ destruct (Z.eq_dec q (2 ^ prec)) as [Hqe|Hqn].
  - exists q. split; [|nia].
    assert (Hr0 : r = 0) by nia.
    assert (Hl0 : loc_code l = 0).
    { destruct l as [|[]]; cbn [loc_code] in *; lia. }
    rewrite Hl0, Z.add_0_r. unfold FS.RNDc.
    replace (4 * q * 2 ^ (e' - 2 - lo)) with (2 ^ (prec + (e' - lo))).
    + rewrite RND_pow2 by lia. rewrite Hqe, <- Z.pow_add_r by lia. lia.
    + rewrite Z.pow_add_r by lia. rewrite Hqe, HPe. ring.
  - set (Y := (4 * q + loc_code l) * 2 ^ (e' - 2 - lo)).
    exists (rne_div (4 * q + loc_code l) 2). split.
    + unfold FS.RNDc, FS.RND. fold Y.
      assert (HdY : Zdigits2 Y = prec + 2 + (e' - 2 - lo)).
      { unfold Y. rewrite Zdigits2_mul_pow by lia. f_equal.
        apply Zdigits2_unique; [lia|].
        replace (prec + 2 - 1) with (2 + (prec - 1)) by lia.
        rewrite !Z.pow_add_r by lia. change (2 ^ 2) with 4. lia. }
      rewrite HdY.
      replace (fexp (prec + 2 + (e' - 2 - lo) + lo) - lo) with (2 + (e' - 2 - lo)) by fx.
      unfold Y. rewrite rne_div_scale by lia.
      replace (2 + (e' - 2 - lo)) with (e' - lo) by lia. lia.
    + destruct (rne_div_2 q (loc_code l) Hc) as [E|[E Hc2]]; rewrite E; [nia|].
      assert (Zpos my <= 2 * r).
      { destruct l as [|[]]; cbn [loc_code] in *; lia. }
      nia. }
destruct HQ as (Q & HQ1 & HQ2).
assert (Hym : 0 < Zpos my * 2 ^ (ey - lo)) by nia.
apply Z.le_trans with (2 * (Q * 2 ^ (e' - lo) * (Zpos my * 2 ^ (ey - lo)))); [nia|].
replace (2 * (Q * 2 ^ (e' - lo) * (Zpos my * 2 ^ (ey - lo))))
  with (2 * (Q * Zpos my) * (2 ^ (e' - lo) * 2 ^ (ey - lo))) by ring.
rewrite Hexp.
assert (0 < 2 ^ (1 - 2 * prec - 2 * lo)) by (apply pow2_pos; fx).
assert (2 * m' = 2 ^ (2 * prec)).
{ unfold m'. replace (2 * prec) with (Z.succ (2 * prec - 1)) at 2 by lia.
  rewrite Z.pow_succ_r by lia. reflexivity. }
nia.
Qed.

(** One plus half a unit in the last place rounds to one. *)
Lemma RND_one_half_ulp :
1 < prec -> RNDs (2 ^ (- lo) + 2 ^ (- prec - lo)) = 2 ^ (- lo).
Proof.
intros Hp2.
assert (Hlo' : lo <= - prec) by fx.
assert (H1 : 0 < 2 ^ (- lo)) by (apply pow2_pos; lia).
assert (H2 : 0 < 2 ^ (- prec - lo)) by (apply pow2_pos; lia).
rewrite RNDs_pos by lia. unfold FS.RNDc, FS.RND.
set (Y := 2 ^ (- lo) + 2 ^ (- prec - lo)).
assert (Hlt : 2 ^ (- prec - lo) < 2 ^ (- lo)) by (apply Z.pow_lt_mono_r; lia).
assert (HdY : Zdigits2 Y = - lo + 1).
{ apply Zdigits2_unique; [lia|]. replace (- lo + 1 - 1) with (- lo) by lia.
  unfold Y. rewrite (Z.pow_add_r 2 (- lo) 1) by lia. change (2 ^ 1) with 2. lia. }
rewrite HdY.
replace (fexp (- lo + 1 + lo) - lo) with (1 - prec - lo) by fx.
set (n := 1 - prec - lo).
assert (Hn : 1 <= n) by (unfold n; lia).
assert (HY : Y = 2 ^ (prec - 1) * 2 ^ n + 2 ^ (n - 1)).
{ unfold Y, n. rewrite <- Z.pow_add_r by lia. f_equal; f_equal; lia. }
assert (Hn2 : 2 ^ n = 2 * 2 ^ (n - 1)).
{ replace n with (Z.succ (n - 1)) at 1 by lia. rewrite Z.pow_succ_r by lia. reflexivity. }
assert (Hn1 : 0 < 2 ^ (n - 1)) by (apply pow2_pos; lia).
assert (Hq : Y / 2 ^ n = 2 ^ (prec - 1)).
{ symmetry. apply Z.div_unique with (r := 2 ^ (n - 1)); lia. }
assert (Hr : Y mod 2 ^ n = 2 ^ (n - 1)).
{ symmetry. apply Z.mod_unique with (q := 2 ^ (prec - 1)); lia. }
unfold rne_div. rewrite Hq, Hr, <- Hn2, Z.compare_refl.
assert (Hev : Z.even (2 ^ (prec - 1)) = true).
{ replace (prec - 1) with (Z.succ (prec - 2)) by lia. rewrite Z.pow_succ_r by lia.
  rewrite Z.even_mul. reflexivity. }
rewrite Hev. rewrite <- Z.pow_add_r by lia.
replace (prec - 1 + n) with (- lo) by (unfold n; lia).
assert (2 ^ (- lo) <= 2 ^ (emax - lo)) by (apply Z.pow_le_mono_r; lia). lia.
Qed.


Lemma rne_div_2_cases q c : 0 <= c < 4 ->
(rne_div (4 * q + c) 2 = q /\ c <= 2) \/ (rne_div (4 * q + c) 2 = q + 1 /\ 2 <= c).
Proof.
intros Hc. unfold rne_div. change (2 ^ 2) with 4.
replace ((4 * q + c) / 4) with q by (apply Z.div_unique with (r := c); lia).
replace ((4 * q + c) mod 4) with c by (apply Z.mod_unique with (q := q); lia).
destruct (Z.compare_spec (2 * c) 4); [destruct (Z.even q)|..];
  [left|right|left|right]; split; lia.
Qed.

(** [1 / y] for a normal positive [y]: the product of the quotient with
    [y] falls short of one by at most half a unit in the last place. *)
Lemma SFdiv_one_lower m1 my ey :
lo <= emin - 2 ->
Zpos m1 = 2 ^ (prec - 1) ->
bounded prec emax my ey = true ->
Zdigits2 (Zpos my) = prec ->
emin <= 1 - 2 * prec - ey ->
let r := SFdiv prec emax (S754_finite false m1 (1 - prec)) (S754_finite false my ey) in
(2 ^ (2 * prec) - 2 ^ prec) * 2 ^ (1 - 2 * prec - 2 * lo)
<= 2 * (ordv r * (Zpos my * 2 ^ (ey - lo))).
Proof.
intros Hlo2 Hm1 Hb Hdy Hey.
destruct (finite_value_bounds my ey Hb) as [Hley _].
destruct (bounded_inv my ey Hb) as [Hcan _].
destruct (canonical_value_lt my ey Hcan) as (_ & Hemin & _).
pose proof (Zdigits2_bounds my) as [B1 B2]. rewrite Hdy in B1, B2.
assert (Hd1 : Zdigits2 (Zpos m1) = prec).
{ rewrite Hm1, digits_pow2 by lia. lia. }
cbn [SFdiv]. unfold SFdiv_core_binary. rewrite Hd1, Hdy.
set (e' := Z.min (fexp (prec + (1 - prec) - (prec + ey))) (1 - prec - ey)).
assert (He' : e' = 1 - 2 * prec - ey) by (unfold e'; fx).
assert (Hs : 1 - prec - ey - e' = prec) by lia.
rewrite Hs, shiftl_match by lia.
assert (Hm' : Z.shiftl (Zpos m1) prec = 2 ^ (2 * prec - 1)).
{ rewrite Z.shiftl_mul_pow2 by lia. rewrite Hm1, <- Z.pow_add_r by lia. f_equal. lia. }
rewrite Hm'.
set (m' := 2 ^ (2 * prec - 1)).
pose proof (Z_div_mod m' (Zpos my) ltac:(lia)) as Hdm.
destruct (Z.div_eucl m' (Zpos my)) as [q r] eqn:Edm. destruct Hdm as [Hqr Hr].
assert (Hm'2 : m' = 2 ^ (prec - 1) * 2 ^ prec).
{ unfold m'. rewrite <- Z.pow_add_r by lia. f_equal. lia. }
assert (Hpp : 0 < 2 ^ (prec - 1)) by (apply pow2_pos; lia).
assert (Hpow : 2 ^ prec = 2 * 2 ^ (prec - 1)).
{ replace prec with (Z.succ (prec - 1)) at 1 by lia. rewrite Z.pow_succ_r by lia. reflexivity. }
assert (Hq1 : 2 ^ (prec - 1) <= q) by nia.
assert (Hq2 : q <= 2 ^ prec) by nia.
set (l := new_location (Zpos my) r).
pose proof (new_location_spec (Zpos my) r ltac:(lia) Hr) as Hloc. fold l in Hloc.
clearbody l.
assert (Hc : 0 <= loc_code l < 4) by (destruct l as [|[]]; cbn; lia).
assert (Hdq : prec <= Zdigits2 q).
{ pose proof (Zdigits2_le (2 ^ (prec - 1)) q ltac:(lia)) as H.
  rewrite digits_pow2 in H by lia. lia. }
assert (Hpre : e' <= fexp (Zdigits2 q + e')) by fx.
destruct (binary_round_aux_spec false q e' l (4 * q + loc_code l) 2
            ltac:(lia) ltac:(lia) (shr_inv_of_loc q l ltac:(lia)) ltac:(lia) Hpre)
  as (R1 & R2 & R3 & R4).
cbn [cond_Zopp] in R4.
change (xorb false false) with false.
rewrite R4.
assert (HP0 : 0 < 2 ^ (e' - 2 - lo)) by (apply pow2_pos; lia).
assert (HPy : 0 < 2 ^ (ey - lo)) by (apply pow2_pos; lia).
assert (HPe : 2 ^ (e' - lo) = 4 * 2 ^ (e' - 2 - lo)).
{ replace (e' - lo) with (2 + (e' - 2 - lo)) by lia. rewrite Z.pow_add_r by lia. reflexivity. }
assert (Hexp : 2 ^ (e' - lo) * 2 ^ (ey - lo) = 2 ^ (1 - 2 * prec - 2 * lo)).
{ rewrite <- Z.pow_add_r by lia. f_equal. lia. }
assert (Htop : 2 ^ prec * 2 ^ (e' - lo) <= 2 ^ (emax - lo)).
{ rewrite <- Z.pow_add_r by lia. apply Z.pow_le_mono_r; [lia|]. fx. }
assert (HPel : 0 < 2 ^ (e' - lo)) by lia.
(* the rounded quotient, as a multiple of [2 ^ (e' - lo)] *)
assert (HQ : exists Q, Q * 2 ^ (e' - lo) <= RNDc ((4 * q + loc_code l) * 2 ^ (e' - 2 - lo))
                       /\ 2 * m' - Zpos my <= 2 * (Q * Zpos my)).
{ destruct (Z.eq_dec q (2 ^ prec)) as [Hqe|Hqn].
  - exists q. split; [|nia].
    assert (Hr0 : r = 0) by nia.
    assert (Hl0 : loc_code l = 0).
    { destruct l as [|[]]; cbn [loc_code] in *; lia. }
    rewrite Hl0, Z.add_0_r. unfold FS.RNDc.
    replace (4 * q * 2 ^ (e' - 2 - lo)) with (2 ^ (prec + (e' - lo))).
    + rewrite RND_pow2 by lia. rewrite Hqe, <- Z.pow_add_r by lia.
      apply Z.min_glb; [lia|]. rewrite Z.pow_add_r by lia. exact Htop.
    + rewrite Z.pow_add_r by lia. rewrite Hqe, HPe. ring.
  - set (Y := (4 * q + loc_code l) * 2 ^ (e' - 2 - lo)).
    exists (rne_div (4 * q + loc_code l) 2).
    assert (HQle : rne_div (4 * q + loc_code l) 2 <= 2 ^ prec).
    { destruct (rne_div_2_cases q (loc_code l) Hc) as [[E _]|[E _]]; rewrite E; lia. }
    split.
    + unfold FS.RNDc, FS.RND. fold Y.
      assert (HdY : Zdigits2 Y = prec + 2 + (e' - 2 - lo)).
      { unfold Y. rewrite Zdigits2_mul_pow by lia. f_equal.
        apply Zdigits2_unique; [lia|].
        replace (prec + 2 - 1) with (2 + (prec - 1)) by lia.
        rewrite !Z.pow_add_r by lia. change (2 ^ 2) with 4. lia. }
      rewrite HdY.
      replace (fexp (prec + 2 + (e' - 2 - lo) + lo) - lo) with (2 + (e' - 2 - lo)) by fx.
      unfold Y. rewrite rne_div_scale by lia.
      replace (2 + (e' - 2 - lo)) with (e' - lo) by lia.
      apply Z.min_glb; [lia|]. nia.
    + destruct (rne_div_2_cases q (loc_code l) Hc) as [[E Hc2]|[E _]]; rewrite E; [|nia].
      assert (2 * r <= Zpos my).
      { destruct l as [|[]]; cbn [loc_code] in *; lia. }
      nia. }
destruct HQ as (Q & HQ1 & HQ2).
assert (Hym : 0 < Zpos my * 2 ^ (ey - lo)) by nia.
apply Z.le_trans with (2 * (Q * 2 ^ (e' - lo) * (Zpos my * 2 ^ (ey - lo)))); [|nia].
replace (2 * (Q * 2 ^ (e' - lo) * (Zpos my * 2 ^ (ey - lo))))
  with (2 * (Q * Zpos my) * (2 ^ (e' - lo) * 2 ^ (ey - lo))) by ring.
rewrite Hexp.
assert (0 < 2 ^ (1 - 2 * prec - 2 * lo)) by (apply pow2_pos; fx).
assert (2 * m' = 2 ^ (2 * prec)).
{ unfold m'. replace (2 * prec) with (Z.succ (2 * prec - 1)) at 2 by lia.
  rewrite Z.pow_succ_r by lia. reflexivity. }
nia.
Qed.
End Round.

(** ** The operations of one format, on values *)

Section Fmt.

Variable f : format.
Hypothesis Hprec : 1 < prec f.
Hypothesis Hemax : prec f < emax f.

Local Abbreviation Hp := (Z.lt_trans 0 1 (prec f) Z.lt_0_1 Hprec).

#[local] Set Default Proof Using "Hprec Hemax".

Lemma scale_le_emin : scale f <= emin (prec f) (emax f).
Proof. unfold scale. rewrite emin_unfold. lia. Qed.

Lemma scale_le_2emin : scale f <= 2 * emin (prec f) (emax f).
Proof. unfold scale. lia. Qed.

Lemma scale_neg : scale f < 0.
Proof. unfold scale. rewrite emin_unfold. lia. Qed.

Lemma unit_pos : 0 < unit f.
Proof. unfold unit. apply Z.pow_pos_nonneg; [lia|]. pose proof scale_neg. lia. Qed.

Lemma ltb_val x y : wf f x -> wf f y -> Flt.ltb x y = (val f x <? val f y).
Proof. apply (SFltb_spec (prec f) (emax f) Hp Hemax (scale f) scale_le_emin). Qed.

Lemma leb_val x y : wf f x -> wf f y -> Flt.leb x y = (val f x <=? val f y).
Proof. apply (SFleb_spec (prec f) (emax f) Hp Hemax (scale f) scale_le_emin). Qed.

Lemma RN_mono V1 V2 : V1 <= V2 -> RN f V1 <= RN f V2.
Proof. apply (RNDs_mono (prec f) (emax f) Hp Hemax (scale f) scale_le_emin). Qed.

Lemma RN_0 : RN f 0 = 0.
Proof. apply (RNDs_0 (prec f) (emax f) Hp Hemax (scale f) scale_le_emin). Qed.

Lemma RN_val x : wf f x -> RN f (val f x) = val f x.
Proof. apply (RNDs_ordv (prec f) (emax f) Hp Hemax (scale f) scale_le_emin). Qed.

Lemma RN_pow2 j : 0 <= j < emax f -> RN f (2 ^ j * unit f) = 2 ^ j * unit f.
Proof.
  intros Hj. unfold unit. pose proof scale_neg. pose proof scale_le_emin.
  rewrite <- Z.pow_add_r by lia.
  apply (RNDs_pow2 (prec f) (emax f) Hp Hemax (scale f) scale_le_emin). rewrite emin_unfold in *. lia.
Qed.

Lemma val_bound x : wf f x -> - 2 ^ (emax f - scale f) <= val f x <= 2 ^ (emax f - scale f).
Proof. apply (ordv_bound (prec f) (emax f) Hp Hemax (scale f) scale_le_emin). Qed.

Lemma val_finite x : wf f x ->
  (finite x = true <-> - 2 ^ (emax f - scale f) < val f x < 2 ^ (emax f - scale f)).
Proof.
  intros Hx. split.
  - apply (ordv_finite_bound (prec f) (emax f) Hp Hemax (scale f) scale_le_emin x Hx).
  - intros Hb. apply (finite_of_bound (prec f) (emax f) Hp Hemax (scale f) scale_le_emin x Hx Hb).
Qed.

Lemma of_Z_val z : wf f (Flt.of_Z f z) /\ val f (Flt.of_Z f z) = RN f (z * unit f).
Proof. apply (of_Z_spec (prec f) (emax f) Hp Hemax (scale f) scale_le_emin z). Qed.

Lemma of_Z_mono z1 z2 : z1 <= z2 -> val f (Flt.of_Z f z1) <= val f (Flt.of_Z f z2).
Proof.
  intros H. rewrite (proj2 (of_Z_val z1)), (proj2 (of_Z_val z2)).
  apply RN_mono. pose proof unit_pos. nia.
Qed.

Lemma of_Z_pow2 j : 0 <= j < emax f -> val f (Flt.of_Z f (2 ^ j)) = 2 ^ j * unit f.
Proof. intros. rewrite (proj2 (of_Z_val _)). apply RN_pow2; auto. Qed.

Lemma of_Z_0 : val f (Flt.of_Z f 0) = 0.
Proof. rewrite (proj2 (of_Z_val _)). rewrite Z.mul_0_l. apply RN_0. Qed.

Lemma of_Z_nonneg z : 0 <= z -> 0 <= val f (Flt.of_Z f z).
Proof. intros. rewrite <- of_Z_0. apply of_Z_mono; auto. Qed.

Lemma pow_unit_lt j : 0 <= j < emax f -> 2 ^ j * unit f < 2 ^ (emax f - scale f).
Proof.
  intros Hj. unfold unit. pose proof scale_neg.
  rewrite <- Z.pow_add_r by lia. apply Z.pow_lt_mono_r; lia.
Qed.

Lemma of_Z_finite z j : 0 <= j < emax f -> - 2 ^ j <= z <= 2 ^ j ->
  finite (Flt.of_Z f z) = true.
Proof.
  intros Hj Hz. apply val_finite; [apply of_Z_val|].
  pose proof (of_Z_mono z (2 ^ j) ltac:(lia)) as H1.
  pose proof (of_Z_mono (- 2 ^ j) z ltac:(lia)) as H2.
  rewrite of_Z_pow2 in H1 by lia.
  rewrite (proj2 (of_Z_val (- 2 ^ j))) in H2.
  rewrite Z.mul_opp_l in H2.
  unfold RN in H2. rewrite (RNDs_opp (prec f) (emax f) Hp Hemax (scale f) scale_le_emin) in H2.
  fold (RN f (2 ^ j * unit f)) in H2. rewrite RN_pow2 in H2 by lia.
  pose proof (pow_unit_lt j Hj). lia.
Qed.

Lemma mul_val x y : wf f x -> wf f y -> finite x = true -> finite y = true ->
  wf f (Flt.mul f x y) /\
  val f (Flt.mul f x y) = RN f (val f x * val f y / unit f).
Proof.
  intros. apply (SFmul_spec (prec f) (emax f) Hp Hemax (scale f) scale_le_emin); auto.
  apply scale_le_2emin.
Qed.

Lemma add_val x y : wf f x -> wf f y -> finite x = true -> finite y = true ->
  wf f (Flt.add f x y) /\ val f (Flt.add f x y) = RN f (val f x + val f y).
Proof.
  intros. apply (SFadd_spec (prec f) (emax f) Hp Hemax (scale f) scale_le_emin); auto.
Qed.

Lemma sub_val x y : wf f x -> wf f y -> finite x = true -> finite y = true ->
  wf f (Flt.sub f x y) /\ val f (Flt.sub f x y) = RN f (val f x - val f y).
Proof.
  intros. apply (SFsub_spec (prec f) (emax f) Hp Hemax (scale f) scale_le_emin); auto.
Qed.

(** Multiplication by a non-negative finite value is monotone. *)
Lemma mul_mono_r x y1 y2 :
  wf f x -> finite x = true -> 0 <= val f x ->
  wf f y1 -> finite y1 = true -> wf f y2 -> finite y2 = true ->
  val f y1 <= val f y2 ->
  val f (Flt.mul f x y1) <= val f (Flt.mul f x y2).
Proof.
  intros Hx Fx Px H1 F1 H2 F2 Hle.
  rewrite (proj2 (mul_val x y1 Hx H1 Fx F1)), (proj2 (mul_val x y2 Hx H2 Fx F2)).
  apply RN_mono. apply Z.div_le_mono; [apply unit_pos|]. nia.
Qed.

Lemma mul_mono_l x1 x2 y :
  wf f y -> finite y = true -> 0 <= val f y ->
  wf f x1 -> finite x1 = true -> wf f x2 -> finite x2 = true ->
  val f x1 <= val f x2 ->
  val f (Flt.mul f x1 y) <= val f (Flt.mul f x2 y).
Proof.
  intros Hy Fy Py H1 F1 H2 F2 Hle.
  rewrite (proj2 (mul_val x1 y H1 Hy F1 Fy)), (proj2 (mul_val x2 y H2 Hy F2 Fy)).
  apply RN_mono. apply Z.div_le_mono; [apply unit_pos|]. nia.
Qed.

Lemma mul_nonneg x y :
  wf f x -> finite x = true -> 0 <= val f x ->
  wf f y -> finite y = true -> 0 <= val f y ->
  0 <= val f (Flt.mul f x y).
Proof.
  intros Hx Fx Px Hy Fy Py.
  rewrite (proj2 (mul_val x y Hx Hy Fx Fy)). rewrite <- RN_0. apply RN_mono.
  apply Z.div_pos; [nia|apply unit_pos].
Qed.

Lemma infinite_cases x : wf f x -> finite x = false ->
  (x = S754_infinity false /\ val f x = 2 ^ (emax f - scale f)) \/
  (x = S754_infinity true /\ val f x = - 2 ^ (emax f - scale f)).
Proof.
  intros [Hv Hn] Hf. destruct x as [s|[]|?|s m e]; try discriminate; [right|left]; split; reflexivity.
Qed.

(** Adding to a finite value is monotone, also when the addend is
    infinite. *)
Lemma add_mono_r x y1 y2 :
  wf f x -> finite x = true -> wf f y1 -> wf f y2 ->
  val f y1 <= val f y2 ->
  wf f (Flt.add f x y1) /\ wf f (Flt.add f x y2) /\
  val f (Flt.add f x y1) <= val f (Flt.add f x y2).
Proof.
  intros Hx Fx H1 H2 Hle.
  assert (Hinf : forall y, wf f y -> finite y = false -> Flt.add f x y = y).
  { intros y Hy Fy. destruct (infinite_cases y Hy Fy) as [[-> _]|[-> _]];
      destruct x as [s|s|?|s m e]; try discriminate; reflexivity. }
  destruct (finite y1) eqn:F1, (finite y2) eqn:F2.
  - destruct (add_val x y1 Hx H1 Fx F1) as [A1 B1].
    destruct (add_val x y2 Hx H2 Fx F2) as [A2 B2].
    repeat split; try apply A1; try apply A2. rewrite B1, B2. apply RN_mono. lia.
  - destruct (add_val x y1 Hx H1 Fx F1) as [A1 B1].
    rewrite (Hinf y2 H2 F2).
    repeat split; try apply A1; try apply H2.
    destruct (infinite_cases y2 H2 F2) as [[-> E]|[-> E]].
    + rewrite E. apply val_bound. exact A1.
    + pose proof (proj1 (val_finite y1 H1) F1). lia.
  - destruct (add_val x y2 Hx H2 Fx F2) as [A2 B2].
    rewrite (Hinf y1 H1 F1).
    repeat split; try apply A2; try apply H1.
    destruct (infinite_cases y1 H1 F1) as [[-> E]|[-> E]].
    + pose proof (proj1 (val_finite y2 H2) F2). lia.
    + rewrite E. apply val_bound. exact A2.
  - rewrite (Hinf y1 H1 F1), (Hinf y2 H2 F2). repeat split; try apply H1; try apply H2. exact Hle.
Qed.

(** A value at least one is normal. *)
Lemma normal_shape y j :
0 <= j -> j + 3 <= emax f ->
wf f y -> unit f <= val f y <= 2 ^ j * unit f ->
exists my ey,
  y = S754_finite false my ey /\
  bounded (prec f) (emax f) my ey = true /\
  Zdigits2 (Zpos my) = prec f /\
  ey <= j + 1 - prec f.
Proof.
intros Hj Hje Hy [Hlow Hhigh].
pose proof unit_pos as Hu. pose proof scale_neg as Hsn.
destruct Hy as [Hv Hn].
destruct y as [s|s|?|s my ey]; try discriminate; unfold val in *; cbn [ordv] in *.
- lia.
- pose proof (pow_unit_lt j ltac:(lia)).
  destruct s; cbn [cond_Zopp] in *; lia.
- cbn in Hv.
  destruct (finite_value_bounds (prec f) (emax f) Hp Hemax (scale f) scale_le_emin my ey Hv)
    as [Hle Hb].
  destruct s; cbn [cond_Zopp] in *; [lia|].
  destruct (bounded_inv (prec f) (emax f) Hp Hemax (scale f) scale_le_emin my ey Hv) as [Hc He].
  destruct (canonical_value_lt (prec f) (emax f) Hp Hemax (scale f) scale_le_emin my ey Hc) as (D1 & D2 & D3).
  pose proof (Zdigits2_bounds my) as [B1 B2].
  pose proof (Zdigits2_pos_pos (Zpos my) ltac:(lia)) as Hd0.
  remember (Zdigits2 (Zpos my)) as d eqn:Hd.
  assert (HPy : 0 < 2 ^ (ey - scale f)) by (apply Z.pow_pos_nonneg; lia).
  assert (Hdp : d = prec f).
  { destruct (Z.eq_dec d (prec f)) as [|Hne]; auto. exfalso.
    assert (ey = emin (prec f) (emax f)) by lia.
    assert (2 ^ d * 2 ^ (ey - scale f) <= unit f).
    { unfold unit. rewrite <- Z.pow_add_r by lia. apply Z.pow_le_mono_r; [lia|].
      rewrite emin_unfold in *. lia. }
    nia. }
  exists my, ey. split; [reflexivity|]. split; [exact Hv|]. split; [lia|].
  assert (2 ^ (d - 1 + (ey - scale f)) <= 2 ^ (j - scale f)).
  { rewrite Z.pow_add_r by lia. unfold unit in Hhigh.
    rewrite <- Z.pow_add_r in Hhigh by lia.
    replace (j + - scale f) with (j - scale f) in Hhigh by lia. nia. }
  assert (d - 1 + (ey - scale f) <= j - scale f).
  { apply (Z.pow_le_mono_r_iff 2); lia. }
  lia.
Qed.

(** The reciprocal of a value between [1] and [2 ^ j]: multiplied back, it
    exceeds one by at most half a unit in the last place. *)
Lemma recip_bound m1 y j :
0 <= j -> j + 3 <= emax f ->
Zpos m1 = 2 ^ (prec f - 1) ->
wf f y -> unit f <= val f y <= 2 ^ j * unit f ->
let s := Flt.div f (S754_finite false m1 (1 - prec f)) y in
wf f s /\ finite s = true /\ 0 <= val f s /\
val f s * val f y / unit f <= unit f + 2 ^ (- prec f - scale f).
Proof.
intros Hj Hje Hm1 Hy Hb.
pose proof unit_pos as Hu. pose proof scale_neg as Hsn. pose proof scale_le_emin as Hse.
destruct (normal_shape y j Hj Hje Hy Hb) as (my & ey & -> & Hbd & Hd & Hey).
assert (Hlo2 : scale f <= emin (prec f) (emax f) - 2).
{ unfold scale. rewrite emin_unfold. lia. }
assert (Hq : emin (prec f) (emax f) <= 1 - 2 * prec f - ey).
{ rewrite emin_unfold. lia. }
destruct (SFdiv_one_spec (prec f) (emax f) Hp Hemax (scale f) scale_le_emin
            m1 my ey Hlo2 Hm1 Hbd Hd Hq) as (S1 & S2 & S3).
cbv zeta. unfold Flt.div.
set (s := SFdiv (prec f) (emax f) (S754_finite false m1 (1 - prec f))
            (S754_finite false my ey)) in *.
assert (Hs0 : 0 <= val f s).
{ apply (ordv_sign_nonneg (prec f) (emax f) Hp Hemax (scale f) scale_le_emin). exact S2. }
unfold val in *. cbn [ordv cond_Zopp] in *.
set (vy := Zpos my * 2 ^ (ey - scale f)) in *.
set (vs := ordv (emax f) (scale f) s) in *.
assert (Hsc : scale f <= 4 - 4 * prec f).
{ unfold scale. rewrite emin_unfold. lia. }
assert (Hrhs : (2 ^ (2 * prec f) + 2 ^ prec f) * 2 ^ (1 - 2 * prec f - 2 * scale f)
               = 2 * ((unit f + 2 ^ (- prec f - scale f)) * unit f)).
{ unfold unit. rewrite !Z.mul_add_distr_r, Z.mul_add_distr_l.
  rewrite <- !Z.pow_add_r by lia.
  replace (2 * prec f + (1 - 2 * prec f - 2 * scale f)) with (Z.succ (- scale f + - scale f)) by lia.
  replace (prec f + (1 - 2 * prec f - 2 * scale f))
    with (Z.succ (- prec f - scale f + - scale f)) by lia.
  rewrite !Z.pow_succ_r by lia. ring. }
rewrite Hrhs in S3.
assert (Hprod : vs * vy <= (unit f + 2 ^ (- prec f - scale f)) * unit f) by lia.
assert (Hsmall : 0 < 2 ^ (- prec f - scale f) < unit f).
{ unfold unit. split; [apply Z.pow_pos_nonneg; lia|apply Z.pow_lt_mono_r; lia]. }
split; [exact S1|]. split; [|split; [exact Hs0|]].
- apply (proj2 (val_finite s S1)). unfold val. fold vs.
  assert (Hvs : vs <= 2 * unit f) by nia.
  assert (2 * unit f < 2 ^ (emax f - scale f)).
  { pose proof (pow_unit_lt 1 ltac:(lia)) as H. change (2 ^ 1) with 2 in H. exact H. }
  lia.
- apply Z.div_le_upper_bound; lia.
Qed.

(** A quotient [v / M] with [v <= M], computed as [v * (1 / M)], is at
    most one. *)
Lemma scaled_le_one m1 v M :
Zpos m1 = 2 ^ (prec f - 1) -> 66 < emax f ->
0 <= v <= M -> 1 <= M < 2 ^ 63 ->
let s := Flt.div f (S754_finite false m1 (1 - prec f)) (Flt.of_Z f M) in
let x := Flt.mul f (Flt.of_Z f v) s in
wf f x /\ finite x = true /\ 0 <= val f x <= unit f.
Proof.
intros Hm1 He Hv HM.
pose proof unit_pos as Hu. pose proof scale_neg as Hsn.
destruct (of_Z_val M) as [WM VM]. destruct (of_Z_val v) as [Wv Vv].
assert (HM1 : unit f <= val f (Flt.of_Z f M)).
{ pose proof (of_Z_mono (2 ^ 0) M ltac:(change (2 ^ 0) with 1; lia)) as H.
  rewrite (of_Z_pow2 0) in H by lia. change (2 ^ 0) with 1 in H. lia. }
assert (HM2 : val f (Flt.of_Z f M) <= 2 ^ 63 * unit f).
{ pose proof (of_Z_mono M (2 ^ 63) ltac:(lia)) as H. rewrite of_Z_pow2 in H by lia. exact H. }
destruct (recip_bound m1 (Flt.of_Z f M) 63 ltac:(lia) ltac:(lia) Hm1 WM (conj HM1 HM2))
  as (Ws & Fs & Ps & Hs).
cbv zeta.
set (s := Flt.div f (S754_finite false m1 (1 - prec f)) (Flt.of_Z f M)) in *.
assert (FM : finite (Flt.of_Z f M) = true) by (apply (of_Z_finite M 63); lia).
assert (Fv : finite (Flt.of_Z f v) = true) by (apply (of_Z_finite v 63); lia).
destruct (mul_val (Flt.of_Z f v) s Wv Ws Fv Fs) as [Wx Vx].
pose proof (mul_nonneg (Flt.of_Z f v) s Wv Fv (of_Z_nonneg v ltac:(lia)) Ws Fs Ps) as Px.
pose proof (mul_mono_l (Flt.of_Z f v) (Flt.of_Z f M) s Ws Fs Ps Wv Fv WM FM
              (of_Z_mono v M ltac:(lia))) as Hle.
rewrite (proj2 (mul_val (Flt.of_Z f M) s WM Ws FM Fs)) in Hle.
assert (Hone : RN f (val f (Flt.of_Z f M) * val f s / unit f) <= unit f).
{ apply Z.le_trans with (RN f (unit f + 2 ^ (- prec f - scale f))).
  - apply RN_mono. rewrite Z.mul_comm. exact Hs.
  - unfold RN, unit.
    rewrite (RND_one_half_ulp (prec f) (emax f) Hp Hemax (scale f) scale_le_emin Hprec). lia. }
assert (Hx1 : val f (Flt.mul f (Flt.of_Z f v) s) <= unit f) by lia.
split; [exact Wx|]. split; [|lia].
apply (proj2 (val_finite _ Wx)).
pose proof (pow_unit_lt 0 ltac:(lia)) as H. change (2 ^ 0) with 1 in H. lia.
Qed.

(** Truncation of a non-negative finite value. *)
Lemma trunc_val x : wf f x -> finite x = true -> 0 <= val f x ->
Flt.trunc x = Some (val f x / unit f).
Proof.
intros [Hv Hn] Fx Px. pose proof scale_neg as Hsn. pose proof unit_pos as Hu.
destruct x as [s|s|?|s m e]; try discriminate; unfold val in *; cbn [ordv Flt.trunc] in *.
- rewrite Z.div_0_l by lia. reflexivity.
- cbn in Hv.
  destruct (finite_value_bounds (prec f) (emax f) Hp Hemax (scale f) scale_le_emin m e Hv)
    as [Hle Hb].
  destruct s; cbn [cond_Zopp] in *; [lia|]. f_equal.
  destruct (Z_le_gt_dec 0 e) as [He|He].
  + rewrite Z.shiftl_mul_pow2 by lia.
    replace (e - scale f) with (e + - scale f) by lia.
    rewrite Z.pow_add_r, Z.mul_assoc by lia. fold (unit f).
    rewrite Z.div_mul by lia. reflexivity.
  + rewrite Z.shiftl_div_pow2 by lia.
    unfold unit. replace (- scale f) with ((e - scale f) + - e) by lia.
    rewrite Z.pow_add_r by lia.
    rewrite (Z.mul_comm (2 ^ (e - scale f)) (2 ^ (- e))).
    rewrite Z.div_mul_cancel_r; [reflexivity| |];
      apply Z.neq_sym, Z.lt_neq, Z.pow_pos_nonneg; lia.
Qed.

Lemma to_int_val x lo hi k : wf f x -> finite x = true ->
0 <= val f x <= k * unit f -> lo <= 0 -> k <= hi ->
exists z, Flt.to_int lo hi x = Some z /\ z = val f x / unit f /\ 0 <= z <= k.
Proof.
intros Wx Fx Hx Hlo Hhi. pose proof unit_pos as Hu.
unfold Flt.to_int. rewrite (trunc_val x Wx Fx) by lia.
set (z := val f x / unit f).
assert (Hz : 0 <= z <= k).
{ unfold z. split; [apply Z.div_pos; lia|].
  apply Z.div_le_upper_bound; [lia|]. rewrite Z.mul_comm. lia. }
destruct (Z.leb_spec lo z); [|lia]. destruct (Z.leb_spec z hi); [|lia].
exists z. repeat split; auto; lia.
Qed.

(** The fractional part is finite, non-negative and at most the value. *)
Lemma fmod1_val x : wf f x -> finite x = true -> 0 <= val f x ->
wf f (Flt.fmod1 f x) /\ finite (Flt.fmod1 f x) = true /\
0 <= val f (Flt.fmod1 f x) <= val f x.
Proof.
intros [Hv Hn] Fx Px. pose proof scale_neg as Hsn. pose proof unit_pos as Hu.
destruct x as [s|s|?|s m e]; try discriminate; cbn [Flt.fmod1].
- split; [split; reflexivity|]. split; [reflexivity|]. cbn. lia.
- cbn in Hv.
  destruct (finite_value_bounds (prec f) (emax f) Hp Hemax (scale f) scale_le_emin m e Hv)
    as [Hle Hb].
  assert (Hs : s = false).
  { destruct s; auto. unfold val in Px. cbn [ordv cond_Zopp] in Px. lia. }
  subst s. cbn [cond_Zopp].
  destruct (Z.leb_spec 0 e) as [He|He].
  + assert (0 < Zpos m * 2 ^ (e - scale f)) by lia.
    unfold val. cbn [ordv cond_Zopp].
    split; [split; reflexivity|]. split; [reflexivity|lia].
  + destruct (binary_normalize_spec (prec f) (emax f) Hp Hemax (scale f) scale_le_emin
                (Zpos m mod 2 ^ (- e)) e false Hle) as (N1 & N2 & N3).
    set (r := binary_normalize (prec f) (emax f) (Zpos m mod 2 ^ (- e)) e false) in *.
    assert (Hmod : 0 <= Zpos m mod 2 ^ (- e) <= Zpos m).
    { pose proof (Z.mod_pos_bound (Zpos m) (2 ^ (- e)) ltac:(apply Z.pow_pos_nonneg; lia)).
      pose proof (Z.mod_le (Zpos m) (2 ^ (- e)) ltac:(lia) ltac:(apply Z.pow_pos_nonneg; lia)).
      lia. }
    assert (HP : 0 < 2 ^ (e - scale f)) by (apply Z.pow_pos_nonneg; lia).
    assert (Hr0 : 0 <= val f r).
    { unfold val. rewrite N3. fold (RN f (Zpos m mod 2 ^ (- e) * 2 ^ (e - scale f))).
      rewrite <- RN_0. apply RN_mono. nia. }
    assert (Hr1 : val f r <= val f (S754_finite false m e)).
    { unfold val at 1. rewrite N3.
      fold (RN f (Zpos m mod 2 ^ (- e) * 2 ^ (e - scale f))).
      rewrite <- (RN_val (S754_finite false m e)) by (split; auto).
      apply RN_mono. unfold val. cbn [ordv cond_Zopp]. nia. }
    split; [split; assumption|]. split; [|lia].
    apply (proj2 (val_finite r (conj N1 N2))).
    pose proof (proj1 (val_finite (S754_finite false m e) (conj Hv Hn)) eq_refl). lia.
Qed.

End Fmt.

(** * Statistics *)

Import FS detail Spec.

(** ** compute_percentiles *)

Lemma wrap64_small z : 0 <= z < 2 ^ 64 -> wrap64 z = z.
Proof. intros. unfold wrap64. apply Z.mod_small. assumption. Qed.

Lemma wrap64_range z : 0 <= wrap64 z < 2 ^ 64.
Proof. unfold wrap64. apply Z.mod_pos_bound. lia. Qed.

Lemma wrap64_le z : 0 <= z -> wrap64 z <= z.
Proof. intros. unfold wrap64. apply Z.mod_le; lia. Qed.

Lemma clamp_range v : 0 <= clamp v 0 100 <= 100.
Proof.
  unfold clamp. destruct (Z.ltb_spec v 0); [lia|].
  destruct (Z.ltb_spec 100 v); lia.
Qed.

Lemma clamp_spec v : clamp v 0 100 = Z.max 0 (Z.min v 100).
Proof.
  unfold clamp. destruct (Z.ltb_spec v 0); [lia|].
  destruct (Z.ltb_spec 100 v); lia.
Qed.

Lemma percentile_index_bound n p :
  0 < n < 2 ^ 64 -> 0 <= percentile_index n p < n.
Proof.
  intros Hn. unfold percentile_index.
  pose proof (clamp_range p) as Hc.
  destruct (Z.eqb_spec (clamp p 0 100) 100) as [E|E].
  - rewrite wrap64_small by lia. lia.
  - pose proof (wrap64_range (clamp p 0 100 * n)) as Hw.
    pose proof (wrap64_le (clamp p 0 100 * n) ltac:(nia)) as Hle.
    split.
    + apply Z.div_pos; lia.
    + apply Z.div_lt_upper_bound; [lia|]. nia.
Qed.

Lemma percentile_index_spec n p :
  0 < n -> 99 * n < 2 ^ 64 ->
  percentile_index n p = nearest_rank_index n p.
Proof.
  intros Hn Hb. unfold percentile_index, nearest_rank_index.
  rewrite <- clamp_spec. pose proof (clamp_range p) as Hc.
  destruct (Z.eqb_spec (clamp p 0 100) 100) as [E|E].
  - apply wrap64_small. lia.
  - rewrite wrap64_small by nia. reflexivity.
Qed.

Lemma at_index_some {A : Type} (data : list A) idx :
  0 <= idx < size data -> exists v, at_index data idx = Some v /\
                                    nth_error data (Z.to_nat idx) = Some v.
Proof.
  intros H. unfold at_index.
  destruct (Z.leb_spec 0 idx); [|lia]. destruct (Z.ltb_spec idx (size data)); [|lia].
  cbn [andb]. destruct (nth_error data (Z.to_nat idx)) eqn:E; eauto.
  apply nth_error_None in E. unfold size in *. lia.
Qed.

Lemma compute_percentiles_loop_spec data ps acc :
  data <> [] -> size data < 2 ^ 64 ->
  exists results,
    compute_percentiles_loop data ps acc = Some (acc ++ results) /\
    Forall2 (fun p v => nth_error data (Z.to_nat (percentile_index (size data) p)) = Some v)
      ps results.
Proof.
  intros Hne Hsz. revert acc. induction ps as [|p ps IH]; intros acc.
  - exists []. cbn. rewrite app_nil_r. auto.
  - cbn [compute_percentiles_loop].
    assert (Hn : 0 < size data < 2 ^ 64).
    { unfold size in *. destruct data; [congruence|]. cbn [length] in *. lia. }
    destruct (at_index_some data _ (percentile_index_bound (size data) p Hn)) as (v & Hv & Hnth).
    rewrite Hv. destruct (IH (acc ++ [v])) as (res & Hres & HF).
    exists (v :: res). rewrite Hres, <- app_assoc. cbn. split; auto.
Qed.

(** ** lower_bound *)

Lemma lower_bound_loop_range fuel data first len val :
  (first <= lower_bound_loop fuel data first len val <= first + len)%nat.
Proof.
  revert first len. induction fuel as [|fuel IH]; intros first len; cbn [lower_bound_loop].
  - lia.
  - destruct len as [|len']; [lia|].
    set (len := S len'). set (half := Nat.div2 len).
    assert (Hh : (half < len)%nat) by (apply Nat.lt_div2; unfold len; lia).
    destruct (Flt.ltb _ val).
    + pose proof (IH (S (first + half)) (len - half - 1)%nat). lia.
    + pose proof (IH first half). lia.
Qed.

Lemma lower_bound_range data first last val :
  (first <= last)%nat ->
  (first <= lower_bound data first last val <= last)%nat.
Proof.
  intros H. unfold lower_bound.
  pose proof (lower_bound_loop_range (last - first) data first (last - first) val). lia.
Qed.

(** On a range partitioned at [k] the bisection finds [k], whatever fuel at
    least [len] it is given. *)
Lemma lower_bound_loop_partition data val k :
  (forall i, (i < length data)%nat ->
             (Flt.ltb (nth i data S754_nan) val = true <-> (i < k)%nat)) ->
  forall fuel first len,
    (len <= fuel)%nat -> (first <= k <= first + len)%nat ->
    (first + len <= length data)%nat ->
    lower_bound_loop fuel data first len val = k.
Proof.
  intros Hpart. induction fuel as [|fuel IH]; intros first len Hf Hk Hn; cbn [lower_bound_loop].
  - lia.
  - destruct len as [|len']; [lia|].
    set (len := S len') in *. set (half := Nat.div2 len).
    assert (Hh : (half < len)%nat) by (apply Nat.lt_div2; unfold len; lia).
    destruct (Flt.ltb (nth (first + half) data S754_nan) val) eqn:E.
    + apply Hpart in E; [|lia]. apply IH; lia.
    + assert (~ (first + half < k)%nat).
      { intros Hc. apply Hpart in Hc; [|lia]. congruence. }
      apply IH; lia.
Qed.

Lemma lower_bound_partition data val k first :
  (forall i, (i < length data)%nat ->
             (Flt.ltb (nth i data S754_nan) val = true <-> (i < k)%nat)) ->
  (first <= k <= length data)%nat ->
  lower_bound data first (length data) val = k.
Proof.
  intros Hpart Hk. unfold lower_bound.
  apply lower_bound_loop_partition; auto; lia.
Qed.

(** ** compute_histogram: counts add up *)

Lemma sum_counts_app l1 l2 : sum_counts (l1 ++ l2) = sum_counts l1 + sum_counts l2.
Proof. unfold sum_counts. induction l1; cbn; lia. Qed.

Lemma histogram_loop_inv k data min stride :
  forall i iter histo,
    (iter <= length data)%nat ->
    sum_counts histo = Z.of_nat iter ->
    Forall (fun c => 0 <= c) histo ->
    let r := histogram_loop k data min stride i iter histo in
    (fst r <= length data)%nat /\
    sum_counts (snd r) = Z.of_nat (fst r) /\
    Forall (fun c => 0 <= c) (snd r) /\
    length (snd r) = (length histo + k)%nat.
Proof.
  induction k as [|k IH]; intros i iter histo Hit Hsum Hpos; cbn [histogram_loop].
  - cbn. repeat split; auto.
  - pose proof (lower_bound_range data iter (length data) (level min stride i) Hit) as Hr.
    set (iter' := lower_bound data iter (length data) (level min stride i)) in *.
    specialize (IH (i + 1) iter' (histo ++ [Z.of_nat iter' - Z.of_nat iter])).
    destruct IH as (H1 & H2 & H3 & H4).
    + lia.
    + rewrite sum_counts_app. cbn. lia.
    + apply Forall_app. split; auto. constructor; [lia|constructor].
    + repeat split; auto. rewrite H4, length_app. cbn. lia.
Qed.

Lemma compute_histogram_inv data min stride bins :
  let h := compute_histogram data min stride bins in
  sum_counts h = size data /\
  Forall (fun c => 0 <= c) h /\
  Z.of_nat (length h) = wrap64 (bins + 1) + 1.
Proof.
  unfold compute_histogram.
  pose proof (histogram_loop_inv (Z.to_nat (wrap64 (bins + 1))) data min stride 0 0 []
                ltac:(lia) ltac:(reflexivity) ltac:(constructor)) as H.
  cbv zeta in H.
  destruct (histogram_loop _ data min stride 0 0 []) as [iter histo].
  cbn [fst snd] in H. destruct H as (H1 & H2 & H3 & H4).
  cbv zeta. repeat split.
  - rewrite sum_counts_app. cbn. unfold size. lia.
  - apply Forall_app. split; auto. constructor; [lia|constructor].
  - rewrite length_app, H4. cbn.
    pose proof (Z.mod_pos_bound (bins + 1) (2 ^ 64) ltac:(lia)). unfold wrap64. lia.
Qed.


(** ** Sorted samples *)

Lemma f64_prec : 1 < prec binary64. Proof. reflexivity. Qed.
Lemma f64_emax : prec binary64 < emax binary64. Proof. reflexivity. Qed.
Lemma f32_prec : 1 < prec binary32. Proof. reflexivity. Qed.
Lemma f32_emax : prec binary32 < emax binary32. Proof. reflexivity. Qed.

Lemma ltb64 x y : wf binary64 x -> wf binary64 y ->
  Flt.ltb x y = (val binary64 x <? val binary64 y).
Proof. apply ltb_val; [exact f64_prec|exact f64_emax]. Qed.

Lemma leb64 x y : wf binary64 x -> wf binary64 y ->
  Flt.leb x y = (val binary64 x <=? val binary64 y).
Proof. apply leb_val; [exact f64_prec|exact f64_emax]. Qed.

Lemma filter_none {A : Type} (p : A -> bool) l :
  Forall (fun x => p x = false) l -> filter p l = [].
Proof.
  induction 1 as [|x l Hx _ IH]; cbn; [reflexivity|]. rewrite Hx. exact IH.
Qed.

(** The samples below a level form a prefix of the sorted vector. *)
Lemma sorted_partition data L :
  samples data -> wf binary64 L ->
  forall i, (i < length data)%nat ->
    (Flt.ltb (nth i data S754_nan) L = true <->
     (i < length (filter (below L) data))%nat).
Proof.
  intros [Hwf Hs] HL. induction data as [|h t IH]; intros i Hi; [cbn in Hi; lia|].
  inversion Hwf as [|? ? Hh Ht]; subst. inversion Hs as [|? ? Hst Hle]; subst.
  cbn [filter]. unfold below at 1. destruct (Flt.ltb h L) eqn:E.
  - destruct i as [|i]; cbn [nth length].
    + split; [lia|auto].
    + rewrite IH; auto; [lia|cbn in Hi; lia].
  - assert (Hall : Forall (fun x => below L x = false) t).
    { rewrite Forall_forall in *. intros x Hx. unfold below.
      pose proof (Hle x Hx) as Hhx. rewrite leb64 in Hhx by auto.
      rewrite ltb64 in E |- * by auto.
      apply Z.leb_le in Hhx. apply Z.ltb_ge in E. apply Z.ltb_ge. lia. }
    rewrite (filter_none _ _ Hall). cbn [length]. split; [|lia].
    intros Hlt. exfalso. destruct i as [|i]; cbn [nth] in Hlt; [congruence|].
    rewrite Forall_forall in Hall.
    assert (Hin : In (nth i t S754_nan) t) by (apply nth_In; cbn in Hi; lia).
    apply Hall in Hin. unfold below in Hin. congruence.
Qed.

Lemma count_nonneg p data : 0 <= count p data.
Proof. unfold count. lia. Qed.

Lemma count_le_size p data : count p data <= size data.
Proof. unfold count, size. pose proof (filter_length_le p data). lia. Qed.

Lemma count_cons p x data :
  count p (x :: data) = (if p x then 1 else 0) + count p data.
Proof. unfold count. cbn [filter]. destruct (p x); cbn [length]; lia. Qed.

Lemma count_below_mono data L1 L2 :
  Forall (wf binary64) data -> wf binary64 L1 -> wf binary64 L2 ->
  val binary64 L1 <= val binary64 L2 ->
  count (below L1) data <= count (below L2) data.
Proof.
  intros Hwf H1 H2 Hle. induction Hwf as [|x t Hx _ IH]; [reflexivity|].
  rewrite !count_cons. unfold below at 1 3. rewrite !ltb64 by auto.
  destruct (Z.ltb_spec (val binary64 x) (val binary64 L1)),
           (Z.ltb_spec (val binary64 x) (val binary64 L2)); lia.
Qed.

Lemma count_within data L1 L2 :
  Forall (wf binary64) data -> wf binary64 L1 -> wf binary64 L2 ->
  val binary64 L1 <= val binary64 L2 ->
  count (below L2) data - count (below L1) data = count (within L1 L2) data.
Proof.
  intros Hwf H1 H2 Hle. induction Hwf as [|x t Hx _ IH]; [reflexivity|].
  rewrite !count_cons. unfold below at 1 3, within at 1.
  rewrite !ltb64, leb64 by auto.
  destruct (Z.ltb_spec (val binary64 x) (val binary64 L1)),
           (Z.ltb_spec (val binary64 x) (val binary64 L2)),
           (Z.leb_spec (val binary64 L1) (val binary64 x)); cbn [andb]; lia.
Qed.

Lemma count_above data L :
  Forall (wf binary64) data -> wf binary64 L ->
  size data - count (below L) data = count (at_or_above L) data.
Proof.
  intros Hwf HL. induction Hwf as [|x t Hx _ IH]; [reflexivity|].
  rewrite !count_cons. unfold size in *. cbn [length]. rewrite Nat2Z.inj_succ.
  unfold below at 1, at_or_above at 1. rewrite ltb64, leb64 by auto.
  destruct (Z.ltb_spec (val binary64 x) (val binary64 L)),
           (Z.leb_spec (val binary64 L) (val binary64 x)); lia.
Qed.

Lemma count_below_eq data L1 L2 :
  Forall (wf binary64) data -> wf binary64 L1 -> wf binary64 L2 ->
  val binary64 L1 = val binary64 L2 ->
  count (below L1) data = count (below L2) data.
Proof.
  intros Hwf H1 H2 Heq.
  pose proof (count_below_mono data L1 L2 Hwf H1 H2 ltac:(lia)).
  pose proof (count_below_mono data L2 L1 Hwf H2 H1 ltac:(lia)). lia.
Qed.

(** On sorted samples the search started at or before the boundary of
    [L] returns the number of samples below [L]. *)
Lemma lower_bound_sorted data L iter :
  samples data -> wf binary64 L ->
  Z.of_nat iter <= count (below L) data ->
  Z.of_nat (lower_bound data iter (length data) L) = count (below L) data.
Proof.
  intros Hs HL Hit. unfold count in *.
  rewrite (lower_bound_partition data L (length (filter (below L) data)) iter).
  - reflexivity.
  - apply sorted_partition; auto.
  - pose proof (filter_length_le (below L) data). lia.
Qed.

(** ** The boundaries [min + stride * i] *)

Lemma wf_zero f s : wf f (S754_zero s).
Proof. split; reflexivity. Qed.

Lemma stride_positive stride :
  wf binary64 stride -> Flt.ltb Flt.zero stride = true -> 0 < val binary64 stride.
Proof.
  intros Hs Hpos. unfold Flt.zero in Hpos.
  rewrite (ltb64 _ _ (wf_zero binary64 false) Hs) in Hpos.
  apply Z.ltb_lt in Hpos. exact Hpos.
Qed.

Lemma step_wf stride i : 0 <= i <= 2 ^ 64 ->
  wf binary64 stride -> finite stride = true ->
  wf binary64 (Flt.mul f64 stride (Flt.of_Z f64 i)).
Proof.
  intros Hi Hs Fs.
  apply (mul_val binary64 f64_prec f64_emax); auto.
  - apply (of_Z_val binary64 f64_prec f64_emax).
  - apply (of_Z_finite binary64 f64_prec f64_emax i 64); [cbn; lia|lia].
Qed.

Lemma step_mono stride i j : 0 <= i <= j -> j <= 2 ^ 64 ->
  wf binary64 stride -> finite stride = true -> 0 <= val binary64 stride ->
  val binary64 (Flt.mul f64 stride (Flt.of_Z f64 i))
  <= val binary64 (Flt.mul f64 stride (Flt.of_Z f64 j)).
Proof.
  intros Hi Hj Hs Fs Ps.
  apply (mul_mono_r binary64 f64_prec f64_emax); auto.
  - apply (of_Z_val binary64 f64_prec f64_emax).
  - apply (of_Z_finite binary64 f64_prec f64_emax i 64); [cbn; lia|lia].
  - apply (of_Z_val binary64 f64_prec f64_emax).
  - apply (of_Z_finite binary64 f64_prec f64_emax j 64); [cbn; lia|lia].
  - apply (of_Z_mono binary64 f64_prec f64_emax). lia.
Qed.

Lemma level_wf min stride i : window min stride -> 0 <= i <= 2 ^ 64 ->
  wf binary64 (level min stride i).
Proof.
  intros (Hm & Fm & Hs & Fs & Hpos) Hi. unfold level.
  apply (add_mono_r binary64 f64_prec f64_emax min _ _ Hm Fm
           (step_wf stride i Hi Hs Fs) (step_wf stride i Hi Hs Fs) ltac:(lia)).
Qed.

Lemma level_mono min stride i j : window min stride -> 0 <= i <= j -> j <= 2 ^ 64 ->
  val binary64 (level min stride i) <= val binary64 (level min stride j).
Proof.
  intros (Hm & Fm & Hs & Fs & Hpos) Hi Hj. unfold level.
  apply (add_mono_r binary64 f64_prec f64_emax min _ _ Hm Fm
           (step_wf stride i ltac:(lia) Hs Fs) (step_wf stride j ltac:(lia) Hs Fs)).
  apply step_mono; auto. pose proof (stride_positive stride Hs Hpos). lia.
Qed.

Lemma level_0 min stride : window min stride ->
  val binary64 (level min stride 0) = val binary64 min.
Proof.
  intros (Hm & Fm & Hs & Fs & Hpos). unfold level.
  change (Flt.of_Z f64 0) with (S754_zero false).
  destruct stride as [s|s|?|s m e]; try discriminate;
  destruct min as [s'|s'|?|s' m' e']; try discriminate; try reflexivity.
  all: destruct s, s'; reflexivity.
Qed.

(** ** compute_histogram on sorted samples *)

Section Histogram.

Variables (data : list spec_float) (min stride : spec_float).
Hypothesis Hdata : samples data.
Hypothesis Hwin : window min stride.

Let cnt (i : Z) : Z := count (below (level min stride i)) data.

Lemma cnt_mono i j : 0 <= i <= j -> j <= 2 ^ 64 -> cnt i <= cnt j.
Proof.
  intros Hi Hj. unfold cnt. destruct Hdata as [Hwf _].
  apply count_below_mono; auto.
  - apply level_wf; auto; lia.
  - apply level_wf; auto; lia.
  - apply level_mono; auto.
Qed.

Lemma histogram_loop_sorted k :
  forall i iter histo,
    0 <= i -> i + Z.of_nat k <= 2 ^ 64 ->
    Z.of_nat iter <= cnt i ->
    let r := histogram_loop k data min stride i iter histo in
    Z.of_nat (fst r) = (if (k =? 0)%nat then Z.of_nat iter else cnt (i + Z.of_nat k - 1)) /\
    exists es,
      snd r = histo ++ es /\ length es = k /\
      ((0 < k)%nat -> nth 0 es 0 = cnt i - Z.of_nat iter) /\
      (forall j, (1 <= j < k)%nat ->
                 nth j es 0 = cnt (i + Z.of_nat j) - cnt (i + Z.of_nat j - 1)).
Proof.
  induction k as [|k IH]; intros i iter histo Hi Hk Hit; cbn [histogram_loop].
  - cbn. split; auto. exists []. rewrite app_nil_r. repeat split; auto; intros; lia.
  - pose proof (lower_bound_sorted data (level min stride i) iter Hdata
                  (level_wf min stride i Hwin ltac:(lia)) Hit) as Hlb.
    fold (cnt i) in Hlb.
    set (iter' := lower_bound data iter (length data) (level min stride i)) in *.
    destruct (IH (i + 1) iter' (histo ++ [Z.of_nat iter' - Z.of_nat iter])
                ltac:(lia) ltac:(lia)) as (Hfst & es & Hsnd & Hlen & H0 & Hj).
    { rewrite Hlb. apply cnt_mono; lia. }
    cbv zeta. split.
    + rewrite Hfst. cbn [Nat.eqb]. destruct (Nat.eqb_spec k 0) as [Hk0|Hk0].
      * rewrite Hlb. f_equal. lia.
      * f_equal. lia.
    + exists ((Z.of_nat iter' - Z.of_nat iter) :: es). repeat split.
      * rewrite Hsnd, <- app_assoc. reflexivity.
      * cbn. lia.
      * intros _. cbn. lia.
      * intros j Hjr. destruct j as [|j]; [lia|]. cbn [nth].
        destruct j as [|j].
        -- rewrite H0 by lia. rewrite Hlb. f_equal; f_equal; lia.
        -- rewrite Hj by lia. f_equal; f_equal; lia.
Qed.

Lemma compute_histogram_sorted bins :
  0 <= bins -> bins + 1 < 2 ^ 64 ->
  let h := compute_histogram data min stride bins in
  Z.of_nat (length h) = bins + 2 /\
  nth 0 h 0 = count (below min) data /\
  (forall i, 1 <= i <= bins ->
     nth (Z.to_nat i) h 0
     = count (within (level min stride (i - 1)) (level min stride i)) data) /\
  nth (Z.to_nat (bins + 1)) h 0 = count (at_or_above (level min stride bins)) data.
Proof.
  intros Hb Hb2. unfold compute_histogram.
  rewrite wrap64_small by lia.
  pose proof (histogram_loop_sorted (Z.to_nat (bins + 1)) 0 0 []
                ltac:(lia) ltac:(lia)) as H.
  cbv zeta in H.
  destruct (histogram_loop (Z.to_nat (bins + 1)) data min stride 0 0 []) as [iter histo].
  cbn [fst snd] in H. destruct H as (Hfst & es & Hsnd & Hlen & H0 & Hj).
  { apply count_nonneg. }
  cbn [app] in Hsnd. subst histo.
  destruct (Nat.eqb_spec (Z.to_nat (bins + 1)) 0) as [E|_]; [lia|].
  rewrite Z2Nat.id in Hfst by lia.
  replace (0 + (bins + 1) - 1) with bins in Hfst by lia.
  destruct Hdata as [Hwf Hsorted].
  cbv zeta. repeat split.
  - rewrite length_app, Hlen. cbn. lia.
  - rewrite app_nth1 by lia. rewrite H0 by lia. cbn. rewrite Z.sub_0_r.
    apply count_below_eq; auto.
    + apply level_wf; auto; lia.
    + apply Hwin.
    + apply level_0; auto.
  - intros i Hi. rewrite app_nth1 by lia. rewrite Hj by lia.
    rewrite Z2Nat.id by lia. cbn [Z.add]. unfold cnt.
    replace (0 + i) with i by lia.
    apply count_within; auto.
    + apply level_wf; auto; lia.
    + apply level_wf; auto; lia.
    + apply level_mono; auto; lia.
  - rewrite app_nth2 by lia. rewrite Hlen.
    replace (Z.to_nat (bins + 1) - Z.to_nat (bins + 1))%nat with 0%nat by lia.
    cbn [nth]. rewrite Hfst. unfold cnt.
    apply count_above; auto. apply level_wf; auto; lia.
Qed.

End Histogram.


(** ** The largest count *)

Lemma reduce_max_ge l a : a <= fold_left Z.max l a.
Proof.
  revert a. induction l as [|x l IH]; intros a; cbn; [lia|].
  pose proof (IH (Z.max a x)). lia.
Qed.

Lemma reduce_max_upper l a : Forall (fun c => c <= fold_left Z.max l a) l.
Proof.
  revert a. induction l as [|x l IH]; intros a; cbn; constructor.
  - pose proof (reduce_max_ge l (Z.max a x)). lia.
  - apply IH.
Qed.

Lemma reduce_max_bound l a B : a <= B -> Forall (fun c => c <= B) l -> fold_left Z.max l a <= B.
Proof.
  revert a. induction l as [|x l IH]; intros a Ha Hl; cbn; [lia|].
  inversion Hl; subst. apply IH; auto. lia.
Qed.

Lemma reduce_max_pos l : Forall (fun c => 0 <= c) l -> Exists (fun c => c <> 0) l ->
  1 <= reduce_max l.
Proof.
  intros Hnn Hex. unfold reduce_max. pose proof (reduce_max_upper l 0) as Hup.
  rewrite Forall_forall in Hnn, Hup. apply Exists_exists in Hex.
  destruct Hex as (c & Hin & Hc). pose proof (Hnn c Hin). pose proof (Hup c Hin). lia.
Qed.

(** ** fit_histogram *)

Lemma binary_round_aux_shape prec emax s m e l :
  let r := binary_round_aux prec emax s m e l in
  r = S754_nan \/ r = S754_zero s \/ r = S754_infinity s \/
  exists m' e', r = S754_finite s m' e'.
Proof.
  cbv zeta. unfold binary_round_aux.
  destruct (shr_fexp prec emax m e l) as [mrs' e'].
  destruct (shr_fexp prec emax _ e' loc_Exact) as [mrs'' e''].
  destruct (shr_m mrs'') as [|p|p]; auto.
  destruct (Z.leb e'' (emax - prec)); [|auto].
  right; right; right. exists p, e''. reflexivity.
Qed.

(** A quotient of two values that are not negative is not negative. *)
Lemma div_not_negative f x y :
  x = S754_nan \/ sign_of x = false \/ (exists s, x = S754_zero s) ->
  y = S754_nan \/ sign_of y = false ->
  Flt.ltb (Flt.div f x y) Flt.zero = false.
Proof.
  intros Hx Hy. unfold Flt.div.
  destruct x as [sx|sx|?|sx mx ex]; destruct y as [sy|sy|?|sy my ey];
    try reflexivity; cbn [sign_of] in *;
    try (assert (sy = false) by (destruct Hy as [Hy|Hy]; [discriminate|exact Hy]); subst sy);
    try (assert (sx = false)
           by (destruct Hx as [Hx|[Hx|[s Hx]]]; [discriminate|exact Hx|discriminate]);
         subst sx);
    try (destruct sx; reflexivity); try reflexivity.
  cbn [SFdiv].
  destruct (SFdiv_core_binary (prec f) (emax f) (Zpos mx) ex (Zpos my) ey) as [[mz ez] lz].
  cbn [xorb].
  destruct (binary_round_aux_shape (prec f) (emax f) false mz ez lz)
    as [E|[E|[E|(m' & e' & E)]]]; rewrite E; reflexivity.
Qed.

Lemma wf_sign_cases f x : wf f x ->
  0 <= val f x ->
  1 < prec f -> prec f < emax f ->
  sign_of x = false \/ (exists s, x = S754_zero s).
Proof.
  intros [Hv Hn] Hx Hp He.
  destruct x as [s|s|?|s m e]; try discriminate; cbn [sign_of]; eauto.
  - destruct s; auto. exfalso. unfold val in Hx. cbn [ordv cond_Zopp] in Hx.
    pose proof (pow_emax_pos (prec f) (emax f) ltac:(lia) He (scale f)
                  (scale_le_emin f Hp He)). lia.
  - destruct s; auto. exfalso. unfold val in Hx. cbn [ordv cond_Zopp] in Hx. cbn in Hv.
    pose proof (finite_value_bounds (prec f) (emax f) ltac:(lia) He (scale f)
                  (scale_le_emin f Hp He) m e Hv). lia.
Qed.

(** The difference of two ordered values is NaN (infinity minus infinity)
    or not negative. *)
Lemma sub_not_negative x y :
  wf binary64 x -> wf binary64 y -> val binary64 y <= val binary64 x ->
  let d := Flt.sub f64 x y in
  d = S754_nan \/ (wf binary64 d /\ 0 <= val binary64 d).
Proof.
  intros Wx Wy Hle. cbv zeta. unfold f64.
  pose proof (pow_emax_pos 53 1024 ltac:(lia) ltac:(lia) (scale binary64)
                (scale_le_emin binary64 f64_prec f64_emax)) as Hpe.
  change (2 ^ (1024 - scale binary64)) with (2 ^ (emax binary64 - scale binary64)) in Hpe.
  destruct (finite x) eqn:Fx, (finite y) eqn:Fy.
  - right. destruct (sub_val binary64 f64_prec f64_emax x y Wx Wy Fx Fy) as [Wd Vd].
    split; [exact Wd|]. rewrite Vd. rewrite <- (RN_0 binary64 f64_prec f64_emax).
    apply (RN_mono binary64 f64_prec f64_emax). lia.
  - pose proof (proj1 (val_finite binary64 f64_prec f64_emax x Wx) Fx) as Bx.
    destruct (infinite_cases binary64 f64_prec f64_emax y Wy Fy) as [[-> E]|[-> E]]; [lia|].
    right. destruct x as [s|s|?|s m e]; try discriminate; cbn; (split; [split; reflexivity|]);
      unfold val; cbn [ordv cond_Zopp]; lia.
  - pose proof (proj1 (val_finite binary64 f64_prec f64_emax y Wy) Fy) as By.
    destruct (infinite_cases binary64 f64_prec f64_emax x Wx Fx) as [[-> E]|[-> E]]; [|lia].
    right. destruct y as [s|s|?|s m e]; try discriminate; cbn; (split; [split; reflexivity|]);
      unfold val; cbn [ordv cond_Zopp]; lia.
  - destruct (infinite_cases binary64 f64_prec f64_emax x Wx Fx) as [[-> E]|[-> E]];
    destruct (infinite_cases binary64 f64_prec f64_emax y Wy Fy) as [[-> E']|[-> E']]; try lia; auto;
    right; cbn; (split; [split; reflexivity|]); unfold val; cbn [ordv cond_Zopp]; lia.
Qed.

Lemma of_Z_sign f z : 0 <= z ->
  1 < prec f -> prec f < emax f -> sign_of (Flt.of_Z f z) = false.
Proof.
  intros Hz Hp He. unfold Flt.of_Z. destruct z as [|p|p]; try lia; [reflexivity|].
  cbn [binary_normalize].
  apply (binary_round_spec (prec f) (emax f) ltac:(lia) He (scale f)
           (scale_le_emin f Hp He) false p 0).
  pose proof (scale_neg f Hp He). lia.
Qed.

(** The trimming loops *)

Lemma histo_at_some histo i : 0 <= i < size histo -> exists c, histo_at histo i = Some c.
Proof.
  intros H. unfold histo_at. destruct (at_index_some histo i H) as (c & Hc & _). eauto.
Qed.

Lemma min_level_loop_spec histo bins thresh :
  0 <= bins -> bins + 1 < 2 ^ 64 -> size histo = bins + 2 ->
  forall fuel min_level,
    1 <= min_level <= bins + 1 -> bins + 1 - min_level < Z.of_nat fuel ->
    exists r, min_level_loop fuel histo bins thresh min_level = Some r /\
              min_level <= r <= bins + 1.
Proof.
  intros Hb Hb2 Hsz. induction fuel as [|fuel IH]; intros ml Hml Hf; [lia|].
  cbn [min_level_loop]. rewrite wrap64_small by lia.
  destruct (Z.ltb_spec ml (bins + 1)) as [Hlt|Hge].
  - destruct (histo_at_some histo ml ltac:(lia)) as (c & ->).
    destruct (c <? thresh).
    + rewrite wrap64_small by lia.
      destruct (IH (ml + 1) ltac:(lia) ltac:(lia)) as (r & Hr & Hrr).
      exists r. split; [exact Hr|lia].
    + exists ml. split; [reflexivity|lia].
  - exists ml. split; [reflexivity|lia].
Qed.

Lemma max_level_loop_spec histo bins thresh min_level :
  0 <= bins -> bins + 1 < 2 ^ 64 -> size histo = bins + 2 -> 1 <= min_level ->
  forall fuel max_level,
    min_level <= max_level <= bins + 1 -> max_level - min_level < Z.of_nat fuel ->
    exists r, max_level_loop fuel histo min_level thresh max_level = Some r /\
              min_level <= r <= max_level.
Proof.
  intros Hb Hb2 Hsz Hml. induction fuel as [|fuel IH]; intros xl Hxl Hf; [lia|].
  cbn [max_level_loop].
  destruct (Z.ltb_spec min_level xl) as [Hlt|Hge].
  - destruct (histo_at_some histo xl ltac:(lia)) as (c & ->).
    destruct (c <? thresh).
    + rewrite wrap64_small by lia.
      destruct (IH (xl - 1) ltac:(lia) ltac:(lia)) as (r & Hr & Hrr).
      exists r. split; [exact Hr|lia].
    + exists xl. split; [reflexivity|lia].
  - exists xl. split; [reflexivity|lia].
Qed.

(** The indices never cross. *)
Lemma trim_levels_spec histo bins thresh :
  0 <= bins -> bins + 1 < 2 ^ 64 -> size histo = bins + 2 ->
  exists min_level max_level,
    trim_levels histo bins thresh = Some (min_level, max_level) /\
    1 <= min_level <= max_level /\ max_level <= bins + 1.
Proof.
  intros Hb Hb2 Hsz. unfold trim_levels. rewrite wrap64_small by lia.
  destruct (min_level_loop_spec histo bins thresh Hb Hb2 Hsz
              (S (Z.to_nat (bins + 1))) 1 ltac:(lia) ltac:(lia)) as (ml & Hml & Hmlr).
  rewrite Hml.
  destruct (max_level_loop_spec histo bins thresh ml Hb Hb2 Hsz ltac:(lia)
              (S (Z.to_nat (bins + 1))) (bins + 1) ltac:(lia) ltac:(lia)) as (xl & Hxl & Hxlr).
  rewrite Hxl. exists ml, xl. split; [reflexivity|lia].
Qed.

(** The threshold *)

Lemma reduce_max_counts histo n :
  sum_counts histo = n -> Forall (fun c => 0 <= c) histo ->
  0 <= reduce_max histo <= n.
Proof.
  intros Hsum Hnn. unfold reduce_max. split; [apply reduce_max_ge|].
  assert (Hall : Forall (fun c => c <= n) histo).
  { subst n. clear -Hnn. induction Hnn as [|c l Hc Hl IH]; constructor.
    - unfold sum_counts. cbn. fold (sum_counts l).
      assert (0 <= sum_counts l).
      { clear -Hl. induction Hl; cbn; [lia|]. unfold sum_counts in *. cbn. lia. }
      lia.
    - eapply Forall_impl; [|exact IH]. intros a Ha. cbn in *.
      unfold sum_counts in *. cbn. lia. }
  apply reduce_max_bound; auto.
  subst n. clear -Hnn. induction Hnn; unfold sum_counts in *; cbn; lia.
Qed.

Lemma fit_threshold_spec most frac :
  0 <= most <= 2 ^ 60 -> fraction frac ->
  exists thresh, fit_threshold most frac = Some thresh /\ 0 <= thresh <= 2 ^ 60.
Proof.
  intros Hm (Wf & H0 & H1). unfold fit_threshold, f32.
  pose proof (unit_pos binary32 f32_prec f32_emax) as Hu.
  unfold Flt.zero in H0.
  rewrite (leb_val binary32 f32_prec f32_emax _ _ (wf_zero binary32 false) Wf) in H0.
  destruct (of_Z_val binary32 f32_prec f32_emax 1) as [W1 _].
  rewrite (leb_val binary32 f32_prec f32_emax _ _ Wf W1) in H1.
  apply Z.leb_le in H0, H1.
  change (val binary32 (S754_zero false)) with 0 in H0.
  change (val binary32 (Flt.of_Z binary32 1)) with (unit binary32) in H1.
  assert (Ff : finite frac = true).
  { apply (proj2 (val_finite binary32 f32_prec f32_emax frac Wf)).
    pose proof (pow_unit_lt binary32 f32_prec f32_emax 0 ltac:(cbn; lia)) as H.
    change (2 ^ 0) with 1 in H. lia. }
  destruct (of_Z_val binary32 f32_prec f32_emax most) as [Wm Vm].
  assert (Fm : finite (Flt.of_Z binary32 most) = true).
  { apply (of_Z_finite binary32 f32_prec f32_emax most 60); [cbn; lia|lia]. }
  pose proof (of_Z_nonneg binary32 f32_prec f32_emax most ltac:(lia)) as Pm.
  pose proof (of_Z_mono binary32 f32_prec f32_emax most (2 ^ 60) ltac:(lia)) as Hm60.
  rewrite (of_Z_pow2 binary32 f32_prec f32_emax 60) in Hm60 by (cbn; lia).
  destruct (mul_val binary32 f32_prec f32_emax _ frac Wm Wf Fm Ff) as [Wx Vx].
  assert (Hx : 0 <= val binary32 (Flt.mul binary32 (Flt.of_Z binary32 most) frac)
               <= 2 ^ 60 * unit binary32).
  { rewrite Vx. split.
    - rewrite <- (RN_0 binary32 f32_prec f32_emax). apply (RN_mono binary32 f32_prec f32_emax).
      apply Z.div_pos; [nia|lia].
    - apply Z.le_trans with (RN binary32 (val binary32 (Flt.of_Z binary32 most))).
      + apply (RN_mono binary32 f32_prec f32_emax).
        apply Z.div_le_upper_bound; [lia|]. nia.
      + rewrite (RN_val binary32 f32_prec f32_emax _ Wm). lia. }
  assert (Fx : finite (Flt.mul binary32 (Flt.of_Z binary32 most) frac) = true).
  { apply (proj2 (val_finite binary32 f32_prec f32_emax _ Wx)).
    pose proof (pow_unit_lt binary32 f32_prec f32_emax 60 ltac:(cbn; lia)). lia. }
  destruct (to_int_val binary32 f32_prec f32_emax _ int64_min int64_max (2 ^ 60) Wx Fx Hx
              ltac:(cbn; lia) ltac:(cbn; lia)) as (z & Hz & _ & Hzr).
  exists z. auto.
Qed.


Import internal.

(** * The histogram renderer *)

(** ** Quantisation of one bin *)

Lemma one_f32 : Flt.of_Z f32 1 = S754_finite false 8388608 (1 - prec binary32).
Proof. reflexivity. Qed.

Lemma ten_f32 : val binary32 (Flt.of_Z f32 10) = 10 * unit binary32.
Proof. vm_compute. reflexivity. Qed.

Lemma eight_f32 : val binary32 (Flt.of_Z f32 8) = 8 * unit binary32.
Proof. vm_compute. reflexivity. Qed.

(** A value in [0, 1] times a small integer constant. *)
Lemma mul_small x c k :
  wf binary32 x -> finite x = true -> 0 <= val binary32 x <= unit binary32 ->
  val binary32 (Flt.of_Z f32 c) = k * unit binary32 -> 0 <= k <= 16 ->
  let t := Flt.mul f32 x (Flt.of_Z f32 c) in
  wf binary32 t /\ finite t = true /\ 0 <= val binary32 t <= k * unit binary32.
Proof.
  intros Wx Fx Hx Hc Hk. unfold f32 in *.
  pose proof (unit_pos binary32 f32_prec f32_emax) as Hu.
  destruct (of_Z_val binary32 f32_prec f32_emax c) as [Wc Vc].
  assert (Fc : finite (Flt.of_Z f32 c) = true).
  { apply (proj2 (val_finite binary32 f32_prec f32_emax _ Wc)). rewrite Hc.
    pose proof (pow_unit_lt binary32 f32_prec f32_emax 4 ltac:(cbn; lia)) as H.
    change (2 ^ 4) with 16 in H. nia. }
  destruct (mul_val binary32 f32_prec f32_emax x _ Wx Wc Fx Fc) as [Wt Vt].
  cbv zeta.
  assert (Ht : 0 <= val binary32 (Flt.mul binary32 x (Flt.of_Z binary32 c)) <= k * unit binary32).
  { rewrite Vt. split.
    - rewrite <- (RN_0 binary32 f32_prec f32_emax). apply (RN_mono binary32 f32_prec f32_emax).
      apply Z.div_pos; [nia|lia].
    - apply Z.le_trans with (RN binary32 (val binary32 (Flt.of_Z binary32 c))).
      + apply (RN_mono binary32 f32_prec f32_emax).
        apply Z.div_le_upper_bound; [lia|]. rewrite Hc. nia.
      + rewrite (RN_val binary32 f32_prec f32_emax _ Wc). lia. }
  split; [exact Wt|]. split; [|exact Ht].
  apply (proj2 (val_finite binary32 f32_prec f32_emax _ Wt)).
  pose proof (pow_unit_lt binary32 f32_prec f32_emax 4 ltac:(cbn; lia)) as H.
  change (2 ^ 4) with 16 in H. nia.
Qed.

Lemma histogram_max bins : histogram bins -> 1 <= reduce_max bins <= int64_max.
Proof.
  intros (Hsz & Hr & Hex). split.
  - apply reduce_max_pos; auto. eapply Forall_impl; [|exact Hr]. cbn. lia.
  - apply reduce_max_bound; [cbn; lia|]. eapply Forall_impl; [|exact Hr]. cbn. lia.
Qed.

(** The fill levels of a bin with count [value]: the scaled value is at
    most one, so there are at most [num_rows] full rows and at most eight
    eighths; both are the floor of the binary32 product. *)
Lemma bin_quantised min stride bins value :
  histogram bins -> 0 <= value <= reduce_max bins ->
  let p := make min stride bins in
  let x := scaled_value p value in
  0 <= val binary32 x <= unit binary32 /\
  exists num_full eighths,
    num_full_of p x = Some num_full /\
    eighths_of x = Some eighths /\
    num_full
    = val binary32 (Flt.mul f32 x (Flt.of_Z f32 (m_num_rows p))) / unit binary32 /\
    eighths
    = val binary32 (Flt.mul f32 (Flt.fmod1 f32 x) (Flt.of_Z f32 8)) / unit binary32 /\
    0 <= num_full <= m_num_rows p /\ 0 <= eighths <= 8.
Proof.
  intros Hh Hv. pose proof (histogram_max bins Hh) as HM. cbv zeta.
  unfold scaled_value, num_full_of, eighths_of. cbn [make m_scale_factor m_num_rows].
  rewrite one_f32. unfold f32 in *.
  destruct (scaled_le_one binary32 f32_prec f32_emax 8388608 value (reduce_max bins)
              ltac:(reflexivity) ltac:(cbn; lia) Hv ltac:(unfold int64_max in HM; lia))
    as (Wx & Fx & Hx).
  set (x := Flt.mul binary32 (Flt.of_Z binary32 value)
              (Flt.div binary32 (S754_finite false 8388608 (1 - prec binary32))
                 (Flt.of_Z binary32 (reduce_max bins)))) in *.
  destruct (mul_small x 10 10 Wx Fx Hx ten_f32 ltac:(lia)) as (Wt & Ft & Ht).
  destruct (to_int_val binary32 f32_prec f32_emax _ 0 size_max 10 Wt Ft Ht
              ltac:(lia) ltac:(cbn; lia)) as (nf & Hnf & Enf & Hnfr).
  destruct (fmod1_val binary32 f32_prec f32_emax x Wx Fx ltac:(lia)) as (Wy & Fy & Hy).
  destruct (mul_small (Flt.fmod1 binary32 x) 8 8 Wy Fy ltac:(lia) eight_f32 ltac:(lia))
    as (Wu & Fu & Hu).
  destruct (to_int_val binary32 f32_prec f32_emax _ 0 255 8 Wu Fu Hu
              ltac:(lia) ltac:(lia)) as (e8 & He8 & Ee8 & He8r).
  split; [exact Hx|].
  exists nf, e8. split; [exact Hnf|]. split; [exact He8|].
  split; [exact Enf|]. split; [exact Ee8|]. lia.
Qed.

(** ** The chart buffer *)

Lemma same_params_refl p : same_params p p.
Proof. repeat split. Qed.

Lemma same_params_trans p q r : same_params p q -> same_params q r -> same_params p r.
Proof. unfold same_params. intuition congruence. Qed.

Lemma length_update {A : Type} (l : list A) i x : length (update l i x) = length l.
Proof.
  revert i. induction l as [|h t IH]; intros i; [reflexivity|].
  destruct i; cbn; [reflexivity|]. rewrite IH. reflexivity.
Qed.

Lemma nth_update {A : Type} (l : list A) i j x d :
  (i < length l)%nat ->
  nth j (update l i x) d = if Nat.eqb j i then x else nth j l d.
Proof.
  revert i j. induction l as [|h t IH]; intros i j Hi; [cbn in Hi; lia|].
  destruct i, j; cbn; try reflexivity. apply IH. cbn in Hi. lia.
Qed.

Lemma offset_inj nb r b r' b' :
  0 <= r < 10 -> 0 <= r' < 10 -> 0 <= b < nb -> 0 <= b' < nb ->
  Z.to_nat ((10 - 1 - r) * nb + b) = Z.to_nat ((9 - r') * nb + b') ->
  b = b' /\ r = r'.
Proof.
  intros Hr Hr' Hb Hb' E.
  assert (H1 : 0 <= (10 - 1 - r) * nb + b) by nia.
  assert (H2 : 0 <= (9 - r') * nb + b') by nia.
  apply Z2Nat.inj in E; try assumption.
  destruct (Z.lt_trichotomy r r') as [Hlt|[Heq|Hgt]].
  - exfalso. assert ((9 - r') * nb + nb <= (10 - 1 - r) * nb) by nia. lia.
  - subst r'. split; lia.
  - exfalso. assert ((10 - 1 - r) * nb + nb <= (9 - r') * nb) by nia. lia.
Qed.

Lemma write_element_spec p bin row eighths :
  chart_ok p -> 0 <= row < 10 -> 0 <= bin < m_num_bins p ->
  exists p',
    write_element p bin row eighths = Some p' /\
    chart_ok p' /\ same_params p p' /\
    forall r b, 0 <= r < 10 -> 0 <= b < m_num_bins p ->
      cell p' r b = if (b =? bin) && (r =? row) then eighths else cell p r b.
Proof.
  intros (Hr & Hn & Hsz) Hrow Hbin. unfold write_element. rewrite Hr.
  set (nb := m_num_bins p) in *.
  assert (E1 : wrap64 (wrap64 (10 - row) - 1) = 9 - row).
  { rewrite (wrap64_small (10 - row)) by lia. rewrite wrap64_small by lia. lia. }
  assert (E2 : wrap64 (wrap64 ((9 - row) * nb) + bin) = (9 - row) * nb + bin).
  { rewrite (wrap64_small ((9 - row) * nb)) by nia. apply wrap64_small. nia. }
  rewrite E1, E2.
  assert (Hoff : 0 <= (9 - row) * nb + bin) by nia.
  destruct (Z.ltb_spec ((9 - row) * nb + bin) (size (m_chart p))) as [Hlt|Hge]; [|nia].
  eexists. split; [reflexivity|]. split; [|split].
  - unfold chart_ok, set_chart, size in *. cbn [m_chart m_num_rows m_num_bins].
    rewrite length_update. auto.
  - repeat split.
  - intros r b Hr' Hb'. unfold cell, set_chart. cbn [m_chart m_num_rows m_num_bins].
    rewrite Hr. fold nb.
    rewrite nth_update by (unfold size in Hlt; lia).
    destruct (Nat.eqb_spec (Z.to_nat ((10 - 1 - r) * nb + b)) (Z.to_nat ((9 - row) * nb + bin)))
      as [E|E].
    + destruct (offset_inj nb r b row bin Hr' Hrow Hb' Hbin E) as [-> ->].
      rewrite !Z.eqb_refl. reflexivity.
    + destruct (Z.eqb_spec b bin) as [->|]; [|reflexivity].
      destruct (Z.eqb_spec r row) as [->|]; [|reflexivity].
      exfalso. apply E. f_equal; lia.
Qed.

Lemma fill_rows_spec k : forall p bin row0,
  chart_ok p -> 0 <= bin < m_num_bins p -> 0 <= row0 -> row0 + Z.of_nat k <= 10 ->
  exists p',
    fill_rows k p bin row0 = Some p' /\
    chart_ok p' /\ same_params p p' /\
    forall r b, 0 <= r < 10 -> 0 <= b < m_num_bins p ->
      cell p' r b = if (b =? bin) && (row0 <=? r) && (r <? row0 + Z.of_nat k)
                    then 8 else cell p r b.
Proof.
  induction k as [|k IH]; intros p bin row0 Hok Hbin Hrow Hk.
  - exists p. cbn [fill_rows]. split; [reflexivity|]. split; [exact Hok|].
    split; [apply same_params_refl|]. intros r b _ _.
    destruct (b =? bin), (Z.leb_spec row0 r), (Z.ltb_spec r (row0 + Z.of_nat 0));
      cbn [andb]; try reflexivity; lia.
  - cbn [fill_rows].
    destruct (write_element_spec p bin row0 8 Hok ltac:(lia) Hbin)
      as (p1 & Hw & Hok1 & Hsp1 & Hc1).
    rewrite Hw. rewrite wrap64_small by lia.
    assert (Hnb : m_num_bins p1 = m_num_bins p) by apply Hsp1.
    destruct (IH p1 bin (row0 + 1) Hok1 ltac:(lia) ltac:(lia) ltac:(lia))
      as (p2 & Hf & Hok2 & Hsp2 & Hc2).
    exists p2. split; [exact Hf|]. split; [exact Hok2|].
    split; [eapply same_params_trans; eauto|].
    intros r b Hr Hb. rewrite Hc2 by lia. rewrite Hc1 by lia.
    destruct (Z.eqb_spec b bin); cbn [andb]; [|reflexivity].
    destruct (Z.leb_spec (row0 + 1) r), (Z.ltb_spec r (row0 + 1 + Z.of_nat k)),
             (Z.eqb_spec r row0), (Z.leb_spec row0 r),
             (Z.ltb_spec r (row0 + Z.of_nat (S k))); cbn [andb]; try reflexivity; lia.
Qed.

Lemma render_bin_spec p bin num_full eighths :
  chart_ok p -> 0 <= bin < m_num_bins p ->
  bin_num_full p bin = Some num_full -> bin_eighths p bin = Some eighths ->
  0 <= num_full <= 10 ->
  exists p',
    render_bin p bin = Some p' /\
    chart_ok p' /\ same_params p p' /\
    forall r b, 0 <= r < 10 -> 0 <= b < m_num_bins p ->
      cell p' r b = if b =? bin
                    then (if r <? num_full then 8
                          else if r =? num_full then eighths else cell p r b)
                    else cell p r b.
Proof.
  intros Hok Hbin Hnf He8 Hr. unfold render_bin, bin_num_full, bin_eighths in *.
  rewrite wrap64_small by (destruct Hok as (_ & ? & _); lia).
  destruct (at_index (m_bins p) (bin + 1)) as [value|]; [|discriminate].
  rewrite Hnf, He8.
  assert (Hrows : m_num_rows p = 10) by apply Hok.
  rewrite Hrows. destruct (Z.leb_spec num_full 10); [|lia].
  destruct (fill_rows_spec (Z.to_nat num_full) p bin 0 Hok Hbin ltac:(lia) ltac:(lia))
    as (p1 & Hf & Hok1 & Hsp1 & Hc1).
  rewrite Hf.
  assert (Hrows1 : m_num_rows p1 = 10) by apply Hok1.
  assert (Hnb : m_num_bins p1 = m_num_bins p) by apply Hsp1.
  rewrite Hrows1. rewrite Z2Nat.id in Hc1 by lia.
  destruct (Z.ltb_spec num_full 10) as [Hlt|Hge].
  - destruct (write_element_spec p1 bin num_full eighths Hok1 ltac:(lia) ltac:(lia))
      as (p2 & Hw & Hok2 & Hsp2 & Hc2).
    exists p2. split; [exact Hw|]. split; [exact Hok2|].
    split; [eapply same_params_trans; eauto|].
    intros r b Hr' Hb. rewrite Hc2 by lia. rewrite Hc1 by lia.
    destruct (Z.eqb_spec b bin); cbn [andb]; [|reflexivity].
    destruct (Z.eqb_spec r num_full), (Z.leb_spec 0 r), (Z.ltb_spec r (0 + num_full)),
             (Z.ltb_spec r num_full); cbn [andb]; try reflexivity; lia.
  - exists p1. split; [reflexivity|]. split; [exact Hok1|]. split; [exact Hsp1|].
    intros r b Hr' Hb. rewrite Hc1 by lia.
    destruct (Z.eqb_spec b bin); cbn [andb]; [|reflexivity].
    destruct (Z.eqb_spec r num_full), (Z.leb_spec 0 r), (Z.ltb_spec r (0 + num_full)),
             (Z.ltb_spec r num_full); cbn [andb]; try reflexivity; lia.
Qed.

Lemma same_params_levels p p' bin : same_params p p' ->
  bin_num_full p' bin = bin_num_full p bin /\ bin_eighths p' bin = bin_eighths p bin.
Proof.
  intros (H1 & H2 & H3 & H4).
  unfold bin_num_full, bin_eighths, num_full_of, scaled_value. rewrite H1, H2, H4. auto.
Qed.

(** The bin loop: every column it visits gets its levels, the others are
    left alone. *)
Lemma render_bins_spec k : forall p bin0,
  chart_ok p -> 0 <= bin0 -> bin0 + Z.of_nat k <= m_num_bins p ->
  (forall b, bin0 <= b < bin0 + Z.of_nat k ->
     exists nf e8, bin_num_full p b = Some nf /\ bin_eighths p b = Some e8 /\
                   0 <= nf <= 10) ->
  exists p',
    render_bins k p bin0 = Some p' /\
    chart_ok p' /\ same_params p p' /\
    forall r b nf e8, 0 <= r < 10 -> 0 <= b < m_num_bins p ->
      bin_num_full p b = Some nf -> bin_eighths p b = Some e8 ->
      cell p' r b = if (bin0 <=? b) && (b <? bin0 + Z.of_nat k)
                    then (if r <? nf then 8
                          else if r =? nf then e8 else cell p r b)
                    else cell p r b.
Proof.
  induction k as [|k IH]; intros p bin0 Hok Hb0 Hk Hq.
  - exists p. cbn [render_bins]. split; [reflexivity|]. split; [exact Hok|].
    split; [apply same_params_refl|]. intros r b nf e8 _ _ _ _.
    destruct (Z.leb_spec bin0 b), (Z.ltb_spec b (bin0 + Z.of_nat 0)); cbn [andb];
      try reflexivity; lia.
  - cbn [render_bins].
    destruct (Hq bin0 ltac:(lia)) as (nf0 & e80 & Hnf0 & He80 & Hr0).
    destruct (render_bin_spec p bin0 nf0 e80 Hok ltac:(lia) Hnf0 He80 Hr0)
      as (p1 & Hrb & Hok1 & Hsp1 & Hc1).
    rewrite Hrb. rewrite wrap64_small by (destruct Hok as (_ & ? & _); lia).
    assert (Hnb : m_num_bins p1 = m_num_bins p) by apply Hsp1.
    destruct (IH p1 (bin0 + 1) Hok1 ltac:(lia) ltac:(lia)) as (p2 & Hrs & Hok2 & Hsp2 & Hc2).
    { intros b Hb. destruct (same_params_levels p p1 b Hsp1) as [-> ->]. apply Hq. lia. }
    exists p2. split; [exact Hrs|]. split; [exact Hok2|].
    split; [eapply same_params_trans; eauto|].
    intros r b nf e8 Hr Hb Hnf He8.
    destruct (same_params_levels p p1 b Hsp1) as [Hn1 He1].
    rewrite (Hc2 r b nf e8) by (try lia; congruence). rewrite Hc1 by lia.
    destruct (Z.eqb_spec b bin0) as [->|Hne].
    + assert (nf = nf0) by congruence. assert (e8 = e80) by congruence. subst.
      destruct (Z.leb_spec (bin0 + 1) bin0), (Z.ltb_spec bin0 (bin0 + 1 + Z.of_nat k)),
               (Z.leb_spec bin0 bin0), (Z.ltb_spec bin0 (bin0 + Z.of_nat (S k)));
        cbn [andb]; try reflexivity; lia.
    + destruct (Z.leb_spec (bin0 + 1) b), (Z.ltb_spec b (bin0 + 1 + Z.of_nat k)),
               (Z.leb_spec bin0 b), (Z.ltb_spec b (bin0 + Z.of_nat (S k)));
        cbn [andb]; try reflexivity; lia.
Qed.

(** ** The constructor *)

Lemma make_num_bins min stride bins : histogram bins ->
  m_num_bins (make min stride bins) = size bins - 2.
Proof. intros ((H1 & H2) & _). cbn [make m_num_bins]. apply wrap64_small. lia. Qed.

Lemma make_chart_ok min stride bins : histogram bins -> chart_ok (make min stride bins).
Proof.
  intros Hh. pose proof (make_num_bins min stride bins Hh) as Hnb.
  destruct Hh as ((H1 & H2) & _).
  unfold chart_ok. cbn [make m_num_rows m_num_bins m_chart] in *. rewrite Hnb.
  split; [reflexivity|]. split; [lia|].
  unfold size at 1. rewrite repeat_length. rewrite wrap64_small by lia. lia.
Qed.

Lemma make_cell min stride bins r b : cell (make min stride bins) r b = 0.
Proof.
  unfold cell. cbn [make m_chart].
  generalize (Z.to_nat (wrap64 (wrap64 (size bins - 2) * 10))).
  generalize (Z.to_nat ((m_num_rows (make min stride bins) - 1 - r)
                        * m_num_bins (make min stride bins) + b)).
  intros i n. revert i. induction n as [|n IH]; intros [|i]; cbn; auto.
Qed.

Lemma at_index_in {A : Type} (l : list A) i v : at_index l i = Some v -> In v l.
Proof.
  unfold at_index. destruct (_ && _); [|discriminate]. apply nth_error_In.
Qed.

Lemma make_bin_value bins b :
  histogram bins -> 0 <= b < size bins - 2 ->
  exists value, at_index bins (b + 1) = Some value /\ 0 <= value <= reduce_max bins.
Proof.
  intros Hh Hb.
  destruct (at_index_some bins (b + 1) ltac:(lia)) as (value & Hat & _).
  exists value. split; [exact Hat|].
  pose proof (at_index_in _ _ _ Hat) as Hin.
  destruct Hh as (_ & Hr & _). rewrite Forall_forall in Hr.
  pose proof (Hr value Hin). pose proof (reduce_max_upper bins 0) as Hup.
  rewrite Forall_forall in Hup. pose proof (Hup value Hin). unfold reduce_max. lia.
Qed.

Lemma make_bin_levels min stride bins b :
  histogram bins -> 0 <= b < size bins - 2 ->
  let p := make min stride bins in
  exists nf e8,
    bin_num_full p b = Some nf /\ bin_eighths p b = Some e8 /\
    0 <= nf <= 10 /\ 0 <= e8 <= 8.
Proof.
  intros Hh Hb. cbv zeta.
  destruct (make_bin_value bins b Hh Hb) as (value & Hat & Hv).
  destruct (bin_quantised min stride bins value Hh Hv)
    as (_ & nf & e8 & Hnf & He8 & _ & _ & Hr1 & Hr2).
  exists nf, e8. unfold bin_num_full, bin_eighths. cbn [make m_bins].
  rewrite Hat. cbn [make m_num_rows] in Hr1. auto.
Qed.

(** [render]'s loop succeeds and leaves every column at its levels. *)
Lemma render_bins_make min stride bins :
  histogram bins ->
  let p := make min stride bins in
  exists p',
    render_bins (Z.to_nat (m_num_bins p)) p 0 = Some p' /\
    chart_ok p' /\ same_params p p' /\
    forall r b nf e8, 0 <= r < 10 -> 0 <= b < m_num_bins p ->
      bin_num_full p b = Some nf -> bin_eighths p b = Some e8 ->
      cell p' r b = cell_level nf e8 r.
Proof.
  intros Hh. cbv zeta.
  pose proof (make_num_bins min stride bins Hh) as Hnb.
  pose proof (make_chart_ok min stride bins Hh) as Hok.
  assert (Hnb0 : 0 <= m_num_bins (make min stride bins)) by (destruct Hok as (_ & ? & _); lia).
  destruct (render_bins_spec (Z.to_nat (m_num_bins (make min stride bins)))
              (make min stride bins) 0 Hok ltac:(lia) ltac:(lia))
    as (p' & Hr & Hok' & Hsp & Hc).
  { intros b Hb.
    destruct (make_bin_levels min stride bins b Hh ltac:(lia))
      as (nf & e8 & H1 & H2 & H3 & _).
    exists nf, e8. auto. }
  exists p'. split; [exact Hr|]. split; [exact Hok'|]. split; [exact Hsp|].
  intros r b nf e8 Hrr Hb Hnf He8. rewrite (Hc r b nf e8 Hrr Hb Hnf He8).
  rewrite make_cell. unfold cell_level.
  destruct (Z.leb_spec 0 b), (Z.ltb_spec b (0 + Z.of_nat (Z.to_nat (m_num_bins (make min stride bins)))));
    cbn [andb]; try reflexivity; lia.
Qed.

(** ** render_string *)

Lemma get_row_spec p row : chart_ok p -> 0 <= row < 10 ->
  get_row p row = Some (firstn (Z.to_nat (m_num_bins p))
                          (skipn (Z.to_nat (row * m_num_bins p)) (m_chart p))).
Proof.
  intros (Hr & Hn & Hsz) Hrow. unfold get_row.
  rewrite (wrap64_small (row + 1)) by lia.
  rewrite !wrap64_small by nia.
  destruct (Z.leb_spec (row * m_num_bins p) ((row + 1) * m_num_bins p)); [|nia].
  destruct (Z.leb_spec ((row + 1) * m_num_bins p) (size (m_chart p))); [|nia].
  cbn [andb]. do 2 f_equal. f_equal. lia.
Qed.

Lemma get_row_cells p row : chart_ok p -> 0 <= row < 10 ->
  firstn (Z.to_nat (m_num_bins p)) (skipn (Z.to_nat (row * m_num_bins p)) (m_chart p))
  = chart_row p (9 - row).
Proof.
  intros (Hr & Hn & Hsz) Hrow. unfold chart_row, size in *.
  set (nb := m_num_bins p) in *.
  assert (Hlen : length (firstn (Z.to_nat nb) (skipn (Z.to_nat (row * nb)) (m_chart p)))
                 = Z.to_nat nb).
  { rewrite length_firstn, length_skipn. nia. }
  apply (nth_ext _ _ 0 0).
  - rewrite Hlen, length_map, length_seq. reflexivity.
  - intros i Hi. rewrite Hlen in Hi.
    rewrite (nth_indep (map (fun b => cell p (9 - row) (Z.of_nat b)) (seq 0 (Z.to_nat nb)))
               0 (cell p (9 - row) (Z.of_nat 0)))
      by (rewrite length_map, length_seq; lia).
    rewrite (map_nth (fun b => cell p (9 - row) (Z.of_nat b))).
    rewrite seq_nth by lia. cbn [Nat.add].
    rewrite nth_firstn. destruct (Nat.ltb_spec i (Z.to_nat nb)); [|lia].
    rewrite nth_skipn. unfold cell. rewrite Hr. fold nb. f_equal. nia.
Qed.

Lemma render_rows_spec k : forall p row buffer,
  chart_ok p -> 0 <= row -> row + Z.of_nat k <= 10 ->
  render_rows k p row buffer
  = Some (buffer ++
          concat (map (fun i => render_line (chart_row p (9 - (row + Z.of_nat i))) ++ [Byte.x0a])
                    (seq 0 k))).
Proof.
  induction k as [|k IH]; intros p row buffer Hok Hrow Hk; cbn [render_rows].
  - cbn. rewrite app_nil_r. reflexivity.
  - rewrite get_row_spec, get_row_cells by (auto; lia).
    rewrite wrap64_small by lia. rewrite IH by (auto; lia).
    assert (Hmap :
      map (fun i => render_line (chart_row p (9 - (row + 1 + Z.of_nat i))) ++ [Byte.x0a])
        (seq 0 k)
      = map (fun i => render_line (chart_row p (9 - (row + Z.of_nat i))) ++ [Byte.x0a])
          (seq 1 k)).
    { rewrite <- seq_shift, map_map. apply map_ext. intros i. do 4 f_equal. lia. }
    rewrite Hmap. cbn [seq map concat]. rewrite Z.add_0_r.
    unfold render_line, bar_newline, bar. rewrite <- !app_assoc. reflexivity.
Qed.

Lemma render_string_spec p : chart_ok p ->
  render_string p
  = Some (concat (map (fun i => render_line (chart_row p (9 - Z.of_nat i)) ++ [Byte.x0a])
                    (seq 0 10))).
Proof.
  intros Hok. unfold render_string.
  assert (Hr : m_num_rows p = 10) by apply Hok. rewrite Hr.
  change (Z.to_nat 10) with 10%nat.
  rewrite (render_rows_spec 10 p 0 [] Hok) by lia. reflexivity.
Qed.

(** ** Reading the rendered string *)

Lemma render_eighth_units e :
  utf8_units (render_eighth e) = 1%nat /\ ~ In Byte.x0a (render_eighth e).
Proof.
  unfold render_eighth.
  destruct e as [|p|p]; [| do 4 (try destruct p as [p|p|]) |];
    cbn; (split; [reflexivity|]); intuition discriminate.
Qed.

Lemma utf8_units_app a b : utf8_units (a ++ b) = (utf8_units a + utf8_units b)%nat.
Proof. unfold utf8_units. rewrite filter_app, length_app. reflexivity. Qed.

Lemma render_cells_units cells :
  utf8_units (render_cells cells) = length cells /\ ~ In Byte.x0a (render_cells cells).
Proof.
  unfold render_cells. induction cells as [|c cells [IH1 IH2]]; cbn [map concat length].
  - split; [reflexivity|]. intros [].
  - destruct (render_eighth_units c) as [H1 H2].
    rewrite utf8_units_app, H1, IH1. split; [reflexivity|].
    rewrite in_app_iff. tauto.
Qed.

Lemma render_line_units cells :
  utf8_units (render_line cells) = (length cells + 2)%nat /\
  ~ In Byte.x0a (render_line cells).
Proof.
  unfold render_line, bar. destruct (render_cells_units cells) as [H1 H2].
  rewrite !utf8_units_app, H1. split; [cbn; lia|].
  rewrite !in_app_iff. cbn. intuition discriminate.
Qed.

Lemma split_lines_line l rest acc : ~ In Byte.x0a l ->
  split_lines (l ++ Byte.x0a :: rest) acc = (acc ++ l) :: split_lines rest [].
Proof.
  revert acc. induction l as [|b l IH]; intros acc Hl; cbn [app split_lines].
  - rewrite app_nil_r. reflexivity.
  - destruct (Byte.eqb b Byte.x0a) eqn:E.
    + exfalso. apply Hl. left. apply Byte.byte_dec_bl in E. exact E.
    + rewrite IH by (intros H; apply Hl; right; exact H).
      rewrite <- app_assoc. reflexivity.
Qed.

Lemma split_lines_concat lines :
  Forall (fun l => ~ In Byte.x0a l) lines ->
  split_lines (concat (map (fun l => l ++ [Byte.x0a]) lines)) [] = lines.
Proof.
  induction 1 as [|l lines Hl _ IH]; cbn [map concat]; [reflexivity|].
  rewrite <- app_assoc. cbn [app]. rewrite split_lines_line by exact Hl.
  rewrite IH. reflexivity.
Qed.


(** ** Helpers on scaled values and on the chart buffer *)

Lemma scaled_value_wf min stride bins value :
  histogram bins -> 0 <= value <= reduce_max bins ->
  let x := scaled_value (make min stride bins) value in
  wf binary32 x /\ finite x = true /\ 0 <= val binary32 x <= unit binary32.
Proof.
  intros Hh Hv. pose proof (histogram_max bins Hh) as HM. cbv zeta.
  unfold scaled_value. cbn [make m_scale_factor]. rewrite one_f32. unfold f32.
  apply (scaled_le_one binary32 f32_prec f32_emax 8388608 value (reduce_max bins));
    [reflexivity|cbn; lia|exact Hv|unfold int64_max in HM; lia].
Qed.

Lemma concat_chunks {A : Type} (n k : nat) : forall l : list A,
  length l = (k * n)%nat ->
  concat (map (fun i => firstn n (skipn (i * n) l)) (seq 0 k)) = l.
Proof.
  induction k as [|k IH]; intros l Hl.
  - destruct l; [reflexivity|discriminate].
  - cbn [seq map concat]. rewrite <- seq_shift, map_map.
    change (skipn (0 * n) l) with l.
    transitivity (firstn n l ++ skipn n l); [|apply firstn_skipn]. f_equal.
    assert (E := IH (skipn n l) ltac:(rewrite length_skipn; lia)).
    etransitivity; [|exact E]. f_equal.
    apply map_ext. intros i. rewrite skipn_skipn. do 2 f_equal. lia.
Qed.

(** ** The levels of a bin, from its count *)

(** Scaling a non-negative finite value by a power of two is exact, short
    of overflow. *)
Lemma RN_shift_exact f y k :
  1 < prec f -> prec f < emax f ->
  wf f y -> finite y = true -> 0 <= val f y -> 0 <= k ->
  2 ^ k * val f y <= 2 ^ (emax f - scale f) ->
  RN f (2 ^ k * val f y) = 2 ^ k * val f y.
Proof.
  intros Hp He [Hv Hn] Fy Py Hk Hbig.
  assert (Hp0 : 0 < prec f) by lia.
  pose proof (scale_le_emin f Hp He) as Hse.
  assert (Hk2 : 0 < 2 ^ k) by (apply Z.pow_pos_nonneg; lia).
  destruct y as [s|s| |s m e]; try discriminate; unfold val in *; cbn [ordv] in *.
  - rewrite Z.mul_0_r. apply (RN_0 f Hp He).
  - cbn in Hv.
    destruct (finite_value_bounds (prec f) (emax f) Hp0 He (scale f) Hse m e Hv) as [Hle Hb].
    destruct s; cbn [cond_Zopp] in *; [lia|].
    destruct (bounded_inv (prec f) (emax f) Hp0 He (scale f) Hse m e Hv) as [Hc _].
    destruct (canonical_value_lt (prec f) (emax f) Hp0 He (scale f) Hse m e Hc)
      as (D1 & D2 & _).
    assert (EY : 2 ^ k * (Zpos m * 2 ^ (e - scale f)) = Zpos m * 2 ^ (e + k - scale f)).
    { replace (e + k - scale f) with (k + (e - scale f)) by lia.
      rewrite Z.pow_add_r by lia. ring. }
    rewrite EY in *.
    unfold RN, RNDs.
    destruct (Z.ltb_spec (Zpos m * 2 ^ (e + k - scale f)) 0) as [Hneg|_].
    { assert (0 < 2 ^ (e + k - scale f)) by (apply Z.pow_pos_nonneg; lia). nia. }
    unfold RNDc, RND. rewrite Zdigits2_mul_pow by lia.
    remember (Zdigits2 (Zpos m)) as d eqn:Hd.
    set (n := fexp (prec f) (emax f) (d + (e + k - scale f) + scale f) - scale f).
    assert (Hnr : 0 <= n <= e + k - scale f).
    { unfold n. rewrite fexp_unfold. rewrite emin_unfold in *. lia. }
    replace (Zpos m * 2 ^ (e + k - scale f))
      with (Zpos m * 2 ^ (e + k - scale f - n) * 2 ^ n)
      by (rewrite <- Z.mul_assoc, <- Z.pow_add_r by lia; do 2 f_equal; lia).
    rewrite rne_div_exact by lia.
    apply Z.min_l.
    replace (Zpos m * 2 ^ (e + k - scale f - n) * 2 ^ n)
      with (Zpos m * 2 ^ (e + k - scale f))
      by (rewrite <- Z.mul_assoc, <- Z.pow_add_r by lia; do 2 f_equal; lia).
    exact Hbig.
Qed.

(** The fractional part of a value between zero and one, exactly. *)
Lemma fmod1_exact f x :
  1 < prec f -> prec f < emax f ->
  wf f x -> finite x = true -> 0 <= val f x <= unit f ->
  wf f (Flt.fmod1 f x) /\ finite (Flt.fmod1 f x) = true /\
  val f (Flt.fmod1 f x) = val f x mod unit f.
Proof.
  intros Hp He Wx Fx Hx.
  assert (Hp0 : 0 < prec f) by lia.
  pose proof (scale_le_emin f Hp He) as Hse.
  pose proof (scale_neg f Hp He) as Hsn. pose proof (unit_pos f Hp He) as Hu.
  destruct (fmod1_val f Hp He x Wx Fx ltac:(lia)) as (Wy & Fy & Hy).
  split; [exact Wy|]. split; [exact Fy|].
  destruct Wx as [Hv Hn].
  destruct x as [s|s| |s m e]; try discriminate.
  - cbn [Flt.fmod1]. unfold val. cbn [ordv]. rewrite Z.mod_0_l by lia. reflexivity.
  - cbn in Hv.
    destruct (finite_value_bounds (prec f) (emax f) Hp0 He (scale f) Hse m e Hv) as [Hle Hb].
    assert (Hs : s = false).
    { destruct s; auto. unfold val in Hx. cbn [ordv cond_Zopp] in Hx. lia. }
    subst s. unfold val in Hx |- *. cbn [ordv cond_Zopp] in Hx.
    cbn [Flt.fmod1 cond_Zopp].
    assert (HPe : 0 < 2 ^ (e - scale f)) by (apply Z.pow_pos_nonneg; lia).
    destruct (Z.leb_spec 0 e) as [He0|He0].
    + cbn [ordv].
      assert (unit f <= Zpos m * 2 ^ (e - scale f)).
      { unfold unit. apply Z.le_trans with (1 * 2 ^ (e - scale f)); [|nia].
        rewrite Z.mul_1_l. apply Z.pow_le_mono_r; lia. }
      assert (E : Zpos m * 2 ^ (e - scale f) = unit f) by lia.
      rewrite E, Z.mod_same by lia. reflexivity.
    + destruct (binary_normalize_spec (prec f) (emax f) Hp0 He (scale f) Hse
                  (Zpos m mod 2 ^ (- e)) e false Hle) as (_ & _ & N3).
      rewrite N3. fold (RN f (Zpos m mod 2 ^ (- e) * 2 ^ (e - scale f))).
      assert (Hunit : unit f = 2 ^ (- e) * 2 ^ (e - scale f)).
      { unfold unit. rewrite <- Z.pow_add_r by lia. f_equal. lia. }
      assert (HPn : 0 < 2 ^ (- e)) by (apply Z.pow_pos_nonneg; lia).
      cbn [ordv cond_Zopp].
      rewrite Hunit, Z.mul_mod_distr_r by lia.
      assert (Hm : Zpos m <= 2 ^ (- e)) by nia.
      destruct (Z.eq_dec (Zpos m) (2 ^ (- e))) as [Em|Em].
      * rewrite Em, Z.mod_same, Z.mul_0_l by lia. apply (RN_0 f Hp He).
      * rewrite Z.mod_small by lia.
        apply (RN_val f Hp He (S754_finite false m e)). split; assumption.
Qed.

(** The partial level of a scaled value is the floor of eight times its
    fractional part; it is seven at most. *)
Lemma eighths_exact x :
  wf binary32 x -> finite x = true -> 0 <= val binary32 x <= unit binary32 ->
  eighths_of x = Some (partial_eighths x) /\ 0 <= partial_eighths x <= 7.
Proof.
  intros Wx Fx Hx. unfold eighths_of, partial_eighths, f32.
  pose proof (unit_pos binary32 f32_prec f32_emax) as Hu.
  destruct (fmod1_exact binary32 x f32_prec f32_emax Wx Fx Hx) as (Wy & Fy & Vy).
  set (y := Flt.fmod1 binary32 x) in *.
  pose proof (Z.mod_pos_bound (val binary32 x) (unit binary32) Hu) as Hr.
  rewrite <- Vy in *.
  destruct (of_Z_val binary32 f32_prec f32_emax 8) as [W8 _].
  destruct (mul_val binary32 f32_prec f32_emax y (Flt.of_Z binary32 8) Wy W8 Fy eq_refl)
    as [Wt Vt].
  pose proof eight_f32 as H8. unfold f32 in H8. rewrite H8 in Vt.
  replace (val binary32 y * (8 * unit binary32) / unit binary32) with (2 ^ 3 * val binary32 y)
    in Vt by (rewrite Z.mul_assoc, Z.div_mul by lia; change (2 ^ 3) with 8; lia).
  pose proof (pow_unit_lt binary32 f32_prec f32_emax 3 ltac:(cbn; lia)) as H3.
  change (2 ^ 3) with 8 in H3.
  rewrite (RN_shift_exact binary32 y 3 f32_prec f32_emax Wy Fy ltac:(lia) ltac:(lia))
    in Vt by (change (2 ^ 3) with 8; lia).
  change (2 ^ 3) with 8 in Vt.
  assert (Ft : finite (Flt.mul binary32 y (Flt.of_Z binary32 8)) = true).
  { apply (proj2 (val_finite binary32 f32_prec f32_emax _ Wt)). lia. }
  destruct (to_int_val binary32 f32_prec f32_emax _ 0 255 8 Wt Ft ltac:(lia)
              ltac:(lia) ltac:(lia)) as (e8 & He8 & Ee8 & He8r).
  rewrite He8, Ee8, Vt. split; [reflexivity|]. split.
  - apply Z.div_pos; lia.
  - assert (8 * val binary32 y / unit binary32 < 8); [|lia].
    apply Z.div_lt_upper_bound; lia.
Qed.

(** The levels [render_bin] computes for bin [b] are those of the
    specification, computed from the count in entry [b + 1]. *)
Lemma bin_levels_expected min stride bins b :
  histogram bins -> 0 <= b < size bins - 2 ->
  let p := make min stride bins in
  let x := scaled_count (reduce_max bins) (nth (Z.to_nat (b + 1)) bins 0) in
  bin_num_full p b = Some (full_rows 10 x) /\
  bin_eighths p b = Some (partial_eighths x) /\
  0 <= full_rows 10 x <= 10 /\ 0 <= partial_eighths x <= 7.
Proof.
  intros Hh Hb p x.
  destruct (at_index_some bins (b + 1) ltac:(lia)) as (value & Hat & Hnth).
  assert (Ev : nth (Z.to_nat (b + 1)) bins 0 = value) by (apply nth_error_nth; exact Hnth).
  destruct (make_bin_value bins b Hh Hb) as (value' & Hat' & Hv).
  assert (value' = value) by congruence. subst value'.
  assert (Ex : scaled_value p value = x) by (unfold x; rewrite Ev; reflexivity).
  destruct (bin_quantised min stride bins value Hh Hv)
    as (_ & nf & e8 & Hnf & _ & Enf & _ & Hr & _).
  fold p in Hnf, Enf, Hr. rewrite Ex in Hnf, Enf.
  destruct (scaled_value_wf min stride bins value Hh Hv) as (Wx & Fx & Hx).
  fold p in Wx, Fx, Hx. rewrite Ex in Wx, Fx, Hx.
  destruct (eighths_exact x Wx Fx Hx) as [He8 He8r].
  change (m_num_rows p) with 10 in Enf, Hr.
  assert (Enf' : nf = full_rows 10 x) by exact Enf.
  unfold bin_num_full, bin_eighths. replace (m_bins p) with bins by reflexivity.
  rewrite Hat, Ex, Hnf, He8, <- Enf'. auto.
Qed.

(** The chart after the bin loop of [render], cell by cell. *)
Lemma render_bins_expected min stride bins :
  histogram bins ->
  let p := make min stride bins in
  exists p',
    render_bins (Z.to_nat (m_num_bins p)) p 0 = Some p' /\
    chart_ok p' /\ m_num_bins p' = size bins - 2 /\
    forall row b, 0 <= row < 10 -> 0 <= b < size bins - 2 ->
      cell p' row b
      = expected_level 10 (reduce_max bins) (nth (Z.to_nat (b + 1)) bins 0) row.
Proof.
  intros Hh p.
  pose proof (make_num_bins min stride bins Hh) as Hnb. fold p in Hnb.
  destruct (render_bins_make min stride bins Hh) as (p' & Hr & Hok & Hsp & Hc).
  fold p in Hr, Hsp, Hc.
  exists p'. split; [exact Hr|]. split; [exact Hok|]. split.
  - destruct Hsp as (_ & _ & E & _). lia.
  - intros row b Hrow Hb.
    destruct (bin_levels_expected min stride bins b Hh Hb) as (Hnf & He8 & _).
    fold p in Hnf, He8.
    apply (Hc row b _ _ Hrow ltac:(lia) Hnf He8).
Qed.

Lemma chart_row_expected bins p' row :
  histogram bins -> 0 <= row < 10 ->
  m_num_bins p' = size bins - 2 ->
  (forall r b, 0 <= r < 10 -> 0 <= b < size bins - 2 ->
     cell p' r b
     = expected_level 10 (reduce_max bins) (nth (Z.to_nat (b + 1)) bins 0) r) ->
  chart_row p' row = expected_row bins (reduce_max bins) row.
Proof.
  intros Hh Hrow Hnb Hc. unfold chart_row, expected_row.
  destruct Hh as ((Hsz & _) & _). unfold size in *.
  replace (Z.to_nat (m_num_bins p')) with (length bins - 2)%nat by lia.
  apply map_ext_in. intros b Hb. apply in_seq in Hb.
  rewrite (Hc row (Z.of_nat b) Hrow ltac:(lia)). do 2 f_equal. lia.
Qed.

(** ** Glyphs and lines *)

Lemma render_eighth_glyph level : render_eighth level = glyph level.
Proof.
  destruct level as [|p|p]; try reflexivity.
  do 4 (try destruct p as [p|p|]); reflexivity.
Qed.

Lemma render_line_expected cells : render_line cells = expected_line cells.
Proof.
  unfold render_line, expected_line, render_cells, bar. do 3 f_equal.
  apply map_ext. exact render_eighth_glyph.
Qed.

(** * The statistics engine: claims *)

(** ** compute_histogram *)

(** C2. For every sample sequence, start, stride and bin count, the entries
    of [compute_histogram] are non-negative and add up to the number of
    samples.  The loop runs [bins + 1] times, computed in [std::size_t]
    ([wrap64]), so there are [bins + 2] entries for every bin count below
    the largest [std::size_t]. *)
Theorem compute_histogram_sum :
  forall (data : list spec_float) (min stride : spec_float) (bins : Z),
    let h := compute_histogram data min stride bins in
    sum_counts h = size data /\
    Forall (fun c => 0 <= c) h /\
    size h = wrap64 (bins + 1) + 1 /\
    (0 <= bins < size_max -> size h = bins + 2).
Proof.
  intros data min stride bins h.
  destruct (compute_histogram_inv data min stride bins) as (Hsum & Hnn & Hlen).
  fold h in Hsum, Hnn, Hlen. unfold size at 2 3.
  split; [exact Hsum|]. split; [exact Hnn|]. split; [exact Hlen|].
  intros Hb. rewrite Hlen, wrap64_small; [lia|]. unfold size_max in Hb. lia.
Qed.

Lemma compute_histogram_sum_witness :
  size (compute_histogram example_samples (Flt.of_Z f64 0) (Flt.of_Z f64 1) 4) = 4 + 2.
Proof.
  apply (compute_histogram_sum example_samples (Flt.of_Z f64 0) (Flt.of_Z f64 1) 4).
  vm_compute. split; [discriminate|reflexivity].
Defined.

(** C3. On sorted samples and a window with a positive stride,
    [compute_histogram] returns [bins + 2] entries: the number of samples
    below [min], then for each bin [i] the number of samples in
    [[min + (i-1)*stride, min + i*stride)], then the number of samples at or
    above [min + bins*stride]; the boundaries are the values [level] the
    code computes.  On [[0.5, 1.5, 2.5, 3.5]] with [min = 0], [stride = 1]
    and four bins the result is [[0,1,1,1,1,0]]. *)
Theorem compute_histogram_bins :
  (forall (data : list spec_float) (min stride : spec_float) (bins : Z),
      samples data -> window min stride -> 0 <= bins -> bins + 1 < 2 ^ 64 ->
      let h := compute_histogram data min stride bins in
      Z.of_nat (length h) = bins + 2 /\
      nth 0 h 0 = count (below min) data /\
      (forall i, 1 <= i <= bins ->
         nth (Z.to_nat i) h 0
         = count (within (level min stride (i - 1)) (level min stride i)) data) /\
      nth (Z.to_nat (bins + 1)) h 0
      = count (at_or_above (level min stride bins)) data) /\
  compute_histogram example_samples (Flt.of_Z f64 0) (Flt.of_Z f64 1) 4
  = [0; 1; 1; 1; 1; 0].
Proof.
  split.
  - intros data min stride bins Hd Hw Hb Hb2.
    apply compute_histogram_sorted; assumption.
  - vm_compute. reflexivity.
Qed.

Lemma compute_histogram_bins_witness :
  nth 0 (compute_histogram example_samples (Flt.of_Z f64 0) (Flt.of_Z f64 1) 4) 0
  = count (below (Flt.of_Z f64 0)) example_samples.
Proof.
  apply (proj1 compute_histogram_bins example_samples (Flt.of_Z f64 0) (Flt.of_Z f64 1) 4).
  - split; repeat constructor.
  - repeat split.
  - lia.
  - reflexivity.
Defined.

(** ** fit_histogram *)

(** C1. On [[0.5, 1.5, 2.5, 3.5]] with the window [(0, 1, 4 bins)] and the
    threshold fraction [1] every bin holds one sample and is kept
    ([min_level = 1], [max_level = 4]), so the trimmed window runs from
    [min + stride * (min_level - 1) = 0] to [min + stride * max_level = 4].
    [fit_histogram] returns the window from [min + stride * min_level = 1]
    to [min + stride * (max_level + 1) = 5] instead, one bin further up:
    the first sample falls below it and the last bin is empty.  The output
    keeps [bins + 2] entries. *)
Theorem fit_histogram_window_shifted :
  let min := Flt.of_Z f64 0 in
  let stride := Flt.of_Z f64 1 in
  compute_histogram example_samples min stride 4 = [0; 1; 1; 1; 1; 0] /\
  trim_levels [0; 1; 1; 1; 1; 0] 4 1 = Some (1, 4) /\
  level min stride (1 - 1) = Flt.of_Z f64 0 /\
  level min stride 4 = Flt.of_Z f64 4 /\
  exists r,
    fit_histogram example_samples min stride 4 (Flt.of_Z f32 1) = Some r /\
    fit_min r = level min stride 1 /\
    fit_min r = Flt.of_Z f64 1 /\
    fit_min r <> level min stride (1 - 1) /\
    fit_stride r = Flt.of_Z f64 1 /\
    level (fit_min r) (fit_stride r) 4 = level min stride (4 + 1) /\
    level (fit_min r) (fit_stride r) 4 = Flt.of_Z f64 5 /\
    level (fit_min r) (fit_stride r) 4 <> level min stride 4 /\
    fit_histo r = [1; 1; 1; 1; 0; 0] /\
    size (fit_histo r) = 4 + 2.
Proof.
  cbv zeta. split; [vm_compute; reflexivity|]. split; [vm_compute; reflexivity|].
  split; [vm_compute; reflexivity|]. split; [vm_compute; reflexivity|].
  eexists. split; [vm_compute; reflexivity|].
  cbn [fit_min fit_stride fit_histo].
  repeat split; try (vm_compute; reflexivity); vm_compute; discriminate.
Qed.

(** C4, as the specification words it, fails: with [min = 2^60] and [stride = 1]
    every boundary [min + stride * i] rounds to [2^60], and the stride
    [fit_histogram] returns is zero although the stride it was given is
    positive. *)
Lemma fit_histogram_stride_zero :
  let min := dyadic 1 60 in
  let stride := Flt.of_Z f64 1 in
  let frac := binary_normalize 24 128 1 (-1) false in
  samples [min] /\ window min stride /\ fraction frac /\
  Flt.ltb Flt.zero stride = true /\
  exists r, fit_histogram [min] min stride 4 frac = Some r /\
            Flt.ltb Flt.zero (fit_stride r) = false.
Proof.
  cbv zeta. split; [split; repeat constructor|].
  split; [repeat split|]. split; [repeat split|]. split; [reflexivity|].
  eexists. split; [vm_compute; reflexivity|reflexivity].
Qed.

(** C4, amended.  For every sample sequence that fits a vector, every
    window with a positive stride and every threshold fraction in [[0, 1]],
    the trimming loops of [fit_histogram] end with
    [1 <= min_level <= max_level <= bins + 1], the returned histogram has
    [bins + 2] entries, and the recomputed window is not inverted: the new
    minimum [min + stride * min_level] is at most the new maximum
    [min + stride * (max_level + 1)] and the new stride is not negative. *)
Theorem fit_histogram_indices_never_cross :
  forall (data : list spec_float) (min stride : spec_float) (bins : Z)
         (frac : spec_float),
    size data <= 2 ^ 60 -> window min stride ->
    0 <= bins -> bins + 2 < 2 ^ 64 -> fraction frac ->
    let histo := compute_histogram data min stride bins in
    exists thresh min_level max_level r,
      fit_threshold (reduce_max histo) frac = Some thresh /\
      trim_levels histo bins thresh = Some (min_level, max_level) /\
      1 <= min_level <= max_level /\ max_level <= bins + 1 /\
      fit_histogram data min stride bins frac = Some r /\
      fit_min r = level min stride min_level /\
      Z.of_nat (length (fit_histo r)) = bins + 2 /\
      val binary64 (fit_min r) <= val binary64 (level min stride (max_level + 1)) /\
      Flt.ltb (fit_stride r) Flt.zero = false.
Proof.
  intros data min stride bins frac Hsz Hw Hb Hb2 Hfrac histo.
  destruct (compute_histogram_inv data min stride bins) as (Hsum & Hnn & Hlen).
  fold histo in Hsum, Hnn, Hlen. rewrite wrap64_small in Hlen by lia.
  pose proof (reduce_max_counts histo (size data) Hsum Hnn) as Hmost.
  assert (Hsz0 : 0 <= size data) by (unfold size; lia).
  destruct (fit_threshold_spec (reduce_max histo) frac ltac:(lia) Hfrac) as (thresh & Hth & _).
  destruct (trim_levels_spec histo bins thresh Hb ltac:(lia) ltac:(unfold size; lia))
    as (ml & xl & Htrim & Hml & Hxl).
  eexists thresh, ml, xl, _. split; [exact Hth|]. split; [exact Htrim|].
  split; [exact Hml|]. split; [exact Hxl|].
  unfold fit_histogram. fold histo. rewrite Hth, Htrim.
  rewrite wrap64_small by lia. split; [reflexivity|].
  cbn [fit_min fit_histo fit_stride]. fold (level min stride ml).
  fold (level min stride (xl + 1)).
  pose proof (level_wf min stride ml Hw ltac:(lia)) as Wmin.
  pose proof (level_wf min stride (xl + 1) Hw ltac:(lia)) as Wmax.
  pose proof (level_mono min stride ml (xl + 1) Hw ltac:(lia) ltac:(lia)) as Hmono.
  split; [reflexivity|]. split.
  - destruct (compute_histogram_inv data (level min stride ml)
                (Flt.div f64 (Flt.sub f64 (level min stride (xl + 1)) (level min stride ml))
                   (Flt.of_Z f64 bins)) bins) as (_ & _ & Hlen').
    rewrite wrap64_small in Hlen' by lia. lia.
  - split; [exact Hmono|].
    apply div_not_negative.
    + destruct (sub_not_negative _ _ Wmax Wmin Hmono) as [E|[Wd Hd]]; [left; exact E|].
      right. apply (wf_sign_cases binary64 _ Wd Hd f64_prec f64_emax).
    + right. apply of_Z_sign; [lia|exact f64_prec|exact f64_emax].
Qed.

Lemma fit_histogram_indices_never_cross_witness :
  exists thresh min_level max_level r,
    fit_threshold (reduce_max (compute_histogram example_samples (Flt.of_Z f64 0)
                                 (Flt.of_Z f64 1) 4)) (Flt.of_Z f32 1) = Some thresh /\
    trim_levels (compute_histogram example_samples (Flt.of_Z f64 0) (Flt.of_Z f64 1) 4)
      4 thresh = Some (min_level, max_level) /\
    1 <= min_level <= max_level /\ max_level <= 4 + 1 /\
    fit_histogram example_samples (Flt.of_Z f64 0) (Flt.of_Z f64 1) 4 (Flt.of_Z f32 1)
    = Some r /\
    fit_min r = level (Flt.of_Z f64 0) (Flt.of_Z f64 1) min_level /\
    Z.of_nat (length (fit_histo r)) = 4 + 2 /\
    val binary64 (fit_min r)
    <= val binary64 (level (Flt.of_Z f64 0) (Flt.of_Z f64 1) (max_level + 1)) /\
    Flt.ltb (fit_stride r) Flt.zero = false.
Proof.
  apply (fit_histogram_indices_never_cross example_samples (Flt.of_Z f64 0)
           (Flt.of_Z f64 1) 4 (Flt.of_Z f32 1)).
  - vm_compute. discriminate.
  - repeat split.
  - lia.
  - reflexivity.
  - repeat split.
Defined.

(** ** compute_percentiles *)

(** C6. On a non-empty sample sequence (short enough for [p * n] not to
    wrap) [compute_percentiles] returns one value per request, in the order
    of the requests: the sample at index [n - 1] when the request clamped
    to [[0, 100]] is [100], at index [floor (p * n / 100)] otherwise.  On
    [[1,2,3,4,5]] the percentiles [[0, 50, 100]] are [[1, 3, 5]]. *)
Theorem compute_percentiles_nearest_rank :
  (forall (data : list spec_float) (percentiles : list Z),
      data <> [] -> 99 * size data < 2 ^ 64 ->
      exists results,
        compute_percentiles data percentiles = Some results /\
        Forall2
          (fun p v =>
             nth_error data (Z.to_nat (nearest_rank_index (size data) p)) = Some v)
          percentiles results) /\
  compute_percentiles example_ranks [0; 50; 100]
  = Some (map (Flt.of_Z binary64) [1; 3; 5]).
Proof.
  split.
  - intros data ps Hne Hsz.
    assert (Hn : 0 < size data).
    { unfold size. destruct data; [congruence|]. cbn [length]. lia. }
    destruct (compute_percentiles_loop_spec data ps [] Hne ltac:(lia)) as (res & Hres & HF).
    exists res. split; [exact Hres|].
    eapply Forall2_impl; [|exact HF]. intros p v Hv. cbn in Hv.
    rewrite <- percentile_index_spec by assumption. exact Hv.
  - vm_compute. reflexivity.
Qed.

Lemma compute_percentiles_nearest_rank_witness :
  exists results,
    compute_percentiles example_ranks [0; 50; 100] = Some results /\
    Forall2
      (fun p v =>
         nth_error example_ranks (Z.to_nat (nearest_rank_index (size example_ranks) p))
         = Some v)
      [0; 50; 100] results.
Proof.
  apply (proj1 compute_percentiles_nearest_rank example_ranks [0; 50; 100]).
  - discriminate.
  - reflexivity.
Defined.

(** C10. On a non-empty sample sequence the index [compute_percentiles]
    selects is in bounds for every request.  Non-emptiness is needed: on an
    empty sequence the request [100] selects the index [size - 1], which
    wraps to the largest [std::size_t]. *)
Theorem percentile_index_in_bounds :
  (forall (data : list spec_float) (p : Z),
      data <> [] -> size data < 2 ^ 64 ->
      0 <= percentile_index (size data) p < size data) /\
  percentile_index (size (@nil spec_float)) 100 = size_max /\
  compute_percentiles [] [100] = None.
Proof.
  split; [|split; reflexivity].
  intros data p Hne Hsz. apply percentile_index_bound.
  unfold size in *. destruct data; [congruence|]. cbn [length] in *. lia.
Qed.

Lemma percentile_index_in_bounds_witness :
  0 <= percentile_index (size example_ranks) 50 < size example_ranks.
Proof.
  apply (proj1 percentile_index_in_bounds example_ranks 50).
  - discriminate.
  - reflexivity.
Defined.

(** ** compute_noise *)

Lemma SFsub_self prec emax s m e :
  SFsub prec emax (S754_finite s m e) (S754_finite s m e) = S754_zero false.
Proof.
  cbn [SFsub]. rewrite Z.sub_diag. reflexivity.
Qed.

(** The squared deviations of samples that all equal the mean add up to
    [+0]. *)
Lemma squares_fold s m e data acc :
  Forall (eq (S754_finite s m e)) data -> acc = S754_zero false ->
  fold_left
    (fun acc x =>
       Flt.add f64 acc
         (let val := Flt.sub f64 x (S754_finite s m e) in
          let val := Flt.mul f64 val val in
          val))
    data acc
  = S754_zero false.
Proof.
  intros H. revert acc. induction H as [|x data Hx _ IH]; intros acc ->.
  - reflexivity.
  - cbn [fold_left]. subst x. cbv zeta. unfold Flt.sub. rewrite SFsub_self.
    apply IH. reflexivity.
Qed.

Lemma squares_of_equal s m e data :
  Forall (eq (S754_finite s m e)) data ->
  transform_reduce data Flt.zero (Flt.add f64)
    (fun val =>
       Flt.mul f64 (Flt.sub f64 val (S754_finite s m e))
         (Flt.sub f64 val (S754_finite s m e)))
  = S754_zero false.
Proof.
  intros H. unfold transform_reduce.
  apply (squares_fold s m e data Flt.zero H eq_refl).
Qed.

Lemma num_minus_one_positive n : 5 <= n <= 2 ^ 60 ->
  let d := Flt.sub f64 (Flt.of_Z f64 n) (Flt.of_Z f64 1) in
  d = S754_infinity false \/ exists m e, d = S754_finite false m e.
Proof.
  intros Hn. cbv zeta. unfold f64.
  pose proof (unit_pos binary64 f64_prec f64_emax) as Hu.
  destruct (of_Z_val binary64 f64_prec f64_emax n) as [Wn Vn].
  destruct (of_Z_val binary64 f64_prec f64_emax 1) as [W1 _].
  assert (Fn : finite (Flt.of_Z binary64 n) = true).
  { apply (of_Z_finite binary64 f64_prec f64_emax n 60); [cbn; lia|lia]. }
  destruct (sub_val binary64 f64_prec f64_emax _ _ Wn W1 Fn eq_refl) as [Wd Vd].
  pose proof (of_Z_mono binary64 f64_prec f64_emax (2 ^ 2) n ltac:(change (2 ^ 2) with 4; lia))
    as H4.
  rewrite (of_Z_pow2 binary64 f64_prec f64_emax 2) in H4 by (cbn; lia).
  change (2 ^ 2) with 4 in H4.
  change (val binary64 (Flt.of_Z binary64 1)) with (unit binary64) in Vd.
  assert (Hd : 2 * unit binary64 <= val binary64 (Flt.sub binary64 (Flt.of_Z binary64 n)
                                                    (Flt.of_Z binary64 1))).
  { rewrite Vd.
    pose proof (RN_pow2 binary64 f64_prec f64_emax 1 ltac:(cbn; lia)) as H2.
    change (2 ^ 1) with 2 in H2. rewrite <- H2.
    apply (RN_mono binary64 f64_prec f64_emax). lia. }
  destruct Wd as [Hv Hnn].
  destruct (Flt.sub binary64 (Flt.of_Z binary64 n) (Flt.of_Z binary64 1))
    as [s|s|?|s m e]; try discriminate; unfold val in Hd; cbn [ordv] in Hd.
  - lia.
  - destruct s; [|left; reflexivity]. cbn [cond_Zopp] in Hd.
    pose proof (pow_emax_pos 53 1024 ltac:(lia) ltac:(lia) (scale binary64)
                  (scale_le_emin binary64 f64_prec f64_emax)).
    change (emax binary64) with 1024 in Hd. lia.
  - destruct s; [|right; eauto]. cbn [cond_Zopp] in Hd.
    assert (0 <= 2 ^ (e - scale binary64)) by (apply Z.pow_nonneg; lia). nia.
Qed.

Lemma noise_not_small n : 5 <= n <= 2 ^ 60 ->
  Flt.ltb (Flt.of_Z f64 n) (Flt.of_Z f64 5) = false.
Proof.
  intros Hn. unfold f64.
  rewrite (ltb_val binary64 f64_prec f64_emax) by (apply of_Z_val; [exact f64_prec|exact f64_emax]).
  apply Z.ltb_ge. apply (of_Z_mono binary64 f64_prec f64_emax). lia.
Qed.

(** C5, as the specification words it, fails.  Five samples equal to zero, with
    their sum zero, have mean zero, and the noise [0 / 0] is NaN, not zero.
    Ten samples equal to [0.1], with their sum accumulated in binary64 from
    left to right, have a mean one unit in the last place below [0.1], and
    the noise is positive. *)
Lemma compute_noise_equal_not_zero :
  (let data := repeat Flt.zero 5 in
   5 <= size data /\
   Forall (eq Flt.zero) data /\
   fold_left (Flt.add f64) data Flt.zero = Flt.zero /\
   compute_noise data Flt.zero = S754_nan /\
   Flt.eqb (compute_noise data Flt.zero) Flt.zero = false) /\
  (let x := Flt.div f64 (Flt.of_Z f64 1) (Flt.of_Z f64 10) in
   let data := repeat x 10 in
   let sum := fold_left (Flt.add f64) data Flt.zero in
   5 <= size data /\
   Forall (eq x) data /\
   Flt.ltb (Flt.div f64 sum (Flt.of_Z f64 (size data))) x = true /\
   Flt.eqb (compute_noise data sum) Flt.zero = false /\
   Flt.ltb Flt.zero (compute_noise data sum) = true).
Proof.
  cbv zeta. split.
  - split; [vm_compute; discriminate|].
    split; [repeat constructor|]. repeat split.
  - split; [vm_compute; discriminate|].
    split; [repeat constructor|]. repeat split.
Qed.

(** C5, amended.  [compute_noise] returns [+infinity] on fewer than five
    samples and otherwise [sqrt (sum (x - mean)^2 / (n - 1)) / mean] with
    [mean = sum / n]; on five or more samples that all equal a finite
    non-zero value [x], with a [sum] for which [sum / n] is [x], it returns
    zero (with the sign of [x]). *)
Theorem compute_noise_spec :
  (forall (data : list spec_float) (sum : spec_float),
      size data < 5 -> compute_noise data sum = Flt.infinity) /\
  (forall (data : list spec_float) (sum : spec_float),
      5 <= size data <= 2 ^ 60 ->
      compute_noise data sum = relative_stdev data sum) /\
  (forall (data : list spec_float) (sum : spec_float) (s : bool) (m : positive) (e : Z),
      5 <= size data <= 2 ^ 60 ->
      Forall (eq (S754_finite s m e)) data ->
      Flt.div f64 sum (Flt.of_Z f64 (size data)) = S754_finite s m e ->
      compute_noise data sum = S754_zero s /\
      Flt.eqb (compute_noise data sum) Flt.zero = true).
Proof.
  split; [|split].
  - intros data sum Hsz. unfold size in Hsz.
    destruct data as [|a [|b [|c [|d [|x t]]]]]; try reflexivity.
    cbn [length] in Hsz. lia.
  - intros data sum Hsz. unfold compute_noise, relative_stdev, transform_reduce.
    fold (size data). rewrite (noise_not_small (size data) Hsz). reflexivity.
  - intros data sum s m e Hsz Heq Hmean.
    assert (Hres : compute_noise data sum = S754_zero s).
    { unfold compute_noise. fold (size data).
      rewrite (noise_not_small (size data) Hsz). cbv zeta. rewrite Hmean.
      rewrite (squares_of_equal s m e data Heq).
      destruct (num_minus_one_positive (size data) Hsz) as [E|(m' & e' & E)];
        rewrite E; destruct s; reflexivity. }
    split; [exact Hres|]. rewrite Hres. destruct s; reflexivity.
Qed.

Lemma compute_noise_spec_witness :
  compute_noise (repeat (Flt.of_Z f64 1) 5) (Flt.of_Z f64 5) = S754_zero false /\
  Flt.eqb (compute_noise (repeat (Flt.of_Z f64 1) 5) (Flt.of_Z f64 5)) Flt.zero = true.
Proof.
  apply (proj2 (proj2 compute_noise_spec) (repeat (Flt.of_Z f64 1) 5) (Flt.of_Z f64 5)
           false 4503599627370496%positive (-52)).
  - vm_compute. split; discriminate.
  - repeat constructor.
  - reflexivity.
Defined.

(** * The histogram renderer: claims *)

Lemma reduce_max_in l a :
  fold_left Z.max l a = a \/ In (fold_left Z.max l a) l.
Proof.
  revert a. induction l as [|x l IH]; intros a; cbn [fold_left]; [left; reflexivity|].
  destruct (IH (Z.max a x)) as [E|Hin].
  - rewrite E. destruct (Z.max_spec a x) as [[_ ->]|[_ ->]]; [right; left|left]; reflexivity.
  - right. right. exact Hin.
Qed.

(** C7. For a histogram with a non-zero entry the scale factor is one
    divided by the largest entry of the whole vector, sentinel slots
    included.  For bin [b], whose count is entry [b + 1] of the vector, let
    the scaled value be the count times the scale factor, [num_full] the
    floor of the scaled value times [num_rows], and [eighths] the floor of
    eight times the fractional part of the scaled value ([scaled_count],
    [full_rows] and [partial_eighths] say this without the code).  After
    [render]'s loop the [num_full] lowest rows of column [b] are at level 8,
    the row above them, if there is one, is at level [eighths], which is
    seven at most, and every other row of the column is at level 0. *)
Theorem render_bin_levels :
  forall (min stride : spec_float) (bins : list Z),
    histogram bins ->
    let p := make min stride bins in
    exists most,
      In most bins /\ Forall (fun c => c <= most) bins /\
      m_scale_factor p
      = Flt.div binary32 (Flt.of_Z binary32 1) (Flt.of_Z binary32 most) /\
      m_num_rows p = 10 /\ m_num_bins p = size bins - 2 /\
      exists p',
        render_bins (Z.to_nat (m_num_bins p)) p 0 = Some p' /\
        forall b, 0 <= b < m_num_bins p ->
          let count := nth (Z.to_nat (b + 1)) bins 0 in
          let num_full := full_rows (m_num_rows p) (scaled_count most count) in
          let eighths := partial_eighths (scaled_count most count) in
          0 <= num_full <= m_num_rows p /\ 0 <= eighths <= 7 /\
          (forall row, 0 <= row < num_full -> cell p' row b = 8) /\
          (num_full < m_num_rows p -> cell p' num_full b = eighths) /\
          (forall row, num_full < row < m_num_rows p -> cell p' row b = 0).
Proof.
  intros min stride bins Hh p.
  pose proof (histogram_max bins Hh) as HM.
  pose proof (make_num_bins min stride bins Hh) as Hnb. fold p in Hnb.
  exists (reduce_max bins).
  split.
  { unfold reduce_max in *. destruct (reduce_max_in bins 0) as [E|Hin]; [lia|exact Hin]. }
  split; [apply reduce_max_upper|]. split; [reflexivity|]. split; [reflexivity|].
  split; [exact Hnb|].
  destruct (render_bins_expected min stride bins Hh) as (p' & Hr & _ & _ & Hc). fold p in Hr.
  exists p'. split; [exact Hr|]. intros b Hb. rewrite Hnb in Hb.
  destruct (bin_levels_expected min stride bins b Hh Hb) as (_ & _ & Hnf & He8).
  change (m_num_rows p) with 10. cbv zeta.
  set (nf := full_rows 10 (scaled_count (reduce_max bins) (nth (Z.to_nat (b + 1)) bins 0))) in *.
  set (e8 := partial_eighths (scaled_count (reduce_max bins) (nth (Z.to_nat (b + 1)) bins 0)))
    in *.
  assert (Hcell : forall row, 0 <= row < 10 -> cell p' row b = cell_level nf e8 row).
  { intros row Hrow. rewrite (Hc row b Hrow Hb). reflexivity. }
  split; [exact Hnf|]. split; [exact He8|]. split; [|split].
  - intros row Hrow. rewrite Hcell by lia. unfold cell_level.
    destruct (Z.ltb_spec row nf); [reflexivity|lia].
  - intros Hlt. rewrite Hcell by lia. unfold cell_level.
    destruct (Z.ltb_spec nf nf); [lia|]. rewrite Z.eqb_refl. reflexivity.
  - intros row Hrow. rewrite Hcell by lia. unfold cell_level.
    destruct (Z.ltb_spec row nf); [lia|]. destruct (Z.eqb_spec row nf); [lia|reflexivity].
Qed.

Lemma render_bin_levels_witness :
  exists most,
    In most [0; 1; 2; 4; 3; 0] /\ Forall (fun c => c <= most) [0; 1; 2; 4; 3; 0] /\
    m_scale_factor (make Flt.zero Flt.zero [0; 1; 2; 4; 3; 0])
    = Flt.div binary32 (Flt.of_Z binary32 1) (Flt.of_Z binary32 most) /\
    m_num_rows (make Flt.zero Flt.zero [0; 1; 2; 4; 3; 0]) = 10 /\
    m_num_bins (make Flt.zero Flt.zero [0; 1; 2; 4; 3; 0]) = size [0; 1; 2; 4; 3; 0] - 2 /\
    exists p',
      render_bins (Z.to_nat (m_num_bins (make Flt.zero Flt.zero [0; 1; 2; 4; 3; 0])))
        (make Flt.zero Flt.zero [0; 1; 2; 4; 3; 0]) 0 = Some p' /\
      forall b, 0 <= b < m_num_bins (make Flt.zero Flt.zero [0; 1; 2; 4; 3; 0]) ->
        let count := nth (Z.to_nat (b + 1)) [0; 1; 2; 4; 3; 0] 0 in
        let num_full :=
          full_rows (m_num_rows (make Flt.zero Flt.zero [0; 1; 2; 4; 3; 0]))
            (scaled_count most count) in
        let eighths := partial_eighths (scaled_count most count) in
        0 <= num_full <= m_num_rows (make Flt.zero Flt.zero [0; 1; 2; 4; 3; 0]) /\
        0 <= eighths <= 7 /\
        (forall row, 0 <= row < num_full -> cell p' row b = 8) /\
        (num_full < m_num_rows (make Flt.zero Flt.zero [0; 1; 2; 4; 3; 0]) ->
         cell p' num_full b = eighths) /\
        (forall row,
            num_full < row < m_num_rows (make Flt.zero Flt.zero [0; 1; 2; 4; 3; 0]) ->
            cell p' row b = 0).
Proof.
  apply (render_bin_levels Flt.zero Flt.zero [0; 1; 2; 4; 3; 0]).
  split; [vm_compute; split; discriminate|].
  split; [repeat constructor; discriminate|].
  apply Exists_cons_tl, Exists_cons_hd. discriminate.
Defined.

(** C8. For a histogram with a non-zero entry every scaled value is at most
    one, every [num_full] is at most [num_rows], and [render] runs to its
    end: no assertion fails and every write to the chart buffer is in
    bounds (either would make the rendering [None]). *)
Theorem render_in_bounds :
  forall (min stride : spec_float) (bins : list Z),
    histogram bins ->
    let p := make min stride bins in
    (forall b value,
        0 <= b < m_num_bins p -> at_index bins (b + 1) = Some value ->
        val binary32 (scaled_value p value) <= unit binary32 /\
        exists num_full,
          num_full_of p (scaled_value p value) = Some num_full /\
          num_full <= m_num_rows p) /\
    (exists p', render_bins (Z.to_nat (m_num_bins p)) p 0 = Some p') /\
    exists s, render p = Some s.
Proof.
  intros min stride bins Hh p. split; [|split].
  - intros b value Hb Hat.
    pose proof (make_num_bins min stride bins Hh) as Hnb. fold p in Hnb.
    destruct (make_bin_value bins b Hh ltac:(lia)) as (value' & Hat' & Hv).
    assert (value' = value) by congruence. subst value'.
    destruct (bin_quantised min stride bins value Hh Hv)
      as (Hx & nf & e8 & Hnf & _ & _ & _ & Hr & _).
    split; [apply Hx|]. exists nf. split; [exact Hnf|apply Hr].
  - destruct (render_bins_make min stride bins Hh) as (p' & Hr & _). exists p'. exact Hr.
  - destruct (render_bins_make min stride bins Hh) as (p' & Hr & Hok & _).
    unfold render. fold p in Hr. rewrite Hr. rewrite (render_string_spec p' Hok). eauto.
Qed.

Lemma render_in_bounds_witness :
  exists s, render (make Flt.zero Flt.zero [0; 1; 2; 4; 3; 0]) = Some s.
Proof.
  apply (render_in_bounds Flt.zero Flt.zero [0; 1; 2; 4; 3; 0]).
  split; [vm_compute; split; discriminate|].
  split; [repeat constructor; discriminate|].
  apply Exists_cons_tl, Exists_cons_hd. discriminate.
Defined.

(** C9. For a histogram with a non-zero entry [render] returns the drawing
    the specification describes ([expected_drawing]): ten lines, each ended
    by a newline, the line of chart row 9 first and the line of chart row
    0, the bottom row, last.  A line is a bar, one glyph for each bin of
    the vector (the sentinel slots are not drawn) and a bar, that is
    [bins + 2] code points for [bins] columns; the glyph of a level is a
    space for level 0 and the block U+2580 + level, in UTF-8, for the
    levels 1 to 8; the level of a row in a column is the one computed from
    the count of the bin ([expected_level]).  The chart buffer holds the
    same rows in the same order, row 0 last. *)
Theorem render_lines :
  forall (min stride : spec_float) (bins : list Z),
    histogram bins ->
    let p := make min stride bins in
    exists most s p',
      In most bins /\ Forall (fun c => c <= most) bins /\
      m_num_rows p = 10 /\ m_num_bins p = size bins - 2 /\
      render p = Some s /\
      s = expected_drawing bins most /\
      split_lines s []
      = map (fun i => expected_line (expected_row bins most (9 - Z.of_nat i))) (seq 0 10) /\
      length (split_lines s []) = 10%nat /\
      Forall (fun l => utf8_units l = (Z.to_nat (m_num_bins p) + 2)%nat)
        (split_lines s []) /\
      (forall row, length (expected_row bins most row) = Z.to_nat (m_num_bins p)) /\
      render_bins (Z.to_nat (m_num_bins p)) p 0 = Some p' /\
      m_chart p'
      = concat (map (fun i => expected_row bins most (9 - Z.of_nat i)) (seq 0 10)) /\
      map glyph [0; 1; 2; 3; 4; 5; 6; 7; 8]
      = [[Byte.x20];
         [Byte.xe2; Byte.x96; Byte.x81]; [Byte.xe2; Byte.x96; Byte.x82];
         [Byte.xe2; Byte.x96; Byte.x83]; [Byte.xe2; Byte.x96; Byte.x84];
         [Byte.xe2; Byte.x96; Byte.x85]; [Byte.xe2; Byte.x96; Byte.x86];
         [Byte.xe2; Byte.x96; Byte.x87]; [Byte.xe2; Byte.x96; Byte.x88]].
Proof.
  intros min stride bins Hh p.
  pose proof (histogram_max bins Hh) as HM.
  pose proof (make_num_bins min stride bins Hh) as Hnb. fold p in Hnb.
  destruct (render_bins_expected min stride bins Hh) as (p' & Hr & Hok & Hnb' & Hc).
  fold p in Hr.
  set (most := reduce_max bins) in *.
  set (lines := map (fun i => expected_line (expected_row bins most (9 - Z.of_nat i)))
                  (seq 0 10)).
  assert (Hrow : forall i, In i (seq 0 10) ->
                   chart_row p' (9 - Z.of_nat i) = expected_row bins most (9 - Z.of_nat i)).
  { intros i Hi. apply in_seq in Hi.
    apply (chart_row_expected bins p' (9 - Z.of_nat i) Hh ltac:(lia) Hnb' Hc). }
  assert (Hs : render p = Some (expected_drawing bins most)).
  { unfold render. rewrite Hr, (render_string_spec p' Hok). unfold expected_drawing.
    do 2 f_equal. apply map_ext_in. intros i Hi.
    rewrite render_line_expected, (Hrow i Hi). reflexivity. }
  assert (Hcat : expected_drawing bins most = concat (map (fun l => l ++ [Byte.x0a]) lines)).
  { unfold expected_drawing, lines. rewrite map_map. reflexivity. }
  assert (Hno : Forall (fun l => ~ In Byte.x0a l) lines).
  { unfold lines. apply Forall_forall. intros l Hl. apply in_map_iff in Hl.
    destruct Hl as (i & <- & _). rewrite <- render_line_expected. apply render_line_units. }
  assert (Hlen : forall row, length (expected_row bins most row) = Z.to_nat (m_num_bins p)).
  { intros row. unfold expected_row. rewrite length_map, length_seq.
    rewrite Hnb. unfold size. lia. }
  exists most, (expected_drawing bins most), p'.
  split.
  { unfold most, reduce_max in *. destruct (reduce_max_in bins 0) as [E|Hin]; [lia|exact Hin]. }
  split; [apply reduce_max_upper|]. split; [reflexivity|]. split; [exact Hnb|].
  split; [exact Hs|]. split; [reflexivity|].
  rewrite Hcat, (split_lines_concat lines Hno).
  split; [reflexivity|]. split; [reflexivity|]. split.
  { unfold lines. apply Forall_forall. intros l Hl. apply in_map_iff in Hl.
    destruct Hl as (i & <- & _). rewrite <- render_line_expected.
    rewrite (proj1 (render_line_units _)), Hlen. reflexivity. }
  split; [exact Hlen|]. split; [exact Hr|]. split; [|reflexivity].
  pose proof Hok as (_ & Hnbr & Hsz).
  set (n := Z.to_nat (m_num_bins p')).
  assert (Hl : length (m_chart p') = (10 * n)%nat) by (unfold size, n in *; lia).
  rewrite <- (concat_chunks n 10 (m_chart p') Hl) at 1. f_equal.
  apply map_ext_in. intros i Hi. rewrite <- (Hrow i Hi).
  apply in_seq in Hi.
  rewrite <- (get_row_cells p' (Z.of_nat i) Hok ltac:(lia)). fold n.
  do 2 f_equal. unfold n. lia.
Qed.

Lemma render_lines_witness :
  exists most s p',
    In most [0; 1; 2; 4; 3; 0] /\ Forall (fun c => c <= most) [0; 1; 2; 4; 3; 0] /\
    m_num_rows (make Flt.zero Flt.zero [0; 1; 2; 4; 3; 0]) = 10 /\
    m_num_bins (make Flt.zero Flt.zero [0; 1; 2; 4; 3; 0]) = size [0; 1; 2; 4; 3; 0] - 2 /\
    render (make Flt.zero Flt.zero [0; 1; 2; 4; 3; 0]) = Some s /\
    s = expected_drawing [0; 1; 2; 4; 3; 0] most /\
    split_lines s []
    = map (fun i => expected_line (expected_row [0; 1; 2; 4; 3; 0] most (9 - Z.of_nat i)))
        (seq 0 10) /\
    length (split_lines s []) = 10%nat /\
    Forall
      (fun l =>
         utf8_units l
         = Nat.add (Z.to_nat (m_num_bins (make Flt.zero Flt.zero [0; 1; 2; 4; 3; 0]))) 2)
      (split_lines s []) /\
    (forall row,
        length (expected_row [0; 1; 2; 4; 3; 0] most row)
        = Z.to_nat (m_num_bins (make Flt.zero Flt.zero [0; 1; 2; 4; 3; 0]))) /\
    render_bins (Z.to_nat (m_num_bins (make Flt.zero Flt.zero [0; 1; 2; 4; 3; 0])))
      (make Flt.zero Flt.zero [0; 1; 2; 4; 3; 0]) 0 = Some p' /\
    m_chart p'
    = concat (map (fun i => expected_row [0; 1; 2; 4; 3; 0] most (9 - Z.of_nat i))
                (seq 0 10)) /\
    map glyph [0; 1; 2; 3; 4; 5; 6; 7; 8]
    = [[Byte.x20];
       [Byte.xe2; Byte.x96; Byte.x81]; [Byte.xe2; Byte.x96; Byte.x82];
       [Byte.xe2; Byte.x96; Byte.x83]; [Byte.xe2; Byte.x96; Byte.x84];
       [Byte.xe2; Byte.x96; Byte.x85]; [Byte.xe2; Byte.x96; Byte.x86];
       [Byte.xe2; Byte.x96; Byte.x87]; [Byte.xe2; Byte.x96; Byte.x88]].
Proof.
  apply (render_lines Flt.zero Flt.zero [0; 1; 2; 4; 3; 0]).
  split; [vm_compute; split; discriminate|].
  split; [repeat constructor; discriminate|].
  apply Exists_cons_tl, Exists_cons_hd. discriminate.
Defined.

(** * Further properties of the statistics engine *)

(** ** compute_percentiles *)

Lemma at_index_nil {A : Type} (idx : Z) : at_index (@nil A) idx = None.
Proof.
  unfold at_index, size. cbn [length].
  destruct (Z.leb_spec 0 idx); destruct (Z.ltb_spec idx (Z.of_nat 0)); cbn; auto; lia.
Qed.

Lemma size_pos {A : Type} (data : list A) : data <> [] -> 0 < size data.
Proof. unfold size. destruct data; [congruence|]. cbn [length]. lia. Qed.

(** X1. [compute_percentiles] fails (reads past the end of [data]) exactly
    when [data] is empty and at least one percentile is requested; in every
    other case it returns one value per request. *)
Theorem compute_percentiles_fails_iff_empty :
  forall (data : list spec_float) (percentiles : list Z),
    size data < 2 ^ 64 ->
    (compute_percentiles data percentiles = None
     <-> data = [] /\ percentiles <> []) /\
    (forall results,
        compute_percentiles data percentiles = Some results ->
        length results = length percentiles).
Proof.
  intros data ps Hsz. destruct data as [|x data].
  - destruct ps as [|p ps].
    + split; [split; [discriminate|intros [_ H]; congruence]|].
      intros results H. injection H as <-. reflexivity.
    + assert (E : compute_percentiles [] (p :: ps) = None).
      { unfold compute_percentiles. cbn [compute_percentiles_loop].
        rewrite at_index_nil. reflexivity. }
      rewrite E. split; [split; [split; [reflexivity|discriminate]|reflexivity]|].
      discriminate.
  - destruct (compute_percentiles_loop_spec (x :: data) ps [] ltac:(discriminate) Hsz)
      as (res & Hres & HF).
    unfold compute_percentiles. rewrite Hres. cbn [app]. split.
    + split; [discriminate|intros [H _]; discriminate].
    + intros results H. injection H as <-. symmetry. exact (Forall2_length HF).
Qed.

Lemma compute_percentiles_fails_iff_empty_witness :
  compute_percentiles [] [50] = None <-> @nil spec_float = [] /\ [50] <> [].
Proof.
  apply (compute_percentiles_fails_iff_empty [] [50]). reflexivity.
Defined.

Lemma nearest_rank_index_mono n p q :
  0 < n -> p <= q -> nearest_rank_index n p <= nearest_rank_index n q.
Proof.
  intros Hn Hpq. unfold nearest_rank_index.
  set (p' := Z.max 0 (Z.min p 100)). set (q' := Z.max 0 (Z.min q 100)).
  assert (Hp : 0 <= p' <= q') by (unfold p', q'; lia).
  assert (Hq : q' <= 100) by (unfold q'; lia).
  destruct (Z.eqb_spec p' 100) as [Ep|Ep]; destruct (Z.eqb_spec q' 100) as [Eq|Eq]; try lia.
  - assert (p' * n / 100 < n); [|lia].
    apply Z.div_lt_upper_bound; nia.
  - apply Z.div_le_mono; nia.
Qed.

Lemma sorted_nth_error data : sorted data ->
  forall i j x y, (i < j)%nat ->
    nth_error data i = Some x -> nth_error data j = Some y -> Flt.leb x y = true.
Proof.
  unfold sorted. induction 1 as [|a l Hs IH Hall]; intros i j x y Hij Hx Hy.
  - destruct i; discriminate.
  - destruct j as [|j]; [lia|]. cbn [nth_error] in Hy.
    destruct i as [|i]; cbn [nth_error] in Hx.
    + injection Hx as <-. rewrite Forall_forall in Hall. apply Hall.
      eapply nth_error_In; eauto.
    + apply (IH i j); auto; lia.
Qed.

(** X2. On sorted samples the percentiles are monotone in the request: for
    [p <= q] the value returned for [p] is at most the value returned for
    [q]. *)
Theorem compute_percentiles_monotone :
  forall (data : list spec_float) (p q : Z),
    samples data -> data <> [] -> 99 * size data < 2 ^ 64 -> p <= q ->
    exists vp vq,
      compute_percentiles data [p; q] = Some [vp; vq] /\
      Flt.leb vp vq = true.
Proof.
  intros data p q [Hwf Hs] Hne Hsz Hpq.
  pose proof (size_pos data Hne) as Hn.
  destruct (compute_percentiles_loop_spec data [p; q] [] Hne ltac:(lia)) as (res & Hres & HF).
  inversion HF as [|? vp ? r1 Hp HF1]; subst.
  inversion HF1 as [|? vq ? r2 Hq HF2]; subst.
  inversion HF2; subst.
  exists vp, vq. split; [exact Hres|].
  rewrite percentile_index_spec in Hp, Hq by lia.
  pose proof (nearest_rank_index_mono (size data) p q Hn Hpq) as Hm.
  assert (H0 : 0 <= nearest_rank_index (size data) p).
  { rewrite <- percentile_index_spec by lia. apply percentile_index_bound. lia. }
  destruct (Z.eq_dec (nearest_rank_index (size data) p) (nearest_rank_index (size data) q))
    as [E|E].
  - rewrite E in Hp. assert (vp = vq) by congruence. subst vq.
    assert (Wv : wf binary64 vp).
    { rewrite Forall_forall in Hwf. apply Hwf. eapply nth_error_In; eauto. }
    rewrite (leb64 vp vp Wv Wv). apply Z.leb_refl.
  - eapply (sorted_nth_error data Hs); [|exact Hp|exact Hq]. lia.
Qed.

Lemma compute_percentiles_monotone_witness :
  exists vp vq,
    compute_percentiles example_ranks [25; 75] = Some [vp; vq] /\
    Flt.leb vp vq = true.
Proof.
  apply (compute_percentiles_monotone example_ranks 25 75).
  - split; repeat constructor.
  - discriminate.
  - reflexivity.
  - lia.
Defined.

Lemma nth_error_last {A : Type} (l : list A) (d : A) :
  l <> [] -> nth_error l (length l - 1) = Some (last l d).
Proof.
  induction l as [|a l IH]; [congruence|]. intros _.
  destruct l as [|b l]; [reflexivity|].
  replace (length (a :: b :: l) - 1)%nat with (S (length (b :: l) - 1))
    by (cbn [length]; lia).
  cbn [nth_error]. rewrite IH by discriminate. reflexivity.
Qed.

(** X3. Requests outside [[0, 100]] are clamped: every request [p <= 0]
    returns the first sample and every request [p >= 100] the last one. *)
Theorem compute_percentiles_clamped :
  forall (x : spec_float) (data : list spec_float) (p : Z),
    size (x :: data) < 2 ^ 64 ->
    (p <= 0 -> compute_percentiles (x :: data) [p] = Some [x]) /\
    (100 <= p -> compute_percentiles (x :: data) [p] = Some [last (x :: data) x]).
Proof.
  intros x data p Hsz.
  assert (Hn : 0 < size (x :: data)) by (apply size_pos; discriminate).
  unfold compute_percentiles. cbn [compute_percentiles_loop]. split; intros Hp.
  - assert (E : percentile_index (size (x :: data)) p = 0).
    { unfold percentile_index, clamp. destruct (Z.ltb_spec p 0).
      - cbn [Z.eqb]. rewrite Z.mul_0_l. reflexivity.
      - assert (p = 0) by lia. subst p. cbn [Z.ltb Z.compare Z.eqb].
        rewrite Z.mul_0_l. reflexivity. }
    rewrite E. unfold at_index.
    destruct (Z.ltb_spec 0 (size (x :: data))); [|lia]. reflexivity.
  - assert (E : percentile_index (size (x :: data)) p = size (x :: data) - 1).
    { unfold percentile_index, clamp. destruct (Z.ltb_spec p 0); [lia|].
      destruct (Z.ltb_spec 100 p).
      - cbn [Z.eqb Pos.eqb]. apply wrap64_small. lia.
      - assert (p = 100) by lia. subst p. cbn [Z.eqb Pos.eqb]. apply wrap64_small. lia. }
    rewrite E. unfold at_index.
    destruct (Z.leb_spec 0 (size (x :: data) - 1)); [|lia].
    destruct (Z.ltb_spec (size (x :: data) - 1) (size (x :: data))); [|lia].
    cbn [andb]. unfold size.
    replace (Z.to_nat (Z.of_nat (length (x :: data)) - 1)) with (length (x :: data) - 1)%nat
      by lia.
    rewrite (nth_error_last (x :: data) x) by discriminate. reflexivity.
Qed.

Lemma compute_percentiles_clamped_witness :
  compute_percentiles example_ranks [-7] = Some [Flt.of_Z binary64 1] /\
  compute_percentiles example_ranks [250] = Some [Flt.of_Z binary64 5].
Proof.
  split.
  - apply (compute_percentiles_clamped (Flt.of_Z binary64 1)
             (map (Flt.of_Z binary64) [2; 3; 4; 5]) (-7)); [reflexivity|lia].
  - apply (compute_percentiles_clamped (Flt.of_Z binary64 1)
             (map (Flt.of_Z binary64) [2; 3; 4; 5]) 250); [reflexivity|lia].
Defined.

(** ** compute_histogram *)

Lemma ltb_nan x : Flt.ltb x S754_nan = false.
Proof. destruct x as [s|s| |s m e]; reflexivity. Qed.

Lemma lower_bound_loop_nan fuel : forall data first len,
  lower_bound_loop fuel data first len S754_nan = first.
Proof.
  induction fuel as [|fuel IH]; intros data first len; cbn [lower_bound_loop]; auto.
  destruct len as [|len]; auto. rewrite ltb_nan. apply IH.
Qed.

Lemma level_nan min stride i :
  min = S754_nan \/ stride = S754_nan -> level min stride i = S754_nan.
Proof.
  intros [-> | ->]; unfold level, Flt.add, Flt.mul; [reflexivity|].
  cbn [SFmul]. destruct min; reflexivity.
Qed.

Lemma histogram_loop_stuck data min stride k : forall i iter histo,
  (forall j, i <= j < i + Z.of_nat k ->
     lower_bound data iter (length data) (level min stride j) = iter) ->
  histogram_loop k data min stride i iter histo = (iter, histo ++ repeat 0 k).
Proof.
  induction k as [|k IH]; intros i iter histo Hlb; cbn [histogram_loop repeat].
  - rewrite app_nil_r. reflexivity.
  - rewrite (Hlb i) by lia. rewrite IH by (intros j Hj; apply Hlb; lia).
    rewrite Z.sub_diag, <- app_assoc. reflexivity.
Qed.

(** X4. When [min] or [stride] is NaN every boundary is NaN, no sample
    compares below it, and [compute_histogram] counts every sample in the
    last entry: the result is [bins + 1] zeros followed by [data.size()],
    whatever the samples are. *)
Theorem compute_histogram_nan_window :
  forall (data : list spec_float) (min stride : spec_float) (bins : Z),
    min = S754_nan \/ stride = S754_nan ->
    compute_histogram data min stride bins
    = repeat 0 (Z.to_nat (wrap64 (bins + 1))) ++ [size data].
Proof.
  intros data min stride bins Hnan. unfold compute_histogram.
  rewrite histogram_loop_stuck.
  - cbn [app]. unfold size. rewrite Z.sub_0_r. reflexivity.
  - intros j _. rewrite (level_nan min stride j Hnan). unfold lower_bound.
    apply lower_bound_loop_nan.
Qed.

Lemma compute_histogram_nan_window_witness :
  compute_histogram example_samples S754_nan (Flt.of_Z f64 1) 4
  = repeat 0 (Z.to_nat (wrap64 (4 + 1))) ++ [size example_samples].
Proof.
  apply (compute_histogram_nan_window example_samples S754_nan (Flt.of_Z f64 1) 4).
  left. reflexivity.
Defined.

(** X5. On an empty sample vector [compute_histogram] returns zeros only,
    for every window. *)
Theorem compute_histogram_empty :
  forall (min stride : spec_float) (bins : Z),
    compute_histogram [] min stride bins
    = repeat 0 (Z.to_nat (wrap64 (bins + 1))) ++ [0].
Proof.
  intros min stride bins. unfold compute_histogram.
  rewrite histogram_loop_stuck; [reflexivity|].
  intros j _. reflexivity.
Qed.

(** ** fit_histogram *)

Lemma histo_at_nth histo i c : histo_at histo i = Some c -> nth (Z.to_nat i) histo 0 = c.
Proof.
  unfold histo_at, at_index. destruct ((0 <=? i) && (i <? size histo)); [|discriminate].
  intros H. apply nth_error_nth. exact H.
Qed.

Lemma min_level_loop_char histo bins thresh :
  0 <= bins -> bins + 1 < 2 ^ 64 -> size histo = bins + 2 ->
  forall fuel min_level,
    1 <= min_level <= bins + 1 -> bins + 1 - min_level < Z.of_nat fuel ->
    exists r, min_level_loop fuel histo bins thresh min_level = Some r /\
              min_level <= r <= bins + 1 /\
              (forall i, min_level <= i < r -> nth (Z.to_nat i) histo 0 < thresh) /\
              (r = bins + 1 \/ thresh <= nth (Z.to_nat r) histo 0).
Proof.
  intros Hb Hb2 Hsz. induction fuel as [|fuel IH]; intros ml Hml Hf; [lia|].
  cbn [min_level_loop]. rewrite (wrap64_small (bins + 1)) by lia.
  destruct (Z.ltb_spec ml (bins + 1)) as [Hlt|Hge].
  - destruct (histo_at_some histo ml ltac:(lia)) as (c & Hc). rewrite Hc.
    pose proof (histo_at_nth histo ml c Hc) as Hn.
    destruct (Z.ltb_spec c thresh) as [Hct|Hct].
    + rewrite wrap64_small by lia.
      destruct (IH (ml + 1) ltac:(lia) ltac:(lia)) as (r & Hr & Hrange & Hlow & Hstop).
      exists r. split; [exact Hr|]. split; [lia|]. split; [|exact Hstop].
      intros i Hi. destruct (Z.eq_dec i ml) as [->|Hne]; [lia|]. apply Hlow. lia.
    + exists ml. split; [reflexivity|]. split; [lia|]. split; [intros i Hi; lia|].
      right. lia.
  - exists ml. split; [reflexivity|]. split; [lia|]. split; [intros i Hi; lia|].
    left. lia.
Qed.

Lemma max_level_loop_char histo bins thresh min_level :
  0 <= bins -> bins + 1 < 2 ^ 64 -> size histo = bins + 2 -> 1 <= min_level ->
  forall fuel max_level,
    min_level <= max_level <= bins + 1 -> max_level - min_level < Z.of_nat fuel ->
    exists r, max_level_loop fuel histo min_level thresh max_level = Some r /\
              min_level <= r <= max_level /\
              (forall i, r < i <= max_level -> nth (Z.to_nat i) histo 0 < thresh) /\
              (r = min_level \/ thresh <= nth (Z.to_nat r) histo 0).
Proof.
  intros Hb Hb2 Hsz Hml. induction fuel as [|fuel IH]; intros xl Hxl Hf; [lia|].
  cbn [max_level_loop].
  destruct (Z.ltb_spec min_level xl) as [Hlt|Hge].
  - destruct (histo_at_some histo xl ltac:(lia)) as (c & Hc). rewrite Hc.
    pose proof (histo_at_nth histo xl c Hc) as Hn.
    destruct (Z.ltb_spec c thresh) as [Hct|Hct].
    + rewrite wrap64_small by lia.
      destruct (IH (xl - 1) ltac:(lia) ltac:(lia)) as (r & Hr & Hrange & Hhigh & Hstop).
      exists r. split; [exact Hr|]. split; [lia|]. split; [|exact Hstop].
      intros i Hi. destruct (Z.eq_dec i xl) as [->|Hne]; [lia|]. apply Hhigh. lia.
    + exists xl. split; [reflexivity|]. split; [lia|]. split; [intros i Hi; lia|].
      right. lia.
  - exists xl. split; [reflexivity|]. split; [lia|]. split; [intros i Hi; lia|].
    left. lia.
Qed.

(** The trimming loops, characterised. *)
Lemma trim_levels_stop_at_threshold_aux :
  forall (histo : list Z) (bins thresh : Z),
    0 <= bins -> bins + 1 < 2 ^ 64 -> size histo = bins + 2 ->
    exists min_level max_level,
      trim_levels histo bins thresh = Some (min_level, max_level) /\
      1 <= min_level <= max_level /\ max_level <= bins + 1 /\
      (forall i, 1 <= i < min_level -> nth (Z.to_nat i) histo 0 < thresh) /\
      (min_level = bins + 1 \/ thresh <= nth (Z.to_nat min_level) histo 0) /\
      (forall i, max_level < i <= bins + 1 -> nth (Z.to_nat i) histo 0 < thresh) /\
      (max_level = min_level \/ thresh <= nth (Z.to_nat max_level) histo 0).
Proof.
  intros histo bins thresh Hb Hb2 Hsz. unfold trim_levels.
  rewrite (wrap64_small (bins + 1)) by lia.
  destruct (min_level_loop_char histo bins thresh Hb Hb2 Hsz
              (S (Z.to_nat (bins + 1))) 1 ltac:(lia) ltac:(lia))
    as (ml & Hml & Hr1 & Hlow & Hstop1).
  rewrite Hml.
  destruct (max_level_loop_char histo bins thresh ml Hb Hb2 Hsz ltac:(lia)
              (S (Z.to_nat (bins + 1))) (bins + 1) ltac:(lia) ltac:(lia))
    as (xl & Hxl & Hr2 & Hhigh & Hstop2).
  rewrite Hxl. exists ml, xl. split; [reflexivity|]. split; [lia|]. split; [lia|].
  split; [exact Hlow|]. split; [exact Hstop1|]. split; [exact Hhigh|exact Hstop2].
Qed.

(** X6. The trimming loops of [fit_histogram] stop at the first entry from
    index 1 upwards, and at the last entry from index [bins + 1] (the
    overflow slot) downwards, that reaches the threshold: every entry they
    pass is below the threshold, [min_level] stops at [bins + 1] at the
    latest and [max_level] at [min_level]. *)
Theorem trim_levels_stop_at_threshold :
  forall (histo : list Z) (bins thresh : Z),
    0 <= bins -> bins + 1 < 2 ^ 64 -> size histo = bins + 2 ->
    exists min_level max_level,
      trim_levels histo bins thresh = Some (min_level, max_level) /\
      1 <= min_level <= max_level /\ max_level <= bins + 1 /\
      (forall i, 1 <= i < min_level -> nth (Z.to_nat i) histo 0 < thresh) /\
      (min_level = bins + 1 \/ thresh <= nth (Z.to_nat min_level) histo 0) /\
      (forall i, max_level < i <= bins + 1 -> nth (Z.to_nat i) histo 0 < thresh) /\
      (max_level = min_level \/ thresh <= nth (Z.to_nat max_level) histo 0).
Proof.
  exact trim_levels_stop_at_threshold_aux.
Qed.

Lemma trim_levels_stop_at_threshold_witness :
  exists min_level max_level,
    trim_levels [0; 1; 5; 2; 0; 0] 4 2 = Some (min_level, max_level) /\
    1 <= min_level <= max_level /\ max_level <= 4 + 1 /\
    (forall i, 1 <= i < min_level -> nth (Z.to_nat i) [0; 1; 5; 2; 0; 0] 0 < 2) /\
    (min_level = 4 + 1 \/ 2 <= nth (Z.to_nat min_level) [0; 1; 5; 2; 0; 0] 0) /\
    (forall i, max_level < i <= 4 + 1 -> nth (Z.to_nat i) [0; 1; 5; 2; 0; 0] 0 < 2) /\
    (max_level = min_level \/ 2 <= nth (Z.to_nat max_level) [0; 1; 5; 2; 0; 0] 0).
Proof.
  apply (trim_levels_stop_at_threshold [0; 1; 5; 2; 0; 0] 4 2).
  - lia.
  - reflexivity.
  - reflexivity.
Defined.

(** The steps of [fit_histogram] all succeed, for every window. *)
Lemma fit_histogram_returns data min stride bins frac :
  size data <= 2 ^ 60 -> 0 <= bins -> bins + 2 < 2 ^ 64 -> fraction frac ->
  let histo := compute_histogram data min stride bins in
  exists thresh min_level max_level,
    fit_threshold (reduce_max histo) frac = Some thresh /\
    trim_levels histo bins thresh = Some (min_level, max_level) /\
    1 <= min_level <= max_level /\ max_level <= bins + 1 /\
    fit_histogram data min stride bins frac
    = Some {| fit_histo :=
                compute_histogram data (level min stride min_level)
                  (Flt.div f64
                     (Flt.sub f64 (level min stride (max_level + 1))
                        (level min stride min_level))
                     (Flt.of_Z f64 bins)) bins;
              fit_min := level min stride min_level;
              fit_stride :=
                Flt.div f64
                  (Flt.sub f64 (level min stride (max_level + 1))
                     (level min stride min_level))
                  (Flt.of_Z f64 bins) |}.
Proof.
  intros Hsz Hb Hb2 Hfrac histo.
  destruct (compute_histogram_inv data min stride bins) as (Hsum & Hnn & Hlen).
  fold histo in Hsum, Hnn, Hlen. rewrite wrap64_small in Hlen by lia.
  pose proof (reduce_max_counts histo (size data) Hsum Hnn) as Hmost.
  destruct (fit_threshold_spec (reduce_max histo) frac ltac:(lia) Hfrac) as (thresh & Hth & _).
  destruct (trim_levels_spec histo bins thresh Hb ltac:(lia) ltac:(unfold size; lia))
    as (ml & xl & Htrim & Hml & Hxl).
  exists thresh, ml, xl. split; [exact Hth|]. split; [exact Htrim|].
  split; [exact Hml|]. split; [exact Hxl|].
  unfold fit_histogram. fold histo. rewrite Hth, Htrim.
  rewrite wrap64_small by lia. reflexivity.
Qed.

(** X7. [fit_histogram] runs to its end for every window, NaN and
    non-positive strides included, and loses no sample: the histogram it
    returns is [compute_histogram] on the window it returns, has
    [bins + 2] non-negative entries and adds up to [data.size()]. *)
Theorem fit_histogram_keeps_samples :
  forall (data : list spec_float) (min stride : spec_float) (bins : Z)
         (frac : spec_float),
    size data <= 2 ^ 60 -> 0 <= bins -> bins + 2 < 2 ^ 64 -> fraction frac ->
    exists r,
      fit_histogram data min stride bins frac = Some r /\
      fit_histo r = compute_histogram data (fit_min r) (fit_stride r) bins /\
      size (fit_histo r) = bins + 2 /\
      Forall (fun c => 0 <= c) (fit_histo r) /\
      sum_counts (fit_histo r) = size data.
Proof.
  intros data min stride bins frac Hsz Hb Hb2 Hfrac.
  destruct (fit_histogram_returns data min stride bins frac Hsz Hb Hb2 Hfrac)
    as (thresh & ml & xl & _ & _ & _ & _ & Hfit).
  eexists. split; [exact Hfit|]. cbn [fit_histo fit_min fit_stride].
  split; [reflexivity|].
  match goal with
  | |- context [compute_histogram data ?m ?s bins] =>
      destruct (compute_histogram_inv data m s bins) as (Hsum & Hnn & Hlen)
  end.
  rewrite wrap64_small in Hlen by lia.
  split; [unfold size at 1; lia|]. split; [exact Hnn|exact Hsum].
Qed.

Lemma fit_histogram_keeps_samples_witness :
  exists r,
    fit_histogram example_samples S754_nan (Flt.of_Z f64 (-1)) 4 (Flt.of_Z f32 1) = Some r /\
    fit_histo r = compute_histogram example_samples (fit_min r) (fit_stride r) 4 /\
    size (fit_histo r) = 4 + 2 /\
    Forall (fun c => 0 <= c) (fit_histo r) /\
    sum_counts (fit_histo r) = size example_samples.
Proof.
  apply (fit_histogram_keeps_samples example_samples S754_nan (Flt.of_Z f64 (-1)) 4
           (Flt.of_Z f32 1)).
  - vm_compute. discriminate.
  - lia.
  - reflexivity.
  - repeat split.
Defined.

(** Integers of at most [prec] bits convert exactly. *)
Lemma of_Z_exact f z : 1 < prec f -> prec f < emax f ->
  0 <= z <= 2 ^ prec f -> val f (Flt.of_Z f z) = z * unit f.
Proof.
  intros Hp He Hz.
  destruct (Z.eq_dec z (2 ^ prec f)) as [->|Hne].
  { apply (of_Z_pow2 f Hp He). lia. }
  destruct (Z.eq_dec z 0) as [->|Hz0].
  { rewrite (of_Z_0 f Hp He). lia. }
  rewrite (proj2 (of_Z_val f Hp He z)).
  pose proof (scale_neg f Hp He) as Hsn.
  pose proof (unit_pos f Hp He) as Hu.
  unfold RN, RNDs. destruct (Z.ltb_spec (z * unit f) 0) as [Hneg|_]; [nia|].
  unfold RNDc, RND, unit.
  rewrite Zdigits2_mul_pow by lia.
  set (d := Zdigits2 z).
  assert (Hd : 0 < d <= prec f).
  { unfold d. split; [apply Zdigits2_pos_pos; lia|].
    pose proof (Zdigits2_le z (2 ^ prec f - 1) ltac:(lia)) as Hle.
    assert (Zdigits2 (2 ^ prec f - 1) = prec f); [|lia].
    apply Zdigits2_unique; [lia|].
    replace (2 ^ prec f) with (2 * 2 ^ (prec f - 1))
      by (rewrite <- Z.pow_succ_r by lia; f_equal; lia).
    assert (0 < 2 ^ (prec f - 1)) by (apply Z.pow_pos_nonneg; lia). lia. }
  set (n := fexp (prec f) (emax f) (d + - scale f + scale f) - scale f).
  assert (Hn : 0 <= n <= - scale f).
  { unfold n, scale in *. rewrite fexp_unfold, emin_unfold in *. lia. }
  replace (z * 2 ^ (- scale f)) with (z * 2 ^ (- scale f - n) * 2 ^ n)
    by (rewrite <- Z.mul_assoc, <- Z.pow_add_r by lia; do 2 f_equal; lia).
  rewrite rne_div_exact by lia.
  apply Z.min_l.
  rewrite <- Z.mul_assoc, <- Z.pow_add_r by lia.
  replace (- scale f - n + n) with (- scale f) by lia.
  apply Z.le_trans with (2 ^ prec f * 2 ^ (- scale f)).
  - apply Z.mul_le_mono_nonneg_r; lia.
  - rewrite <- Z.pow_add_r by lia. apply Z.pow_le_mono_r; lia.
Qed.

(** The threshold is the truncated product, and the product is at most the
    binary32 value of [most]. *)
Lemma fit_threshold_bound most frac :
  0 <= most <= 2 ^ 60 -> fraction frac ->
  exists thresh,
    fit_threshold most frac = Some thresh /\
    0 <= thresh /\ thresh * unit binary32 <= val binary32 (Flt.of_Z f32 most).
Proof.
  intros Hm (Wf & H0 & H1). unfold fit_threshold, f32.
  pose proof (unit_pos binary32 f32_prec f32_emax) as Hu.
  unfold Flt.zero in H0.
  rewrite (leb_val binary32 f32_prec f32_emax _ _ (wf_zero binary32 false) Wf) in H0.
  destruct (of_Z_val binary32 f32_prec f32_emax 1) as [W1 _].
  rewrite (leb_val binary32 f32_prec f32_emax _ _ Wf W1) in H1.
  apply Z.leb_le in H0, H1.
  change (val binary32 (S754_zero false)) with 0 in H0.
  change (val binary32 (Flt.of_Z binary32 1)) with (unit binary32) in H1.
  assert (Ff : finite frac = true).
  { apply (proj2 (val_finite binary32 f32_prec f32_emax frac Wf)).
    pose proof (pow_unit_lt binary32 f32_prec f32_emax 0 ltac:(cbn; lia)) as H.
    change (2 ^ 0) with 1 in H. lia. }
  destruct (of_Z_val binary32 f32_prec f32_emax most) as [Wm Vm].
  assert (Fm : finite (Flt.of_Z binary32 most) = true).
  { apply (of_Z_finite binary32 f32_prec f32_emax most 60); [cbn; lia|lia]. }
  pose proof (of_Z_nonneg binary32 f32_prec f32_emax most ltac:(lia)) as Pm.
  pose proof (of_Z_mono binary32 f32_prec f32_emax most (2 ^ 60) ltac:(lia)) as Hm60.
  rewrite (of_Z_pow2 binary32 f32_prec f32_emax 60) in Hm60 by (cbn; lia).
  destruct (mul_val binary32 f32_prec f32_emax _ frac Wm Wf Fm Ff) as [Wx Vx].
  assert (Hx : 0 <= val binary32 (Flt.mul binary32 (Flt.of_Z binary32 most) frac)
               <= val binary32 (Flt.of_Z binary32 most)).
  { rewrite Vx. split.
    - rewrite <- (RN_0 binary32 f32_prec f32_emax). apply (RN_mono binary32 f32_prec f32_emax).
      apply Z.div_pos; [nia|lia].
    - rewrite <- (RN_val binary32 f32_prec f32_emax _ Wm) at 2.
      apply (RN_mono binary32 f32_prec f32_emax).
      apply Z.div_le_upper_bound; [lia|]. nia. }
  assert (Fx : finite (Flt.mul binary32 (Flt.of_Z binary32 most) frac) = true).
  { apply (proj2 (val_finite binary32 f32_prec f32_emax _ Wx)).
    pose proof (pow_unit_lt binary32 f32_prec f32_emax 60 ltac:(cbn; lia)). lia. }
  destruct (to_int_val binary32 f32_prec f32_emax _ int64_min int64_max (2 ^ 60) Wx Fx
              ltac:(lia) ltac:(cbn; lia) ltac:(cbn; lia)) as (z & Hz & Ez & Hzr).
  exists z. split; [exact Hz|]. split; [lia|].
  subst z.
  pose proof (Z.mul_div_le (val binary32 (Flt.mul binary32 (Flt.of_Z binary32 most) frac))
                (unit binary32) Hu). lia.
Qed.

(** X8. For a largest count of at most [2^24], which binary32 holds
    exactly, and a fraction in [[0, 1]] the threshold of [fit_histogram] is
    between zero and the largest count.  Beyond [2^24] the conversion of the
    count to binary32 can round up and the threshold can exceed every
    count: for [2^24 + 3] and the fraction [1] it is [2^24 + 4]. *)
Theorem fit_threshold_at_most_largest :
  (forall (most : Z) (frac : spec_float),
      0 <= most <= 2 ^ 24 -> fraction frac ->
      exists thresh, fit_threshold most frac = Some thresh /\ 0 <= thresh <= most) /\
  fit_threshold (2 ^ 24 + 3) (Flt.of_Z f32 1) = Some (2 ^ 24 + 4).
Proof.
  split; [|vm_compute; reflexivity].
  intros most frac Hm Hfrac.
  destruct (fit_threshold_bound most frac ltac:(lia) Hfrac) as (t & Ht & H0 & Hle).
  exists t. split; [exact Ht|]. split; [exact H0|].
  unfold f32 in Hle.
  rewrite (of_Z_exact binary32 most f32_prec f32_emax) in Hle by (cbn; lia).
  pose proof (unit_pos binary32 f32_prec f32_emax) as Hu. nia.
Qed.

Lemma fit_threshold_at_most_largest_witness :
  exists thresh,
    fit_threshold 1000 (binary_normalize 24 128 1 (-1) false) = Some thresh /\
    0 <= thresh <= 1000.
Proof.
  apply (proj1 fit_threshold_at_most_largest 1000 (binary_normalize 24 128 1 (-1) false)).
  - lia.
  - repeat split.
Defined.

(** X9. With at most [2^24] samples and a fraction in [[0, 1]] the
    trimming loops do not step past an entry that holds the largest count:
    for such an entry at an index [k] among [1 .. bins + 1] they end with
    [min_level <= k <= max_level].  This is about the two indices only.
    The window [fit_histogram] returns starts at [min + stride * min_level],
    the upper edge of the bin [min_level], and can leave the fullest bin
    below it: on [[0.5, 0.5, 0.5]] with [min = 0], [stride = 1], four bins
    and the fraction [1] the indices are [(1, 1)], the returned window is
    [[1, 2)] and the returned histogram is [[3, 0, 0, 0, 0, 0]]. *)
Theorem trim_levels_bracket_fullest :
  (forall (data : list spec_float) (min stride : spec_float) (bins : Z)
          (frac : spec_float) (k : Z),
      size data <= 2 ^ 24 -> 0 <= bins -> bins + 2 < 2 ^ 64 -> fraction frac ->
      let histo := compute_histogram data min stride bins in
      1 <= k <= bins + 1 -> nth (Z.to_nat k) histo 0 = reduce_max histo ->
      exists thresh min_level max_level,
        fit_threshold (reduce_max histo) frac = Some thresh /\
        trim_levels histo bins thresh = Some (min_level, max_level) /\
        min_level <= k <= max_level) /\
  (let data := [dyadic 1 (-1); dyadic 1 (-1); dyadic 1 (-1)] in
   let min := Flt.of_Z f64 0 in
   let stride := Flt.of_Z f64 1 in
   compute_histogram data min stride 4 = [0; 3; 0; 0; 0; 0] /\
   fit_threshold 3 (Flt.of_Z f32 1) = Some 3 /\
   trim_levels [0; 3; 0; 0; 0; 0] 4 3 = Some (1, 1) /\
   fit_histogram data min stride 4 (Flt.of_Z f32 1)
   = Some {| fit_histo := [3; 0; 0; 0; 0; 0];
             fit_min := Flt.of_Z f64 1;
             fit_stride := dyadic 1 (-2) |} /\
   level (Flt.of_Z f64 1) (dyadic 1 (-2)) 4 = Flt.of_Z f64 2).
Proof.
  split; [|cbv zeta; repeat split; vm_compute; reflexivity].
  intros data min stride bins frac k Hsz Hb Hb2 Hfrac histo Hk Hmax.
  destruct (compute_histogram_inv data min stride bins) as (Hsum & Hnn & Hlen).
  fold histo in Hsum, Hnn, Hlen. rewrite wrap64_small in Hlen by lia.
  pose proof (reduce_max_counts histo (size data) Hsum Hnn) as Hmost.
  destruct (fit_threshold_bound (reduce_max histo) frac ltac:(lia) Hfrac)
    as (t & Ht & H0 & Hle).
  unfold f32 in Hle.
  rewrite (of_Z_exact binary32 (reduce_max histo) f32_prec f32_emax) in Hle by (cbn; lia).
  pose proof (unit_pos binary32 f32_prec f32_emax) as Hu.
  assert (Htm : t <= reduce_max histo) by nia.
  destruct (min_level_loop_char histo bins t Hb ltac:(lia) ltac:(unfold size; lia)
              (S (Z.to_nat (bins + 1))) 1 ltac:(lia) ltac:(lia))
    as (ml & Hml & Hr1 & Hlow & _).
  destruct (max_level_loop_char histo bins t ml Hb ltac:(lia) ltac:(unfold size; lia)
              ltac:(lia) (S (Z.to_nat (bins + 1))) (bins + 1) ltac:(lia) ltac:(lia))
    as (xl & Hxl & Hr2 & Hhigh & _).
  exists t, ml, xl. split; [exact Ht|]. split.
  - unfold trim_levels. rewrite (wrap64_small (bins + 1)) by lia.
    rewrite Hml, Hxl. reflexivity.
  - split.
    + destruct (Z_lt_le_dec k ml) as [Hlt|]; [|lia].
      pose proof (Hlow k ltac:(lia)). lia.
    + destruct (Z_lt_le_dec xl k) as [Hlt|]; [|lia].
      pose proof (Hhigh k ltac:(lia)). lia.
Qed.

Lemma trim_levels_bracket_fullest_witness :
  exists thresh min_level max_level,
    fit_threshold
      (reduce_max (compute_histogram example_samples (Flt.of_Z f64 0) (Flt.of_Z f64 2) 2))
      (Flt.of_Z f32 1) = Some thresh /\
    trim_levels (compute_histogram example_samples (Flt.of_Z f64 0) (Flt.of_Z f64 2) 2)
      2 thresh = Some (min_level, max_level) /\
    min_level <= 1 <= max_level.
Proof.
  apply (proj1 trim_levels_bracket_fullest example_samples (Flt.of_Z f64 0)
           (Flt.of_Z f64 2) 2 (Flt.of_Z f32 1) 1).
  - vm_compute. discriminate.
  - lia.
  - reflexivity.
  - repeat split.
  - lia.
  - reflexivity.
Defined.

Lemma nth_nonneg (l : list Z) (i : nat) : Forall (fun c => 0 <= c) l -> 0 <= nth i l 0.
Proof.
  intros H. destruct (Nat.lt_ge_cases i (length l)) as [Hi|Hi].
  - rewrite Forall_forall in H. apply H. apply nth_In. exact Hi.
  - rewrite nth_overflow by exact Hi. lia.
Qed.

Lemma fit_threshold_zero most s :
  0 <= most <= 2 ^ 60 -> fit_threshold most (S754_zero s) = Some 0.
Proof.
  intros Hm. unfold fit_threshold, f32.
  destruct (of_Z_val binary32 f32_prec f32_emax most) as [Wm Vm].
  assert (Fm : finite (Flt.of_Z binary32 most) = true).
  { apply (of_Z_finite binary32 f32_prec f32_emax most 60); [cbn; lia|lia]. }
  destruct (mul_val binary32 f32_prec f32_emax _ (S754_zero s) Wm (wf_zero binary32 s)
              Fm eq_refl) as [Wx Vx].
  change (val binary32 (S754_zero s)) with 0 in Vx.
  rewrite Z.mul_0_r, Z.div_0_l, (RN_0 binary32 f32_prec f32_emax) in Vx
    by (pose proof (unit_pos binary32 f32_prec f32_emax); lia).
  assert (Fx : finite (Flt.mul binary32 (Flt.of_Z binary32 most) (S754_zero s)) = true).
  { apply (proj2 (val_finite binary32 f32_prec f32_emax _ Wx)). rewrite Vx.
    pose proof (pow_unit_lt binary32 f32_prec f32_emax 0 ltac:(cbn; lia)).
    pose proof (unit_pos binary32 f32_prec f32_emax). lia. }
  destruct (to_int_val binary32 f32_prec f32_emax _ int64_min int64_max 0 Wx Fx
              ltac:(lia) ltac:(cbn; lia) ltac:(cbn; lia)) as (z & Hz & _ & Hzr).
  rewrite Hz. f_equal. lia.
Qed.

(** X10. With the threshold fraction zero [fit_histogram] trims nothing
    ([min_level = 1], [max_level = bins + 1]); the window it returns
    nevertheless starts one stride higher, at [min + stride], and ends at
    [min + stride * (bins + 2)]. *)
Theorem fit_histogram_zero_fraction :
  forall (data : list spec_float) (min stride : spec_float) (bins : Z) (s : bool),
    size data <= 2 ^ 60 -> 0 <= bins -> bins + 2 < 2 ^ 64 ->
    let histo := compute_histogram data min stride bins in
    fit_threshold (reduce_max histo) (S754_zero s) = Some 0 /\
    trim_levels histo bins 0 = Some (1, bins + 1) /\
    exists r,
      fit_histogram data min stride bins (S754_zero s) = Some r /\
      fit_min r = level min stride 1 /\
      fit_stride r
      = Flt.div f64
          (Flt.sub f64 (level min stride (bins + 2)) (level min stride 1))
          (Flt.of_Z f64 bins).
Proof.
  intros data min stride bins s Hsz Hb Hb2 histo.
  destruct (compute_histogram_inv data min stride bins) as (Hsum & Hnn & Hlen).
  fold histo in Hsum, Hnn, Hlen. rewrite wrap64_small in Hlen by lia.
  pose proof (reduce_max_counts histo (size data) Hsum Hnn) as Hmost.
  pose proof (fit_threshold_zero (reduce_max histo) s ltac:(lia)) as Hth.
  destruct (trim_levels_stop_at_threshold_aux histo bins 0 Hb ltac:(lia)
              ltac:(unfold size; lia))
    as (ml & xl & Htrim & Hr1 & Hr2 & Hlow & _ & Hhigh & _).
  assert (Eml : ml = 1).
  { destruct (Z.eq_dec ml 1) as [|Hne]; auto.
    pose proof (Hlow 1 ltac:(lia)). pose proof (nth_nonneg histo (Z.to_nat 1) Hnn). lia. }
  assert (Exl : xl = bins + 1).
  { destruct (Z.eq_dec xl (bins + 1)) as [|Hne]; auto.
    pose proof (Hhigh (bins + 1) ltac:(lia)).
    pose proof (nth_nonneg histo (Z.to_nat (bins + 1)) Hnn). lia. }
  subst ml xl. split; [exact Hth|]. split; [exact Htrim|].
  eexists. split.
  - unfold fit_histogram. fold histo. rewrite Hth, Htrim. reflexivity.
  - cbn [fit_min fit_stride]. rewrite wrap64_small by lia.
    replace (bins + 1 + 1) with (bins + 2) by lia. split; reflexivity.
Qed.

Lemma fit_histogram_zero_fraction_witness :
  exists r,
    fit_histogram example_samples (Flt.of_Z f64 0) (Flt.of_Z f64 1) 4 (S754_zero false)
    = Some r /\
    fit_min r = level (Flt.of_Z f64 0) (Flt.of_Z f64 1) 1 /\
    fit_stride r
    = Flt.div f64
        (Flt.sub f64 (level (Flt.of_Z f64 0) (Flt.of_Z f64 1) (4 + 2))
           (level (Flt.of_Z f64 0) (Flt.of_Z f64 1) 1))
        (Flt.of_Z f64 4).
Proof.
  apply (fit_histogram_zero_fraction example_samples (Flt.of_Z f64 0) (Flt.of_Z f64 1) 4
           false).
  - vm_compute. discriminate.
  - lia.
  - reflexivity.
Defined.

(** ** compute_noise *)

Lemma div_sign_shape f x y :
  x = S754_nan \/ sign_of x = false ->
  y = S754_nan \/ sign_of y = false ->
  Flt.div f x y = S754_nan \/ sign_of (Flt.div f x y) = false.
Proof.
  intros Hx Hy. unfold Flt.div.
  destruct x as [sx|sx| |sx mx ex]; destruct y as [sy|sy| |sy my ey];
    try (left; reflexivity); cbn [sign_of] in *;
    (assert (sy = false) by (destruct Hy as [Hy|Hy]; [discriminate|exact Hy]); subst sy);
    (assert (sx = false) by (destruct Hx as [Hx|Hx]; [discriminate|exact Hx]); subst sx);
    try (right; reflexivity).
  cbn [SFdiv].
  destruct (SFdiv_core_binary (prec f) (emax f) (Zpos mx) ex (Zpos my) ey) as [[mz ez] lz].
  cbn [xorb].
  destruct (binary_round_aux_shape (prec f) (emax f) false mz ez lz)
    as [E|[E|[E|(m' & e' & E)]]]; rewrite E; auto.
Qed.

Lemma sqrt_sign_shape f x :
  let r := Flt.sqrt f x in
  r = S754_nan \/ sign_of r = false \/ exists s, r = S754_zero s.
Proof.
  cbv zeta. unfold Flt.sqrt.
  destruct x as [s|[|]| |[|] m e]; cbn [SFsqrt sign_of]; eauto.
  destruct (SFsqrt_core_binary (prec f) (emax f) (Zpos m) e) as [[mz ez] lz].
  destruct (binary_round_aux_shape (prec f) (emax f) false mz ez lz)
    as [E|[E|[E|(m' & e' & E)]]]; rewrite E; cbn [sign_of]; eauto.
Qed.

(** X11. For a [sum] that is not negative (positive, [+0], [+infinity] or
    NaN) the noise is never negative, whatever the samples are: it is a
    number at or above zero, [+infinity] or NaN. *)
Theorem compute_noise_not_negative :
  forall (data : list spec_float) (sum : spec_float),
    sign_of sum = false ->
    Flt.ltb (compute_noise data sum) Flt.zero = false.
Proof.
  intros data sum Hs. unfold compute_noise.
  destruct (Flt.ltb (Flt.of_Z f64 (Z.of_nat (length data))) (Flt.of_Z f64 5));
    [reflexivity|].
  cbv zeta. apply div_not_negative.
  - apply sqrt_sign_shape.
  - apply div_sign_shape; [right; exact Hs|].
    right. apply of_Z_sign; [lia|exact f64_prec|exact f64_emax].
Qed.

Lemma compute_noise_not_negative_witness :
  Flt.ltb (compute_noise example_ranks (Flt.of_Z f64 15)) Flt.zero = false.
Proof.
  apply (compute_noise_not_negative example_ranks (Flt.of_Z f64 15)). reflexivity.
Defined.

Lemma of_Z_finite_shape n : 1 <= n <= 2 ^ 60 ->
  exists m e, Flt.of_Z f64 n = S754_finite false m e.
Proof.
  intros Hn. unfold f64.
  destruct (of_Z_val binary64 f64_prec f64_emax n) as [[Wv Wn] Vn].
  assert (Fn : finite (Flt.of_Z binary64 n) = true).
  { apply (of_Z_finite binary64 f64_prec f64_emax n 60); [cbn; lia|lia]. }
  pose proof (of_Z_mono binary64 f64_prec f64_emax 1 n ltac:(lia)) as Hm.
  rewrite (of_Z_exact binary64 1 f64_prec f64_emax) in Hm by (cbn; lia).
  pose proof (unit_pos binary64 f64_prec f64_emax) as Hu.
  pose proof (of_Z_sign binary64 n ltac:(lia) f64_prec f64_emax) as Hsg.
  destruct (Flt.of_Z binary64 n) as [s|s| |s m e]; try discriminate.
  - cbn in Hm. lia.
  - cbn [sign_of] in Hsg. subst s. eauto.
Qed.

(** X12. On five or more samples, when [sum] is zero or NaN, the noise is
    not a number one can compare: the mean is zero or NaN and the result
    of the final division is NaN or an infinity. *)
Theorem compute_noise_zero_sum :
  forall (data : list spec_float) (sum : spec_float),
    5 <= size data <= 2 ^ 60 ->
    sum = S754_nan \/ (exists s, sum = S754_zero s) ->
    Flt.is_finite (compute_noise data sum) = false.
Proof.
  intros data sum Hsz Hsum. unfold compute_noise. fold (size data).
  rewrite (noise_not_small (size data) Hsz). cbv zeta.
  destruct (of_Z_finite_shape (size data) ltac:(lia)) as (m & e & En). rewrite En.
  match goal with |- Flt.is_finite (Flt.div f64 ?x ?y) = false => set (a := x) end.
  destruct Hsum as [->|[s ->]].
  - cbn. destruct a; reflexivity.
  - cbn. destruct a as [sa|sa| |sa ma ea]; reflexivity.
Qed.

Lemma compute_noise_zero_sum_witness :
  Flt.is_finite (compute_noise example_ranks (S754_zero false)) = false.
Proof.
  apply (compute_noise_zero_sum example_ranks (S754_zero false)).
  - vm_compute. split; discriminate.
  - right. exists false. reflexivity.
Defined.

(** ** compute_histogram with a stride that is not positive *)

Lemma lower_bound_loop_none data level fuel : forall first len,
  (forall i, (first <= i < first + len)%nat -> Flt.ltb (nth i data S754_nan) level = false) ->
  lower_bound_loop fuel data first len level = first.
Proof.
  induction fuel as [|fuel IH]; intros first len H; cbn [lower_bound_loop]; auto.
  destruct len as [|len]; auto.
  pose proof (Nat.lt_div2 (S len) ltac:(lia)) as Hlt.
  remember (Nat.div2 (S len)) as half eqn:Ehalf. clear Ehalf.
  rewrite (H (first + half)%nat) by lia. apply IH. intros i Hi. apply H. lia.
Qed.

Lemma level_flat min stride i :
  wf binary64 min -> finite min = true ->
  wf binary64 stride -> finite stride = true -> val binary64 stride <= 0 ->
  0 <= i <= 2 ^ 64 ->
  wf binary64 (level min stride i) /\
  val binary64 (level min stride i) <= val binary64 min /\
  (i = 0 -> val binary64 (level min stride i) = val binary64 min).
Proof.
  intros Wm Fm Ws Fs Hs Hi. unfold level, f64.
  pose proof (unit_pos binary64 f64_prec f64_emax) as Hu.
  destruct (of_Z_val binary64 f64_prec f64_emax i) as [Wi Vi].
  assert (Fi : finite (Flt.of_Z binary64 i) = true).
  { apply (of_Z_finite binary64 f64_prec f64_emax i 64); [cbn; lia|lia]. }
  pose proof (of_Z_nonneg binary64 f64_prec f64_emax i ltac:(lia)) as Pi.
  destruct (mul_val binary64 f64_prec f64_emax stride _ Ws Wi Fs Fi) as [Wy Vy].
  set (y := Flt.mul binary64 stride (Flt.of_Z binary64 i)) in *.
  assert (Hy : val binary64 y <= 0).
  { rewrite Vy, <- (RN_0 binary64 f64_prec f64_emax).
    apply (RN_mono binary64 f64_prec f64_emax).
    apply Z.div_le_upper_bound; [lia|]. nia. }
  destruct (add_mono_r binary64 f64_prec f64_emax min y (S754_zero false) Wm Fm Wy
              (wf_zero binary64 false) Hy) as (Wa & _ & Hle).
  destruct (add_val binary64 f64_prec f64_emax min (S754_zero false) Wm
              (wf_zero binary64 false) Fm eq_refl) as [_ V0].
  change (val binary64 (S754_zero false)) with 0 in V0.
  rewrite Z.add_0_r, (RN_val binary64 f64_prec f64_emax min Wm) in V0.
  split; [exact Wa|]. split; [lia|].
  intros ->.
  assert (Vy0 : val binary64 y = 0).
  { rewrite Vy, (of_Z_0 binary64 f64_prec f64_emax), Z.mul_0_r, Z.div_0_l by lia.
    apply (RN_0 binary64 f64_prec f64_emax). }
  assert (Fy : finite y = true).
  { apply (proj2 (val_finite binary64 f64_prec f64_emax y Wy)). rewrite Vy0.
    pose proof (pow_unit_lt binary64 f64_prec f64_emax 0 ltac:(cbn; lia)). lia. }
  rewrite (proj2 (add_val binary64 f64_prec f64_emax min y Wm Wy Fm Fy)).
  rewrite Vy0, Z.add_0_r. apply (RN_val binary64 f64_prec f64_emax min Wm).
Qed.

(** X13. With a stride that is zero or negative no boundary lies above
    [min]: on sorted samples [compute_histogram] counts the samples below
    [min] in the first entry, leaves every bin empty and counts all other
    samples in the last entry. *)
Theorem compute_histogram_flat_stride :
  forall (data : list spec_float) (min stride : spec_float) (bins : Z),
    samples data ->
    wf binary64 min -> finite min = true ->
    wf binary64 stride -> finite stride = true -> Flt.leb stride Flt.zero = true ->
    0 <= bins -> bins + 1 < 2 ^ 64 ->
    compute_histogram data min stride bins
    = count (below min) data :: repeat 0 (Z.to_nat bins)
      ++ [count (at_or_above min) data].
Proof.
  intros data min stride bins Hd Wm Fm Ws Fs Hs Hb Hb2.
  pose proof Hd as [Hwf Hsorted].
  unfold Flt.zero in Hs. rewrite (leb64 stride _ Ws (wf_zero binary64 false)) in Hs.
  apply Z.leb_le in Hs. change (val binary64 (S754_zero false)) with 0 in Hs.
  unfold compute_histogram. rewrite wrap64_small by lia.
  replace (Z.to_nat (bins + 1)) with (S (Z.to_nat bins)) by lia.
  cbn [histogram_loop app].
  destruct (level_flat min stride 0 Wm Fm Ws Fs Hs ltac:(lia)) as (W0 & _ & V0).
  specialize (V0 eq_refl).
  assert (E0 : Z.of_nat (lower_bound data 0 (length data) (level min stride 0))
               = count (below min) data).
  { rewrite (lower_bound_sorted data _ 0%nat Hd W0)
      by (pose proof (count_nonneg (below (level min stride 0)) data); lia).
    apply count_below_eq; assumption. }
  set (iter := lower_bound data 0 (length data) (level min stride 0)) in *.
  rewrite histogram_loop_stuck.
  - change (Z.of_nat 0) with 0. rewrite Z.sub_0_r, E0. cbn [app]. do 3 f_equal. rewrite <- (count_above data min Hwf Wm). unfold size. lia.
  - intros j Hj.
    destruct (level_flat min stride j Wm Fm Ws Fs Hs ltac:(lia)) as (Wj & Vj & _).
    unfold lower_bound. apply lower_bound_loop_none. intros i Hi.
    assert (Wi : wf binary64 (nth i data S754_nan)).
    { rewrite Forall_forall in Hwf. apply Hwf. apply nth_In. lia. }
    pose proof (sorted_partition data min Hd Wm i ltac:(lia)) as Hp.
    rewrite (ltb64 _ _ Wi Wm) in Hp. rewrite (ltb64 _ _ Wi Wj).
    apply Z.ltb_ge.
    destruct (Z.ltb_spec (val binary64 (nth i data S754_nan)) (val binary64 min)) as [Hlt|Hge];
      [|lia].
    pose proof (proj1 Hp eq_refl) as Hcnt. unfold count in E0. lia.
Qed.

Lemma compute_histogram_flat_stride_witness :
  compute_histogram example_samples (Flt.of_Z f64 2) (Flt.of_Z f64 0) 4
  = count (below (Flt.of_Z f64 2)) example_samples :: repeat 0 (Z.to_nat 4)
    ++ [count (at_or_above (Flt.of_Z f64 2)) example_samples].
Proof.
  apply (compute_histogram_flat_stride example_samples (Flt.of_Z f64 2) (Flt.of_Z f64 0) 4).
  - split; repeat constructor.
  - split; reflexivity.
  - reflexivity.
  - split; reflexivity.
  - reflexivity.
  - reflexivity.
  - lia.
  - reflexivity.
Defined.

(** * Further properties of the histogram renderer *)

(** ** Degenerate histograms *)

Lemma reduce_max_zeros bins : Forall (eq 0) bins -> reduce_max bins = 0.
Proof.
  unfold reduce_max. induction 1 as [|x l Hx _ IH]; [reflexivity|].
  subst x. cbn [fold_left]. exact IH.
Qed.

(** X14. A histogram whose entries are all zero is outside the domain of
    [render]: the scale factor is [1 / 0 = +infinity], the first scaled
    value [0 * infinity] is NaN, and its conversion to [std::size_t] is
    undefined.  With no bin at all (only the two sentinel slots) nothing is
    converted and [render] returns ten empty rows, whatever the sentinels
    hold. *)
Theorem render_all_zero_undefined :
  (forall (min stride : spec_float) (bins : list Z),
      3 <= size bins < 2 ^ 64 -> Forall (eq 0) bins ->
      let p := make min stride bins in
      m_scale_factor p = S754_infinity false /\
      scaled_value p 0 = S754_nan /\
      render p = None) /\
  (forall (min stride : spec_float) (under over : Z),
      render (make min stride [under; over])
      = Some (concat (repeat [Byte.x7c; Byte.x7c; Byte.x0a] 10))).
Proof.
  split.
  - intros min stride bins Hsz Hz p.
    assert (Hs : m_scale_factor p = S754_infinity false).
    { unfold p. cbn [make m_scale_factor]. rewrite (reduce_max_zeros bins Hz). reflexivity. }
    assert (Hx : scaled_value p 0 = S754_nan).
    { unfold scaled_value. rewrite Hs. reflexivity. }
    split; [exact Hs|]. split; [exact Hx|].
    assert (Hnb : m_num_bins p = size bins - 2).
    { unfold p. cbn [make m_num_bins]. apply wrap64_small. lia. }
    destruct (at_index_some bins 1 ltac:(lia)) as (v & Hv & Hn).
    assert (v = 0).
    { rewrite Forall_forall in Hz. symmetry. apply Hz. eapply nth_error_In. exact Hn. }
    subst v.
    unfold render. destruct (Z.to_nat (m_num_bins p)) as [|k] eqn:Ek; [lia|].
    cbn [render_bins]. unfold render_bin.
    replace (m_bins p) with bins by reflexivity.
    change (wrap64 (0 + 1)) with 1. rewrite Hv, Hx. reflexivity.
  - intros min stride under over. reflexivity.
Qed.

Lemma render_all_zero_undefined_witness :
  m_scale_factor (make Flt.zero Flt.zero [0; 0; 0; 0]) = S754_infinity false /\
  scaled_value (make Flt.zero Flt.zero [0; 0; 0; 0]) 0 = S754_nan /\
  render (make Flt.zero Flt.zero [0; 0; 0; 0]) = None.
Proof.
  apply (proj1 render_all_zero_undefined Flt.zero Flt.zero [0; 0; 0; 0]).
  - vm_compute. split; [discriminate|reflexivity].
  - repeat constructor.
Defined.

(** ** Quantisation *)

(** The scale factor and the scaled values of a histogram. *)
Lemma scale_factor_wf min stride bins :
  histogram bins ->
  let s := m_scale_factor (make min stride bins) in
  wf binary32 s /\ finite s = true /\ 0 <= val binary32 s.
Proof.
  intros Hh. pose proof (histogram_max bins Hh) as HM. cbv zeta.
  cbn [make m_scale_factor]. rewrite one_f32. unfold f32.
  destruct (of_Z_val binary32 f32_prec f32_emax (reduce_max bins)) as [WM VM].
  assert (HM1 : unit binary32 <= val binary32 (Flt.of_Z binary32 (reduce_max bins))).
  { pose proof (of_Z_mono binary32 f32_prec f32_emax 1 (reduce_max bins) ltac:(lia)) as H.
    rewrite (of_Z_exact binary32 1 f32_prec f32_emax) in H by (cbn; lia). lia. }
  assert (HM2 : val binary32 (Flt.of_Z binary32 (reduce_max bins)) <= 2 ^ 63 * unit binary32).
  { pose proof (of_Z_mono binary32 f32_prec f32_emax (reduce_max bins) (2 ^ 63)
                  ltac:(unfold int64_max in HM; lia)) as H.
    rewrite (of_Z_pow2 binary32 f32_prec f32_emax) in H by (cbn; lia). exact H. }
  destruct (recip_bound binary32 f32_prec f32_emax 8388608 (Flt.of_Z binary32 (reduce_max bins))
              63 ltac:(lia) ltac:(cbn; lia) ltac:(reflexivity) WM (conj HM1 HM2))
    as (Ws & Fs & Ps & _).
  auto.
Qed.

Lemma ten_wf :
  wf binary32 (Flt.of_Z f32 10) /\ finite (Flt.of_Z f32 10) = true /\
  0 <= val binary32 (Flt.of_Z f32 10).
Proof. split; [split; reflexivity|]. split; [reflexivity|]. rewrite ten_f32. vm_compute. discriminate. Qed.

(** X15. Taller bins never draw shorter: for two counts [v1 <= v2] of a
    histogram the number of full rows of [v1] is at most that of [v2]. *)
Theorem num_full_monotone :
  forall (min stride : spec_float) (bins : list Z) (v1 v2 : Z),
    histogram bins -> 0 <= v1 <= v2 -> v2 <= reduce_max bins ->
    let p := make min stride bins in
    exists n1 n2,
      num_full_of p (scaled_value p v1) = Some n1 /\
      num_full_of p (scaled_value p v2) = Some n2 /\
      0 <= n1 <= n2 /\ n2 <= m_num_rows p.
Proof.
  intros min stride bins v1 v2 Hh Hv1 Hv2 p.
  pose proof (unit_pos binary32 f32_prec f32_emax) as Hu.
  destruct (bin_quantised min stride bins v1 Hh ltac:(lia))
    as (_ & n1 & e1 & Hn1 & _ & En1 & _ & Hr1 & _).
  destruct (bin_quantised min stride bins v2 Hh ltac:(lia))
    as (_ & n2 & e2 & Hn2 & _ & En2 & _ & Hr2 & _).
  fold p in Hn1, Hn2, En1, En2, Hr1, Hr2.
  exists n1, n2. split; [exact Hn1|]. split; [exact Hn2|]. split; [|lia].
  split; [lia|]. rewrite En1, En2. apply Z.div_le_mono; [lia|].
  destruct (scale_factor_wf min stride bins Hh) as (Ws & Fs & Ps).
  destruct (scaled_value_wf min stride bins v1 Hh ltac:(lia)) as (W1 & F1 & _).
  destruct (scaled_value_wf min stride bins v2 Hh ltac:(lia)) as (W2 & F2 & _).
  destruct ten_wf as (Wt & Ft & Pt).
  fold p in Ws, Fs, Ps, W1, F1, W2, F2.
  change (m_num_rows p) with 10. unfold f32 in *.
  apply (mul_mono_l binary32 f32_prec f32_emax); auto.
  unfold scaled_value.
  destruct (of_Z_val binary32 f32_prec f32_emax v1) as [Wv1 _].
  destruct (of_Z_val binary32 f32_prec f32_emax v2) as [Wv2 _].
  pose proof (histogram_max bins Hh) as HM. unfold int64_max in HM.
  apply (mul_mono_l binary32 f32_prec f32_emax); auto.
  - apply (of_Z_finite binary32 f32_prec f32_emax v1 63); [cbn; lia|lia].
  - apply (of_Z_finite binary32 f32_prec f32_emax v2 63); [cbn; lia|lia].
  - apply (of_Z_mono binary32 f32_prec f32_emax). lia.
Qed.

Lemma num_full_monotone_witness :
  exists n1 n2,
    num_full_of (make Flt.zero Flt.zero [0; 1; 2; 4; 3; 0])
      (scaled_value (make Flt.zero Flt.zero [0; 1; 2; 4; 3; 0]) 1) = Some n1 /\
    num_full_of (make Flt.zero Flt.zero [0; 1; 2; 4; 3; 0])
      (scaled_value (make Flt.zero Flt.zero [0; 1; 2; 4; 3; 0]) 3) = Some n2 /\
    0 <= n1 <= n2 /\ n2 <= m_num_rows (make Flt.zero Flt.zero [0; 1; 2; 4; 3; 0]).
Proof.
  apply (num_full_monotone Flt.zero Flt.zero [0; 1; 2; 4; 3; 0] 1 3).
  - split; [vm_compute; split; discriminate|].
    split; [repeat constructor; discriminate|].
    apply Exists_cons_tl, Exists_cons_hd. discriminate.
  - lia.
  - vm_compute. discriminate.
Defined.

(** A value below one is at most the largest value below one. *)
Lemma below_one f x : 1 < prec f -> prec f < emax f ->
  wf f x -> 0 <= val f x < unit f ->
  val f x <= unit f - 2 ^ (- prec f - scale f).
Proof.
  intros Hp He [Hv Hn] [H0 H1].
  pose proof (scale_neg f Hp He) as Hsn.
  pose proof (scale_le_emin f Hp He) as Hse.
  assert (Hp0 : 0 < prec f) by lia.
  assert (Hstep : 0 < 2 ^ (- prec f - scale f)).
  { apply Z.pow_pos_nonneg; [lia|]. unfold scale in *. rewrite emin_unfold in *. lia. }
  assert (Hunit : unit f = 2 ^ prec f * 2 ^ (- prec f - scale f)).
  { unfold unit. rewrite <- Z.pow_add_r; [f_equal; lia|lia|].
    unfold scale in *. rewrite emin_unfold in *. lia. }
  assert (Hpp : 0 < 2 ^ prec f) by (apply Z.pow_pos_nonneg; lia).
  destruct x as [s|s| |s m e]; try discriminate; unfold val in *; cbn [ordv] in *.
  - nia.
  - pose proof (pow_unit_lt f Hp He 0 ltac:(lia)) as H. change (2 ^ 0) with 1 in H.
    destruct s; cbn [cond_Zopp] in *; lia.
  - cbn in Hv.
    destruct (finite_value_bounds (prec f) (emax f) Hp0 He (scale f) Hse m e Hv) as [Hle Hb].
    destruct s; cbn [cond_Zopp] in *; [lia|].
    destruct (bounded_inv (prec f) (emax f) Hp0 He (scale f) Hse m e Hv) as [Hc _].
    destruct (canonical_value_lt (prec f) (emax f) Hp0 He (scale f) Hse m e Hc)
      as (D1 & D2 & D3).
    pose proof (Zdigits2_bounds m) as [B1 B2].
    remember (Zdigits2 (Zpos m)) as d eqn:Hd.
    assert (Hm : Zpos m < 2 ^ prec f).
    { apply Z.lt_le_trans with (2 ^ d); [exact B2|]. apply Z.pow_le_mono_r; lia. }
    assert (HPe : 0 < 2 ^ (e - scale f)) by (apply Z.pow_pos_nonneg; lia).
    assert (Hee : e <= - prec f).
    { destruct (Z_le_gt_dec e (- prec f)) as [|Hgt]; auto. exfalso.
      assert (d = prec f) by (apply D3; rewrite emin_unfold; lia). subst d.
      rewrite H in B1.
      assert (2 ^ (- scale f) <= 2 ^ (prec f - 1) * 2 ^ (e - scale f)).
      { rewrite <- Z.pow_add_r by lia. apply Z.pow_le_mono_r; lia. }
      unfold unit in H1. nia. }
    assert (2 ^ (e - scale f) <= 2 ^ (- prec f - scale f))
      by (apply Z.pow_le_mono_r; lia).
    nia.
Qed.

(** The partial row of a bin is drawn at seven eighths at most. *)
Lemma eighths_below_eight x :
  wf binary32 x -> finite x = true -> 0 <= val binary32 x <= unit binary32 ->
  exists eighths, eighths_of x = Some eighths /\ 0 <= eighths <= 7.
Proof.
  intros Wx Fx Hx. unfold eighths_of, f32.
  pose proof (unit_pos binary32 f32_prec f32_emax) as Hu.
  destruct (fmod1_val binary32 f32_prec f32_emax x Wx Fx ltac:(lia)) as (Wy & Fy & Hy).
  set (y := Flt.fmod1 binary32 x) in *.
  assert (Hy1 : val binary32 y < unit binary32).
  { destruct (Z.eq_dec (val binary32 x) (unit binary32)) as [E|Hne]; [|lia].
    assert (Ex : x = S754_finite false 8388608 (-23)).
    { destruct Wx as [Hv Hn].
      destruct x as [s|s| |s m e]; try discriminate.
      cbn in Hv.
      destruct (finite_value_bounds 24 128 ltac:(lia) ltac:(lia) (scale binary32)
                    (scale_le_emin binary32 f32_prec f32_emax) m e Hv) as [Hle Hb].
        destruct s; [unfold val in E; cbn [ordv cond_Zopp] in E; lia|].
        assert (W1 : valid_binary 24 128 (S754_finite false 8388608 (-23)) = true)
          by reflexivity.
        cbn [valid_binary] in W1.
        destruct (Z.compare_spec e (-23)) as [Ee|Ee|Ee].
        + subst e. unfold val in E. cbn [ordv cond_Zopp] in E.
          change (unit binary32) with (8388608 * 2 ^ (-23 - scale binary32)) in E.
          assert (0 < 2 ^ (-23 - scale binary32)) by (vm_compute; reflexivity).
          assert (Zpos m = 8388608) by nia. congruence.
        + pose proof (canonical_lt 24 128 ltac:(lia) ltac:(lia) (scale binary32)
                        (scale_le_emin binary32 f32_prec f32_emax) m e 8388608 (-23) Hv W1 Ee)
            as Hlt.
          unfold val in E. cbn [ordv cond_Zopp] in E.
          change (unit binary32) with (8388608 * 2 ^ (-23 - scale binary32)) in E. lia.
        + pose proof (canonical_lt 24 128 ltac:(lia) ltac:(lia) (scale binary32)
                        (scale_le_emin binary32 f32_prec f32_emax) 8388608 (-23) m e W1 Hv Ee)
            as Hlt.
          unfold val in E. cbn [ordv cond_Zopp] in E.
          change (unit binary32) with (8388608 * 2 ^ (-23 - scale binary32)) in E. lia. }
    unfold y. rewrite Ex. vm_compute. reflexivity. }
  pose proof (below_one binary32 y f32_prec f32_emax Wy ltac:(lia)) as Hpred.
  destruct (of_Z_val binary32 f32_prec f32_emax 8) as [W8 _].
  destruct (mul_val binary32 f32_prec f32_emax y (Flt.of_Z binary32 8) Wy W8 Fy eq_refl)
    as [Wt Vt].
  pose proof eight_f32 as H8. unfold f32 in H8. rewrite H8 in Vt.
  replace (val binary32 y * (8 * unit binary32) / unit binary32) with (8 * val binary32 y)
    in Vt by (rewrite Z.mul_assoc, Z.div_mul by lia; lia).
  set (top := S754_finite false 16777215 (-21)).
  assert (Wtop : wf binary32 top) by (split; reflexivity).
  assert (Etop : val binary32 top = 8 * (unit binary32 - 2 ^ (- prec binary32 - scale binary32)))
    by (vm_compute; reflexivity).
  assert (Ht : 0 <= val binary32 (Flt.mul binary32 y (Flt.of_Z binary32 8))
               <= val binary32 top).
  { rewrite Vt. split.
    - rewrite <- (RN_0 binary32 f32_prec f32_emax). apply (RN_mono binary32 f32_prec f32_emax).
      lia.
    - rewrite <- (RN_val binary32 f32_prec f32_emax top Wtop).
      apply (RN_mono binary32 f32_prec f32_emax). lia. }
  assert (Hstep : 0 < 2 ^ (- prec binary32 - scale binary32)) by (vm_compute; reflexivity).
  assert (Ft : finite (Flt.mul binary32 y (Flt.of_Z binary32 8)) = true).
  { apply (proj2 (val_finite binary32 f32_prec f32_emax _ Wt)).
    pose proof (pow_unit_lt binary32 f32_prec f32_emax 3 ltac:(cbn; lia)) as H.
    change (2 ^ 3) with 8 in H. lia. }
  destruct (to_int_val binary32 f32_prec f32_emax _ 0 255 8 Wt Ft ltac:(lia)
              ltac:(lia) ltac:(lia)) as (e8 & He8 & Ee8 & He8r).
  exists e8. fold y. split; [exact He8|]. split; [lia|].
  assert (e8 < 8); [|lia]. subst e8.
  apply Z.div_lt_upper_bound; lia.
Qed.

(** X16. After the bin loop of [render] every cell of the chart holds a
    level from 0 to 8, so that [render_eighth] meets its [default] branch
    for level 0 only, and the partial row of a bin is drawn at seven
    eighths at most. *)
Theorem render_levels_in_range :
  forall (min stride : spec_float) (bins : list Z),
    histogram bins ->
    let p := make min stride bins in
    exists p',
      render_bins (Z.to_nat (m_num_bins p)) p 0 = Some p' /\
      (forall row b, 0 <= row < m_num_rows p -> 0 <= b < m_num_bins p ->
         0 <= cell p' row b <= 8) /\
      (forall b value, 0 <= b < m_num_bins p -> at_index bins (b + 1) = Some value ->
         exists eighths,
           eighths_of (scaled_value p value) = Some eighths /\ 0 <= eighths <= 7).
Proof.
  intros min stride bins Hh p.
  pose proof (make_num_bins min stride bins Hh) as Hnb. fold p in Hnb.
  destruct (render_bins_make min stride bins Hh) as (p' & Hr & _ & _ & Hc). fold p in Hr, Hc.
  exists p'. split; [exact Hr|]. split.
  - intros row b Hrow Hb.
    destruct (make_bin_levels min stride bins b Hh ltac:(lia))
      as (nf & e8 & Hnf & He8 & Hnfr & He8r).
    fold p in Hnf, He8.
    rewrite (Hc row b nf e8 Hrow Hb Hnf He8). unfold cell_level.
    destruct (row <? nf); [lia|]. destruct (row =? nf); lia.
  - intros b value Hb Hat.
    destruct (make_bin_value bins b Hh ltac:(lia)) as (value' & Hat' & Hv).
    assert (value' = value) by congruence. subst value'.
    destruct (scaled_value_wf min stride bins value Hh Hv) as (Wx & Fx & Hx).
    apply eighths_below_eight; assumption.
Qed.

Lemma render_levels_in_range_witness :
  exists p',
    render_bins (Z.to_nat (m_num_bins (make Flt.zero Flt.zero [0; 1; 2; 4; 3; 0])))
      (make Flt.zero Flt.zero [0; 1; 2; 4; 3; 0]) 0 = Some p' /\
    (forall row b,
        0 <= row < m_num_rows (make Flt.zero Flt.zero [0; 1; 2; 4; 3; 0]) ->
        0 <= b < m_num_bins (make Flt.zero Flt.zero [0; 1; 2; 4; 3; 0]) ->
        0 <= cell p' row b <= 8) /\
    (forall b value,
        0 <= b < m_num_bins (make Flt.zero Flt.zero [0; 1; 2; 4; 3; 0]) ->
        at_index [0; 1; 2; 4; 3; 0] (b + 1) = Some value ->
        exists eighths,
          eighths_of (scaled_value (make Flt.zero Flt.zero [0; 1; 2; 4; 3; 0]) value)
          = Some eighths /\ 0 <= eighths <= 7).
Proof.
  apply (render_levels_in_range Flt.zero Flt.zero [0; 1; 2; 4; 3; 0]).
  split; [vm_compute; split; discriminate|].
  split; [repeat constructor; discriminate|].
  apply Exists_cons_tl, Exists_cons_hd. discriminate.
Defined.

Lemma mul_zero_val x c :
  wf binary32 x -> finite x = true -> val binary32 x = 0 ->
  wf binary32 c -> finite c = true ->
  val binary32 (Flt.mul f32 x c) = 0 /\ val binary32 (Flt.mul f32 c x) = 0.
Proof.
  intros Wx Fx Hx Wc Fc. unfold f32.
  pose proof (unit_pos binary32 f32_prec f32_emax) as Hu.
  rewrite (proj2 (mul_val binary32 f32_prec f32_emax x c Wx Wc Fx Fc)).
  rewrite (proj2 (mul_val binary32 f32_prec f32_emax c x Wc Wx Fc Fx)).
  rewrite Hx, Z.mul_0_l, Z.mul_0_r, Z.div_0_l by lia.
  split; apply (RN_0 binary32 f32_prec f32_emax).
Qed.

(** X17. A bin that holds no sample is drawn as a blank column: all ten
    cells of its column stay at level 0. *)
Theorem render_empty_bin_blank :
  forall (min stride : spec_float) (bins : list Z) (b : Z),
    histogram bins ->
    let p := make min stride bins in
    0 <= b < m_num_bins p -> at_index bins (b + 1) = Some 0 ->
    exists p',
      render_bins (Z.to_nat (m_num_bins p)) p 0 = Some p' /\
      forall row, 0 <= row < m_num_rows p -> cell p' row b = 0.
Proof.
  intros min stride bins b Hh p Hb Hat.
  pose proof (unit_pos binary32 f32_prec f32_emax) as Hu.
  pose proof (histogram_max bins Hh) as HM.
  destruct (render_bins_make min stride bins Hh) as (p' & Hr & _ & _ & Hc). fold p in Hr, Hc.
  exists p'. split; [exact Hr|]. intros row Hrow.
  destruct (bin_quantised min stride bins 0 Hh ltac:(lia))
    as (_ & nf & e8 & Hnf & He8 & Enf & Ee8 & _ & _).
  fold p in Hnf, He8, Enf, Ee8.
  destruct (scale_factor_wf min stride bins Hh) as (Ws & Fs & Ps). fold p in Ws, Fs, Ps.
  destruct (scaled_value_wf min stride bins 0 Hh ltac:(lia)) as (Wx & Fx & Hx).
  fold p in Wx, Fx, Hx.
  destruct (of_Z_val binary32 f32_prec f32_emax 0) as [W0 _].
  assert (Vx : val binary32 (scaled_value p 0) = 0).
  { unfold scaled_value.
    exact (proj1 (mul_zero_val (Flt.of_Z f32 0) (m_scale_factor p) W0 eq_refl
                    (of_Z_0 binary32 f32_prec f32_emax) Ws Fs)). }
  destruct ten_wf as (Wt & Ft & _).
  destruct (of_Z_val binary32 f32_prec f32_emax 8) as [W8 _].
  destruct (fmod1_val binary32 f32_prec f32_emax (scaled_value p 0) Wx Fx ltac:(lia))
    as (Wy & Fy & Hy).
  assert (Enf0 : nf = 0).
  { rewrite Enf. change (m_num_rows p) with 10.
    pose proof (proj1 (mul_zero_val _ (Flt.of_Z f32 10) Wx Fx Vx Wt Ft)) as H.
    unfold f32 in H |- *. rewrite H. apply Z.div_0_l. lia. }
  assert (Ee80 : e8 = 0).
  { rewrite Ee8.
    pose proof (proj1 (mul_zero_val _ (Flt.of_Z f32 8) Wy Fy ltac:(lia) W8 eq_refl)) as H.
    unfold f32 in H |- *. rewrite H. apply Z.div_0_l. lia. }
  clear Enf Ee8. subst nf e8.
  rewrite (Hc row b 0 0 Hrow Hb).
  - unfold cell_level. destruct (Z.ltb_spec row 0); [lia|]. destruct (row =? 0); reflexivity.
  - unfold bin_num_full. replace (m_bins p) with bins by reflexivity. rewrite Hat. exact Hnf.
  - unfold bin_eighths. replace (m_bins p) with bins by reflexivity. rewrite Hat. exact He8.
Qed.

Lemma render_empty_bin_blank_witness :
  exists p',
    render_bins (Z.to_nat (m_num_bins (make Flt.zero Flt.zero [0; 1; 0; 4; 3; 0])))
      (make Flt.zero Flt.zero [0; 1; 0; 4; 3; 0]) 0 = Some p' /\
    forall row, 0 <= row < m_num_rows (make Flt.zero Flt.zero [0; 1; 0; 4; 3; 0]) ->
      cell p' row 1 = 0.
Proof.
  apply (render_empty_bin_blank Flt.zero Flt.zero [0; 1; 0; 4; 3; 0] 1).
  - split; [vm_compute; split; discriminate|].
    split; [repeat constructor; discriminate|].
    apply Exists_cons_tl, Exists_cons_hd. discriminate.
  - vm_compute. split; [discriminate|reflexivity].
  - reflexivity.
Defined.

(** ** The chart buffer *)

(** X18. Writing a cell and reading it back: [write_element] with a row
    and a column inside the chart succeeds, the cell then holds the level
    written, and every other cell, the bin vector and the scale factor are
    as before. *)
Theorem write_element_read_back :
  forall (p : histogram_printer) (bin row eighths : Z),
    chart_ok p -> 0 <= row < m_num_rows p -> 0 <= bin < m_num_bins p ->
    exists p',
      write_element p bin row eighths = Some p' /\
      chart_ok p' /\ same_params p p' /\
      cell p' row bin = eighths /\
      forall r b, 0 <= r < m_num_rows p -> 0 <= b < m_num_bins p ->
        (r, b) <> (row, bin) -> cell p' r b = cell p r b.
Proof.
  intros p bin row eighths Hok Hrow Hbin.
  assert (Hrows : m_num_rows p = 10) by apply Hok. rewrite Hrows in *.
  destruct (write_element_spec p bin row eighths Hok Hrow Hbin)
    as (p' & Hw & Hok' & Hsp & Hc).
  exists p'. split; [exact Hw|]. split; [exact Hok'|]. split; [exact Hsp|]. split.
  - rewrite (Hc row bin Hrow Hbin), !Z.eqb_refl. reflexivity.
  - intros r b Hr Hb Hne. rewrite (Hc r b Hr Hb).
    destruct (Z.eqb_spec b bin) as [->|]; [|reflexivity].
    destruct (Z.eqb_spec r row) as [->|]; [congruence|reflexivity].
Qed.

Lemma write_element_read_back_witness :
  exists p',
    write_element (make Flt.zero Flt.zero [0; 1; 2; 4; 3; 0]) 2 7 5 = Some p' /\
    chart_ok p' /\ same_params (make Flt.zero Flt.zero [0; 1; 2; 4; 3; 0]) p' /\
    cell p' 7 2 = 5 /\
    forall r b,
      0 <= r < m_num_rows (make Flt.zero Flt.zero [0; 1; 2; 4; 3; 0]) ->
      0 <= b < m_num_bins (make Flt.zero Flt.zero [0; 1; 2; 4; 3; 0]) ->
      (r, b) <> (7, 2) -> cell p' r b = cell (make Flt.zero Flt.zero [0; 1; 2; 4; 3; 0]) r b.
Proof.
  apply (write_element_read_back (make Flt.zero Flt.zero [0; 1; 2; 4; 3; 0]) 2 7 5).
  - vm_compute. repeat split; discriminate.
  - vm_compute. split; [discriminate|reflexivity].
  - vm_compute. split; [discriminate|reflexivity].
Defined.



(** X20. The rows [get_row] hands to [render_string] cut the chart buffer
    into [num_rows] consecutive pieces of [num_bins] cells: every row index
    below [num_rows] yields a row, and the rows in order are the buffer. *)
Theorem get_row_partition :
  forall p : histogram_printer,
    chart_ok p ->
    exists rows,
      size rows = m_num_rows p /\
      (forall row, 0 <= row < m_num_rows p ->
         get_row p row = Some (nth (Z.to_nat row) rows [])) /\
      Forall (fun cells => size cells = m_num_bins p) rows /\
      concat rows = m_chart p.
Proof.
  intros p Hok. pose proof Hok as (Hrows & Hnb & Hsz).
  set (n := Z.to_nat (m_num_bins p)).
  assert (Hlen : length (m_chart p) = (10 * n)%nat) by (unfold size, n in *; lia).
  exists (map (fun i => firstn n (skipn (i * n) (m_chart p))) (seq 0 10)).
  split; [rewrite Hrows; reflexivity|]. split; [|split].
  - intros row Hrow. rewrite Hrows in Hrow.
    rewrite (get_row_spec p row Hok Hrow). f_equal.
    rewrite (nth_indep _ [] (firstn n (skipn (0 * n) (m_chart p))))
      by (rewrite length_map, length_seq; lia).
    rewrite (map_nth (fun i => firstn n (skipn (i * n) (m_chart p)))).
    rewrite seq_nth by lia. fold n. do 2 f_equal. unfold n. lia.
  - apply Forall_forall. intros cells Hin. apply in_map_iff in Hin.
    destruct Hin as (i & <- & Hi). apply in_seq in Hi.
    unfold size. rewrite firstn_length_le; [unfold n; lia|].
    rewrite length_skipn. nia.
  - apply concat_chunks. rewrite Hlen. lia.
Qed.

Lemma get_row_partition_witness :
  exists rows,
    size rows = m_num_rows (make Flt.zero Flt.zero [0; 1; 2; 4; 3; 0]) /\
    (forall row, 0 <= row < m_num_rows (make Flt.zero Flt.zero [0; 1; 2; 4; 3; 0]) ->
       get_row (make Flt.zero Flt.zero [0; 1; 2; 4; 3; 0]) row
       = Some (nth (Z.to_nat row) rows [])) /\
    Forall (fun cells => size cells = m_num_bins (make Flt.zero Flt.zero [0; 1; 2; 4; 3; 0]))
      rows /\
    concat rows = m_chart (make Flt.zero Flt.zero [0; 1; 2; 4; 3; 0]).
Proof.
  apply (get_row_partition (make Flt.zero Flt.zero [0; 1; 2; 4; 3; 0])).
  vm_compute. repeat split; discriminate.
Defined.

(** ** render *)

Lemma chart_row_ext p q row :
  m_num_bins p = m_num_bins q ->
  (forall b, 0 <= b < m_num_bins p -> cell p row b = cell q row b) ->
  chart_row p row = chart_row q row.
Proof.
  intros Hnb Hc. unfold chart_row. rewrite <- Hnb. apply map_ext_in.
  intros b Hb. apply in_seq in Hb. apply Hc. lia.
Qed.

(** X21. [render] can be called again on the same object: the second call
    finds the chart the first one left, writes the same levels into it and
    returns the same string. *)
Theorem render_twice :
  forall (min stride : spec_float) (bins : list Z),
    histogram bins ->
    let p := make min stride bins in
    exists p' s,
      render_bins (Z.to_nat (m_num_bins p)) p 0 = Some p' /\
      render p = Some s /\
      render p' = Some s.
Proof.
  intros min stride bins Hh p.
  pose proof (make_num_bins min stride bins Hh) as Hnb. fold p in Hnb.
  destruct (render_bins_make min stride bins Hh) as (p' & Hr & Hok & Hsp & Hc).
  fold p in Hr, Hsp, Hc.
  pose proof Hsp as (_ & _ & Hnb' & _). pose proof Hok as (_ & Hnbr & _).
  destruct (render_bins_spec (Z.to_nat (m_num_bins p')) p' 0 Hok ltac:(lia) ltac:(lia))
    as (p'' & Hr' & Hok' & Hsp' & Hc').
  { intros b Hb.
    destruct (make_bin_levels min stride bins b Hh ltac:(lia))
      as (nf & e8 & Hnf & He8 & Hnfr & _). fold p in Hnf, He8.
    destruct (same_params_levels p p' b Hsp) as [E1 E2].
    exists nf, e8. rewrite E1, E2. auto. }
  pose proof Hsp' as (_ & _ & Hnb'' & _).
  exists p', (concat (map (fun i => render_line (chart_row p' (9 - Z.of_nat i)) ++ [Byte.x0a])
                       (seq 0 10))).
  split; [exact Hr|]. split.
  - unfold render. rewrite Hr. apply render_string_spec. exact Hok.
  - unfold render. rewrite Hr', (render_string_spec p'' Hok'). do 2 f_equal.
    apply map_ext_in. intros i Hi. apply in_seq in Hi. do 2 f_equal.
    apply chart_row_ext; [exact Hnb''|].
    intros b Hb. rewrite Hnb'' in Hb.
    destruct (make_bin_levels min stride bins b Hh ltac:(lia))
      as (nf & e8 & Hnf & He8 & _). fold p in Hnf, He8.
    destruct (same_params_levels p p' b Hsp) as [E1 E2].
    rewrite (Hc' (9 - Z.of_nat i) b nf e8 ltac:(lia) Hb ltac:(congruence) ltac:(congruence)).
    rewrite (Hc (9 - Z.of_nat i) b nf e8 ltac:(lia) ltac:(lia) Hnf He8).
    destruct (Z.leb_spec 0 b); [|lia].
    destruct (Z.ltb_spec b (0 + Z.of_nat (Z.to_nat (m_num_bins p')))); [|lia].
    cbn [andb]. unfold cell_level.
    destruct (9 - Z.of_nat i <? nf); [reflexivity|].
    destruct (9 - Z.of_nat i =? nf); reflexivity.
Qed.

Lemma render_twice_witness :
  exists p' s,
    render_bins (Z.to_nat (m_num_bins (make Flt.zero Flt.zero [0; 1; 2; 4; 3; 0])))
      (make Flt.zero Flt.zero [0; 1; 2; 4; 3; 0]) 0 = Some p' /\
    render (make Flt.zero Flt.zero [0; 1; 2; 4; 3; 0]) = Some s /\
    render p' = Some s.
Proof.
  apply (render_twice Flt.zero Flt.zero [0; 1; 2; 4; 3; 0]).
  split; [vm_compute; split; discriminate|].
  split; [repeat constructor; discriminate|].
  apply Exists_cons_tl, Exists_cons_hd. discriminate.
Defined.

Lemma write_element_window p q bin row eighths :
  same_state p q ->
  match write_element p bin row eighths, write_element q bin row eighths with
  | Some p', Some q' => same_state p' q'
  | None, None => True
  | _, _ => False
  end.
Proof.
  intros ((Hb & Hr & Hn & Hs) & Hc). unfold write_element. rewrite Hr, Hn, Hc.
  destruct (_ <? _); [|exact I].
  repeat split; cbn [set_chart m_bins m_num_rows m_num_bins m_scale_factor m_chart]; auto.
Qed.

Lemma fill_rows_window k : forall p q bin row,
  same_state p q ->
  match fill_rows k p bin row, fill_rows k q bin row with
  | Some p', Some q' => same_state p' q'
  | None, None => True
  | _, _ => False
  end.
Proof.
  induction k as [|k IH]; intros p q bin row H; cbn [fill_rows]; [exact H|].
  pose proof (write_element_window p q bin row 8 H) as Hw.
  destruct (write_element p bin row 8) as [p'|], (write_element q bin row 8) as [q'|];
    try contradiction; [|exact I].
  apply IH. exact Hw.
Qed.

Lemma render_bin_window p q bin :
  same_state p q ->
  match render_bin p bin, render_bin q bin with
  | Some p', Some q' => same_state p' q'
  | None, None => True
  | _, _ => False
  end.
Proof.
  intros H. pose proof H as ((Hb & Hr & Hn & Hs) & Hc). unfold render_bin.
  rewrite Hb. destruct (at_index (m_bins p) (wrap64 (bin + 1))) as [value|]; [|exact I].
  unfold scaled_value, num_full_of. rewrite Hs, Hr.
  destruct (Flt.to_int 0 size_max _) as [num_full|]; [|exact I].
  destruct (eighths_of _) as [eighths|]; [|exact I].
  destruct (num_full <=? m_num_rows p); [|exact I].
  pose proof (fill_rows_window (Z.to_nat num_full) p q bin 0 H) as Hf.
  destruct (fill_rows (Z.to_nat num_full) p bin 0) as [p'|],
           (fill_rows (Z.to_nat num_full) q bin 0) as [q'|]; try contradiction; [|exact I].
  pose proof Hf as ((_ & Hr' & _) & _). rewrite Hr'.
  destruct (num_full <? m_num_rows p'); [|exact Hf].
  apply write_element_window. exact Hf.
Qed.

Lemma render_bins_window k : forall p q bin,
  same_state p q ->
  match render_bins k p bin, render_bins k q bin with
  | Some p', Some q' => same_state p' q'
  | None, None => True
  | _, _ => False
  end.
Proof.
  induction k as [|k IH]; intros p q bin H; cbn [render_bins]; [exact H|].
  pose proof (render_bin_window p q bin H) as Hb.
  destruct (render_bin p bin) as [p'|], (render_bin q bin) as [q'|];
    try contradiction; [|exact I].
  apply IH. exact Hb.
Qed.

Lemma render_rows_window k : forall p q row buffer,
  same_state p q -> render_rows k q row buffer = render_rows k p row buffer.
Proof.
  induction k as [|k IH]; intros p q row buffer H; cbn [render_rows]; [reflexivity|].
  pose proof H as ((Hb & Hr & Hn & Hs) & Hc).
  unfold get_row. rewrite Hn, Hc.
  destruct (_ && _); [|reflexivity]. apply IH. exact H.
Qed.

(** X22. The window stored in the printer plays no part in the drawing:
    [render] returns the same result for every [min] and [stride], failures
    included. *)
Theorem render_ignores_window :
  forall (min stride min' stride' : spec_float) (bins : list Z),
    render (make min' stride' bins) = render (make min stride bins).
Proof.
  intros min stride min' stride' bins.
  assert (H : same_state (make min stride bins) (make min' stride' bins))
    by (repeat split).
  unfold render.
  replace (m_num_bins (make min' stride' bins)) with (m_num_bins (make min stride bins))
    by reflexivity.
  pose proof (render_bins_window (Z.to_nat (m_num_bins (make min stride bins)))
                _ _ 0 H) as Hb.
  destruct (render_bins _ (make min stride bins) 0) as [p'|],
           (render_bins _ (make min' stride' bins) 0) as [q'|];
    try contradiction; [|reflexivity].
  unfold render_string. pose proof Hb as ((_ & Hr & _) & _). rewrite Hr.
  apply render_rows_window. exact Hb.
Qed.

(** ** The fullest bin *)

Lemma recip_lower f m1 y j :
  1 < prec f -> prec f < emax f ->
  0 <= j -> j + 3 <= emax f ->
  Zpos m1 = 2 ^ (prec f - 1) ->
  wf f y -> unit f <= val f y <= 2 ^ j * unit f ->
  let s := Flt.div f (S754_finite false m1 (1 - prec f)) y in
  (unit f - 2 ^ (- prec f - scale f)) * unit f <= val f s * val f y.
Proof.
  intros Hp He Hj Hje Hm1 Hy Hb.
  pose proof (unit_pos f Hp He) as Hu. pose proof (scale_neg f Hp He) as Hsn.
  pose proof (scale_le_emin f Hp He) as Hse.
  assert (Hp0 : 0 < prec f) by lia.
  destruct (normal_shape f Hp He y j Hj Hje Hy Hb) as (my & ey & -> & Hbd & Hd & Hey).
  assert (Hlo2 : scale f <= emin (prec f) (emax f) - 2).
  { unfold scale. rewrite emin_unfold. lia. }
  assert (Hq : emin (prec f) (emax f) <= 1 - 2 * prec f - ey).
  { rewrite emin_unfold. lia. }
  pose proof (SFdiv_one_lower (prec f) (emax f) Hp0 He (scale f) Hse
                m1 my ey Hlo2 Hm1 Hbd Hd Hq) as S3.
  cbv zeta in S3 |- *. unfold Flt.div, val. cbn [ordv cond_Zopp].
  assert (Hsc : scale f <= 4 - 4 * prec f).
  { unfold scale. rewrite emin_unfold. lia. }
  assert (Hlhs : (2 ^ (2 * prec f) - 2 ^ prec f) * 2 ^ (1 - 2 * prec f - 2 * scale f)
                 = 2 * ((unit f - 2 ^ (- prec f - scale f)) * unit f)).
  { unfold unit. rewrite !Z.mul_sub_distr_r.
    rewrite <- !Z.pow_add_r by lia.
    replace (2 * prec f + (1 - 2 * prec f - 2 * scale f)) with (Z.succ (- scale f + - scale f))
      by lia.
    replace (prec f + (1 - 2 * prec f - 2 * scale f))
      with (Z.succ (- prec f - scale f + - scale f)) by lia.
    rewrite !Z.pow_succ_r by lia. ring. }
  rewrite Hlhs in S3. lia.
Qed.

(** A valid value with the value of a finite positive float is that
    float. *)
Lemma val_inj_finite f x m0 e0 :
  1 < prec f -> prec f < emax f ->
  wf f x -> bounded (prec f) (emax f) m0 e0 = true ->
  val f x = val f (S754_finite false m0 e0) ->
  x = S754_finite false m0 e0.
Proof.
  intros Hp He [Hv Hn] Hb0 E.
  assert (Hp0 : 0 < prec f) by lia.
  pose proof (scale_le_emin f Hp He) as Hse.
  destruct (finite_value_bounds (prec f) (emax f) Hp0 He (scale f) Hse m0 e0 Hb0)
    as [Hle0 Hv0].
  unfold val in E. cbn [ordv cond_Zopp] in E.
  destruct x as [s|s| |s m e]; try discriminate; cbn [ordv] in E.
  - lia.
  - destruct s; cbn [cond_Zopp] in E; lia.
  - cbn in Hv.
    destruct (finite_value_bounds (prec f) (emax f) Hp0 He (scale f) Hse m e Hv) as [Hle Hb].
    destruct s; cbn [cond_Zopp] in E; [lia|].
    destruct (Z.compare_spec e e0) as [Ee|Ee|Ee].
    + subst e. assert (0 < 2 ^ (e0 - scale f)) by (apply Z.pow_pos_nonneg; lia).
      assert (Zpos m = Zpos m0) by nia. congruence.
    + pose proof (canonical_lt (prec f) (emax f) Hp0 He (scale f) Hse m e m0 e0 Hv Hb0 Ee).
      lia.
    + pose proof (canonical_lt (prec f) (emax f) Hp0 He (scale f) Hse m0 e0 m e Hb0 Hv Ee).
      lia.
Qed.

(** The scaled value of the largest count is one, or the binary32 value
    just below one. *)
Lemma peak_scaled min stride bins :
  histogram bins ->
  let x := scaled_value (make min stride bins) (reduce_max bins) in
  x = S754_finite false 8388608 (-23) \/ x = S754_finite false 16777215 (-24).
Proof.
  intros Hh. pose proof (histogram_max bins Hh) as HM. unfold int64_max in HM.
  pose proof (unit_pos binary32 f32_prec f32_emax) as Hu.
  destruct (scaled_value_wf min stride bins (reduce_max bins) Hh ltac:(lia)) as (Wx & Fx & Hx).
  destruct (scale_factor_wf min stride bins Hh) as (Ws & Fs & Ps).
  cbv zeta.
  set (x := scaled_value (make min stride bins) (reduce_max bins)) in *.
  set (below := S754_finite false 16777215 (-24)).
  assert (Wb : wf binary32 below) by (split; reflexivity).
  assert (Eb : val binary32 below = unit binary32 - 2 ^ (- prec binary32 - scale binary32))
    by (vm_compute; reflexivity).
  assert (Hlow : val binary32 below <= val binary32 x).
  { unfold x, scaled_value, f32.
    destruct (of_Z_val binary32 f32_prec f32_emax (reduce_max bins)) as [WM VM].
    assert (FM : finite (Flt.of_Z binary32 (reduce_max bins)) = true).
    { apply (of_Z_finite binary32 f32_prec f32_emax _ 63); [cbn; lia|lia]. }
    rewrite (proj2 (mul_val binary32 f32_prec f32_emax _ _ WM Ws FM Fs)).
    rewrite <- (RN_val binary32 f32_prec f32_emax below Wb).
    apply (RN_mono binary32 f32_prec f32_emax).
    apply Z.div_le_lower_bound; [lia|]. rewrite Eb, Z.mul_comm.
    assert (HM1 : unit binary32 <= val binary32 (Flt.of_Z binary32 (reduce_max bins))).
    { pose proof (of_Z_mono binary32 f32_prec f32_emax 1 (reduce_max bins) ltac:(lia)) as H.
      rewrite (of_Z_exact binary32 1 f32_prec f32_emax) in H by (cbn; lia). lia. }
    assert (HM2 : val binary32 (Flt.of_Z binary32 (reduce_max bins))
                  <= 2 ^ 63 * unit binary32).
    { pose proof (of_Z_mono binary32 f32_prec f32_emax (reduce_max bins) (2 ^ 63)
                    ltac:(lia)) as H.
      rewrite (of_Z_pow2 binary32 f32_prec f32_emax) in H by (cbn; lia). exact H. }
    pose proof (recip_lower binary32 8388608 (Flt.of_Z binary32 (reduce_max bins)) 63
                  f32_prec f32_emax ltac:(lia) ltac:(cbn; lia) ltac:(reflexivity) WM
                  (conj HM1 HM2)) as Hrl.
    cbv zeta in Hrl. cbn [make m_scale_factor]. rewrite one_f32. unfold f32.
    rewrite (Z.mul_comm (val binary32 (Flt.of_Z binary32 (reduce_max bins)))). exact Hrl. }
  destruct (Z.eq_dec (val binary32 x) (unit binary32)) as [E|Hne].
  - left. apply (val_inj_finite binary32 x 8388608 (-23) f32_prec f32_emax Wx);
      [reflexivity|exact E].
  - right. apply (val_inj_finite binary32 x 16777215 (-24) f32_prec f32_emax Wx);
      [reflexivity|].
    pose proof (below_one binary32 x f32_prec f32_emax Wx ltac:(lia)) as Hb1.
    fold below. lia.
Qed.

(** X23. The tallest bar reaches the top row.  A bin that holds the
    largest count of the histogram has ten full rows or, because
    [count * (1 / count)] can round to the binary32 value just below one,
    nine full rows under a partial row at seven eighths; a largest count
    of 41 is drawn the second way. *)
Theorem render_fullest_bin :
  (forall (min stride : spec_float) (bins : list Z) (b : Z),
      histogram bins ->
      let p := make min stride bins in
      0 <= b < m_num_bins p -> at_index bins (b + 1) = Some (reduce_max bins) ->
      exists p',
        render_bins (Z.to_nat (m_num_bins p)) p 0 = Some p' /\
        (forall row, 0 <= row < 9 -> cell p' row b = 8) /\
        (cell p' 9 b = 8 \/ cell p' 9 b = 7)) /\
  (bin_num_full (make Flt.zero Flt.zero [0; 41; 0]) 0 = Some 9 /\
   bin_eighths (make Flt.zero Flt.zero [0; 41; 0]) 0 = Some 7).
Proof.
  split; [|split; vm_compute; reflexivity].
  intros min stride bins b Hh p Hb Hat.
  destruct (render_bins_make min stride bins Hh) as (p' & Hr & _ & _ & Hc). fold p in Hr, Hc.
  exists p'. split; [exact Hr|].
  assert (Hlev : (bin_num_full p b = Some 10 /\ bin_eighths p b = Some 0) \/
                 (bin_num_full p b = Some 9 /\ bin_eighths p b = Some 7)).
  { unfold bin_num_full, bin_eighths. replace (m_bins p) with bins by reflexivity.
    rewrite Hat. unfold num_full_of. change (m_num_rows p) with 10.
    destruct (peak_scaled min stride bins Hh) as [E|E]; fold p in E; rewrite E;
      [left|right]; split; vm_compute; reflexivity. }
  destruct Hlev as [[Hnf He8]|[Hnf He8]].
  - split.
    + intros row Hrow. rewrite (Hc row b 10 0 ltac:(lia) Hb Hnf He8). unfold cell_level.
      destruct (Z.ltb_spec row 10); [reflexivity|lia].
    + left. rewrite (Hc 9 b 10 0 ltac:(lia) Hb Hnf He8). reflexivity.
  - split.
    + intros row Hrow. rewrite (Hc row b 9 7 ltac:(lia) Hb Hnf He8). unfold cell_level.
      destruct (Z.ltb_spec row 9); [reflexivity|lia].
    + right. rewrite (Hc 9 b 9 7 ltac:(lia) Hb Hnf He8). reflexivity.
Qed.

Lemma render_fullest_bin_witness :
  exists p',
    render_bins (Z.to_nat (m_num_bins (make Flt.zero Flt.zero [0; 7; 41; 3; 0])))
      (make Flt.zero Flt.zero [0; 7; 41; 3; 0]) 0 = Some p' /\
    (forall row, 0 <= row < 9 -> cell p' row 1 = 8) /\
    (cell p' 9 1 = 8 \/ cell p' 9 1 = 7).
Proof.
  apply (proj1 render_fullest_bin Flt.zero Flt.zero [0; 7; 41; 3; 0] 1).
  - split; [vm_compute; split; discriminate|].
    split; [repeat constructor; discriminate|].
    apply Exists_cons_tl, Exists_cons_hd. discriminate.
  - vm_compute. split; [discriminate|reflexivity].
  - reflexivity.
Defined.

(** ** Glyphs *)

Lemma render_eighth_prefix a b r1 r2 :
  0 <= a <= 8 -> 0 <= b <= 8 ->
  render_eighth a ++ r1 = render_eighth b ++ r2 -> a = b /\ r1 = r2.
Proof.
  intros Ha Hb.
  assert (Ea : a = 0 \/ a = 1 \/ a = 2 \/ a = 3 \/ a = 4 \/ a = 5 \/ a = 6 \/ a = 7 \/ a = 8)
    by lia.
  assert (Eb : b = 0 \/ b = 1 \/ b = 2 \/ b = 3 \/ b = 4 \/ b = 5 \/ b = 6 \/ b = 7 \/ b = 8)
    by lia.
  clear Ha Hb.
  repeat (destruct Ea as [->|Ea]); try subst a;
    repeat (destruct Eb as [->|Eb]); try subst b;
    cbn [render_eighth app]; intros H; inversion H; auto.
Qed.

Lemma render_eighth_nonempty e : render_eighth e <> [].
Proof.
  unfold render_eighth. destruct e as [|p|p]; try discriminate.
  do 4 (try destruct p as [p|p|]); discriminate.
Qed.

(** X24. The drawing determines the levels: two rows of levels from 0 to 8
    with the same glyph bytes are the same row.  (Any level above 8 is
    drawn as a space, like level 0.) *)
Theorem render_cells_injective :
  forall cells1 cells2 : list Z,
    Forall (fun c => 0 <= c <= 8) cells1 -> Forall (fun c => 0 <= c <= 8) cells2 ->
    render_cells cells1 = render_cells cells2 -> cells1 = cells2.
Proof.
  unfold render_cells.
  induction cells1 as [|a l1 IH]; intros [|b l2] H1 H2 E; cbn [map concat] in E.
  - reflexivity.
  - exfalso. apply (render_eighth_nonempty b).
    destruct (render_eighth b); [reflexivity|discriminate].
  - exfalso. apply (render_eighth_nonempty a).
    destruct (render_eighth a); [reflexivity|discriminate].
  - inversion H1 as [|? ? Ha H1']; inversion H2 as [|? ? Hb H2']; subst.
    destruct (render_eighth_prefix a b _ _ Ha Hb E) as [-> E'].
    f_equal. apply IH; assumption.
Qed.

Lemma render_cells_injective_witness : [0; 3; 8] = rev [8; 3; 0].
Proof.
  apply (render_cells_injective [0; 3; 8] (rev [8; 3; 0])).
  - repeat constructor; discriminate.
  - repeat constructor; discriminate.
  - reflexivity.
Defined.
